(** * MovieAdvisor: recommendation cache, genre preferences and search cache

    A shallow embedding of
      - [src/utils/genreStorage.ts]          (genre preference store),
      - [src/utils/simpleRecommendations.ts] (recommendation cache and engine),
      - [src/utils/storage.ts]               (the preference record in AsyncStorage),
      - the search cache update of [performSearch] in the search screen,
    followed by the properties established about them.

    Conventions.  JavaScript numbers that hold identifiers, timestamps and
    lengths are integers ([Z] or [nat]); ratings, popularity and scores are
    rationals ([Q]).  [scoreContent] and [getGenreMatchScore] give the exact
    value of the expression of the source; where the source compares or
    sorts by a score it has computed, the score is the binary64 number the
    engine computes ([Double], [Computed]).  Arrays are lists.  A string
    is the sequence of the bytes of its UTF-8 encoding.  Asynchronous
    functions run to completion one after the other: a computation is a
    function from the state of the process ([World]) to a new state and
    either a thrown exception or a value. *)

From Stdlib Require Import ZArith QArith Qround Qabs Qpower Lqa String Ascii List Lia.
From Stdlib Require Import Sorting.Sorted Sorting.Permutation.
From Stdlib Require Import DecimalString.
From stdpp Require Import base option list sorting gmap.

Local Open Scope string_scope.
Local Open Scope list_scope.
Local Open Scope Z_scope.

(** ** JavaScript array and string primitives used by the sources *)

Module JS.

(** [Array.prototype.includes] on an array of numbers. *)
Definition includes (l : list Z) (x : Z) : bool := existsb (Z.eqb x) l.

(** [Array.prototype.findIndex]; [None] stands for the result [-1]. *)
Fixpoint findIndex_from {A} (p : A → bool) (l : list A) (i : nat) : option nat :=
  match l with
  | [] => None
  | x :: l' => if p x then Some i else findIndex_from p l' (S i)
  end.

Definition findIndex {A} (p : A → bool) (l : list A) : option nat :=
  findIndex_from p l 0.

(** [Array.prototype.filter] with the callback receiving the index. *)
Fixpoint filter_from {A} (p : A → nat → bool) (l : list A) (i : nat) : list A :=
  match l with
  | [] => []
  | x :: l' => if p x i then x :: filter_from p l' (S i) else filter_from p l' (S i)
  end.

Definition filteri {A} (p : A → nat → bool) (l : list A) : list A :=
  filter_from p l 0.

(** [Array.prototype.slice(0, n)]. *)
Definition slice0 {A} (n : nat) (l : list A) : list A := firstn n l.

(** [Array.prototype.sort] with the comparator [(a, b) => key b - key a]:
    descending in [key]; the sort is stable, so items with equal keys keep
    their relative order. *)
Section SortDesc.
Context {A : Type} (key : A → Q).

Definition before (a b : A) : bool := Qle_bool (key b) (key a).

Fixpoint insertDesc (x : A) (l : list A) : list A :=
  match l with
  | [] => [x]
  | y :: l' => if before x y then x :: y :: l' else y :: insertDesc x l'
  end.

Definition sortDesc (l : list A) : list A := foldr insertDesc [] l.
End SortDesc.

(** [String.prototype.toLowerCase], on ASCII letters. *)
Definition lower_ascii (c : ascii) : ascii :=
  let n := nat_of_ascii c in
  if (Nat.leb 65 n && Nat.leb n 90)%bool then ascii_of_nat (n + 32) else c.

Fixpoint toLowerCase (s : string) : string :=
  match s with
  | EmptyString => EmptyString
  | String c s' => String (lower_ascii c) (toLowerCase s')
  end.

(** Conversion of an integer to its decimal string, as in a template
    literal [`${n}`]. *)
Definition toString (n : Z) : string := NilZero.string_of_int (Z.to_int n).

(** A string is truthy iff it is not empty. *)
Definition truthy (s : string) : bool :=
  match s with EmptyString => false | _ => true end.

End JS.

(** ** The Number type: binary64 arithmetic on finite values *)

(** A finite Number is a rational [m * 2^e] with [|m| < 2^53] and
    [-1074 <= e]; every arithmetic operation returns the Number nearest to
    the exact result, a tie going to the one with an even [m].  The
    numbers of this development stay far below the largest Number, so no
    operation overflows, and no division is by zero. *)
Module Double.

(** The power of two [2^e], for any integer exponent. *)
Definition pow2 (e : Z) : Q := (2 ^ e)%Q.

(** [floor (log2 |q|)], for [q] other than zero. *)
Definition ilog2 (q : Q) : Z :=
  let e := Z.log2 (Z.abs (Qnum q)) - Z.log2 (Zpos (Qden q)) in
  if Qle_bool (pow2 e) (Qabs q) then e else e - 1.

(** The nearest integer, a tie going to the even one. *)
Definition rint (q : Q) : Z :=
  let f := Qfloor q in
  match (q - inject_Z f ?= 1 # 2)%Q with
  | Lt => f
  | Gt => f + 1
  | Eq => if Z.even f then f else f + 1
  end.

(** The exponent of the unit in the last place of the Numbers around [q]:
    53 significant bits, and no exponent below -1074. *)
Definition ulp (q : Q) : Z := Z.max (ilog2 q - 52) (-1074).

Definition round (q : Q) : Q :=
  if Qeq_bool q 0 then 0%Q
  else (inject_Z (rint (q / pow2 (ulp q))) * pow2 (ulp q))%Q.

(** The Number a decimal numeral denotes, in the source text ([0.7]) or in
    a JSON document (a rating [8.1]). *)
Definition number (q : Q) : Q := round q.

Definition add (x y : Q) : Q := round (x + y).
Definition sub (x y : Q) : Q := round (x - y).
Definition mul (x y : Q) : Q := round (x * y).
Definition div (x y : Q) : Q := round (x / y).

(** Half a unit in the last place of the Numbers between 1 and 2. *)
Definition eps : Q := 1 # 9007199254740992.

End Double.

(** ** Data model ([src/types/index.ts]) *)

Record Movie := {
  movie_id : Z;
  movie_title : string;
  movie_vote_average : Q;
  movie_genre_ids : list Z;
  movie_popularity : Q;
}.

Record TVShow := {
  tv_id : Z;
  tv_name : string;
  tv_vote_average : Q;
  tv_genre_ids : list Z;
  tv_popularity : Q;
}.

(** [type ContentItem = Movie | TVShow]. *)
Inductive ContentItem :=
| IsMovie (m : Movie)
| IsTVShow (t : TVShow).

Inductive MediaType := movie | tv.

Definition media_type (c : ContentItem) : MediaType :=
  match c with IsMovie _ => movie | IsTVShow _ => tv end.

Definition item_id (c : ContentItem) : Z :=
  match c with IsMovie m => movie_id m | IsTVShow t => tv_id t end.

Definition vote_average (c : ContentItem) : Q :=
  match c with IsMovie m => movie_vote_average m | IsTVShow t => tv_vote_average t end.

Definition popularity (c : ContentItem) : Q :=
  match c with IsMovie m => movie_popularity m | IsTVShow t => tv_popularity t end.

Definition genre_ids (c : ContentItem) : list Z :=
  match c with IsMovie m => movie_genre_ids m | IsTVShow t => tv_genre_ids t end.

Record Genre := { genre_id : Z; genre_name : string }.

Inductive SortMethod := by_popularity | by_rating | by_release_date.
Inductive Theme := light | dark.

Record UserPreferences := {
  favoriteGenres : list Z;
  preferredLanguage : string;
  adultContent : bool;
  sortMethod : SortMethod;
  theme : Theme;
}.

(** [Partial<UserPreferences>]: every field may be absent. *)
Record PartialUserPreferences := {
  p_favoriteGenres : option (list Z);
  p_preferredLanguage : option string;
  p_adultContent : option bool;
  p_sortMethod : option SortMethod;
  p_theme : option Theme;
}.

(** The object spread [{...current, ...partial}]. *)
Definition spread (current : UserPreferences) (partial : PartialUserPreferences)
  : UserPreferences :=
  {| favoriteGenres := default (favoriteGenres current) (p_favoriteGenres partial);
     preferredLanguage := default (preferredLanguage current) (p_preferredLanguage partial);
     adultContent := default (adultContent current) (p_adultContent partial);
     sortMethod := default (sortMethod current) (p_sortMethod partial);
     theme := default (theme current) (p_theme partial) |}.

(** ** The state of the process and its environment *)

(** Exceptions thrown or rejected promises. *)
Inductive Exn :=
| UpstreamError
| AsyncStorageError
| StorageError (message operation : string).

Inductive SortBy :=
| popularity_desc | vote_average_desc | release_date_desc | first_air_date_desc.

(** The calls of [tmdbService] issued by the recommendation cache; [genre]
    stands for the string [userGenres.join(',')]. *)
Inductive Request :=
| movies_discover (page : Z) (genre : list Z) (sort_by : SortBy)
| movies_getPopular (page : Z)
| movies_getTopRated (page : Z)
| movies_getNowPlaying (page : Z)
| tv_discover (page : Z) (genre : list Z) (sort_by : SortBy)
| tv_getPopular (page : Z)
| tv_getTopRated (page : Z)
| tv_getOnTheAir (page : Z).

(** [interface GenreCache] of [simpleRecommendations.ts]. *)
Record GenreCache := {
  movies : list Movie;
  tvShows : list TVShow;
  lastUpdate : Z;
  userGenres : list Z;
}.

(** What the outside world answers during one run: for every request either
    a rejection or the [results] of the response after
    [transformTMDbResponse]; the time one round of requests takes; whether
    [AsyncStorage] fails. *)
Record Env := {
  movie_results : Request → Exn + list Movie;
  tv_results : Request → Exn + list TVShow;
  latency : Z;
  getItem_fails : bool;
  setItem_fails : bool;
}.

(** The module-level caches, the preference record kept under
    [STORAGE_KEYS.USER_PREFERENCES], the clock read by [Date.now()], and the
    log of the requests sent to the network so far. *)
Record World := {
  generalCache : GenreCache;
  personalizedCache : GenreCache;
  asyncStorage : option UserPreferences;
  clock : Z;
  network : list Request;
}.

Definition emptyCache : GenreCache :=
  {| movies := []; tvShows := []; lastUpdate := 0; userGenres := [] |}.

(** Which of the two cache objects a reference points to. *)
Inductive CacheRef := general | personalized.

Definition deref (r : CacheRef) (w : World) : GenreCache :=
  match r with general => generalCache w | personalized => personalizedCache w end.

Definition assign (r : CacheRef) (c : GenreCache) (w : World) : World :=
  match r with
  | general =>
      {| generalCache := c; personalizedCache := personalizedCache w;
         asyncStorage := asyncStorage w; clock := clock w; network := network w |}
  | personalized =>
      {| generalCache := generalCache w; personalizedCache := c;
         asyncStorage := asyncStorage w; clock := clock w; network := network w |}
  end.

Definition with_movies (l : list Movie) (c : GenreCache) : GenreCache :=
  {| movies := l; tvShows := tvShows c; lastUpdate := lastUpdate c;
     userGenres := userGenres c |}.
Definition with_tvShows (l : list TVShow) (c : GenreCache) : GenreCache :=
  {| movies := movies c; tvShows := l; lastUpdate := lastUpdate c;
     userGenres := userGenres c |}.
Definition with_lastUpdate (t : Z) (c : GenreCache) : GenreCache :=
  {| movies := movies c; tvShows := tvShows c; lastUpdate := t;
     userGenres := userGenres c |}.
Definition with_userGenres (g : list Z) (c : GenreCache) : GenreCache :=
  {| movies := movies c; tvShows := tvShows c; lastUpdate := lastUpdate c;
     userGenres := g |}.

Definition with_asyncStorage (s : option UserPreferences) (w : World) : World :=
  {| generalCache := generalCache w; personalizedCache := personalizedCache w;
     asyncStorage := s; clock := clock w; network := network w |}.

Definition sent (reqs : list Request) (dt : Z) (w : World) : World :=
  {| generalCache := generalCache w; personalizedCache := personalizedCache w;
     asyncStorage := asyncStorage w; clock := clock w + dt;
     network := network w ++ reqs |}.

(** ** Computations: state and exceptions *)

Definition M (A : Type) : Type := World → World * (Exn + A).

Definition ret {A} (a : A) : M A := fun w => (w, inr a).
Definition throw {A} (e : Exn) : M A := fun w => (w, inl e).
Definition bind {A B} (m : M A) (k : A → M B) : M B :=
  fun w => match m w with
           | (w', inl e) => (w', inl e)
           | (w', inr a) => k a w'
           end.
(** [try { m } catch (error) { h error }]. *)
Definition try_catch {A} (m : M A) (h : Exn → M A) : M A :=
  fun w => match m w with
           | (w', inl e) => h e w'
           | (w', inr a) => (w', inr a)
           end.
Definition get {A} (f : World → A) : M A := fun w => (w, inr (f w)).
Definition modify (f : World → World) : M unit := fun w => (f w, inr tt).

Notation "'do' x <- m ; k" := (bind m (fun x => k))
  (at level 10, x name, m at level 100, k at level 200).
Notation "'run' m ; k" := (bind m (fun _ => k))
  (at level 10, m at level 100, k at level 200).

(** The value of a run, its final state, and whether it threw. *)
Definition result {A} (m : M A) (w : World) : Exn + A := snd (m w).
Definition final {A} (m : M A) (w : World) : World := fst (m w).
Definition throws {A} (m : M A) (w : World) : Prop :=
  ∃ e, result m w = inl e.

(** [Date.now()]. *)
Definition Date_now : M Z := get clock.

(** [Promise.all] over a batch of requests: every request is sent; the
    joint promise rejects with the first rejection, otherwise it resolves to
    the results in the order of the requests. *)
Fixpoint settle {A} (answer : Request → Exn + list A) (reqs : list Request)
  : Exn + list (list A) :=
  match reqs with
  | [] => inr []
  | r :: reqs' =>
      match answer r, settle answer reqs' with
      | inl e, _ => inl e
      | inr _, inl e => inl e
      | inr page, inr pages => inr (page :: pages)
      end
  end.

Definition Promise_all {A} (env : Env) (answer : Request → Exn + list A)
    (reqs : list Request) : M (list (list A)) :=
  fun w => (sent reqs (latency env) w, settle answer reqs).

(** ** [src/utils/storage.ts]: the preference record *)

(** [AsyncStorage.getItem(STORAGE_KEYS.USER_PREFERENCES)] followed by
    [JSON.parse]; [JSON.stringify] followed by [AsyncStorage.setItem]. *)
Definition AsyncStorage_getItem (env : Env) : M (option UserPreferences) :=
  if getItem_fails env then throw AsyncStorageError else get asyncStorage.

Definition AsyncStorage_setItem (env : Env) (value : UserPreferences) : M unit :=
  if setItem_fails env then throw AsyncStorageError
  else modify (with_asyncStorage (Some value)).

Definition getStorageItem (env : Env) (defaultValue : UserPreferences)
  : M UserPreferences :=
  try_catch
    (do item <- AsyncStorage_getItem env;
     ret (match item with Some v => v | None => defaultValue end))
    (fun _ => ret defaultValue).

Definition setStorageItem (env : Env) (value : UserPreferences) : M unit :=
  try_catch
    (AsyncStorage_setItem env value)
    (fun _ => throw (StorageError "Failed to save @MovieApp:preferences" "SET")).

Definition defaultPreferences : UserPreferences :=
  {| favoriteGenres := []; preferredLanguage := "en"; adultContent := false;
     sortMethod := by_popularity; theme := dark |}.

Definition getUserPreferences (env : Env) : M UserPreferences :=
  getStorageItem env defaultPreferences.

Definition updateUserPreferences (env : Env) (preferences : PartialUserPreferences)
  : M UserPreferences :=
  try_catch
    (do currentPreferences <- getUserPreferences env;
     let updatedPreferences := spread currentPreferences preferences in
     run setStorageItem env updatedPreferences;
     ret updatedPreferences)
    (fun _ => throw (StorageError "Failed to update user preferences"
                                  "UPDATE_PREFERENCES")).

(** ** [src/utils/genreStorage.ts] *)

Definition getGenrePreferences (env : Env) : M (list Z) :=
  try_catch
    (do preferences <- getUserPreferences env;
     ret (favoriteGenres preferences))
    (fun _ => ret []).

Definition only_favoriteGenres (genreIds : list Z) : PartialUserPreferences :=
  {| p_favoriteGenres := Some genreIds; p_preferredLanguage := None;
     p_adultContent := None; p_sortMethod := None; p_theme := None |}.

Definition setGenrePreferences (env : Env) (genreIds : list Z) : M bool :=
  try_catch
    (run updateUserPreferences env (only_favoriteGenres genreIds);
     ret true)
    (fun _ => ret false).

Definition addGenrePreference (env : Env) (genreId : Z) : M bool :=
  try_catch
    (do currentGenres <- getGenrePreferences env;
     if negb (JS.includes currentGenres genreId) then
       let updatedGenres := currentGenres ++ [genreId] in
       setGenrePreferences env updatedGenres
     else ret true)
    (fun _ => ret false).

Definition removeGenrePreference (env : Env) (genreId : Z) : M bool :=
  try_catch
    (do currentGenres <- getGenrePreferences env;
     let updatedGenres :=
       List.filter (fun id => negb (id =? genreId)) currentGenres in
     setGenrePreferences env updatedGenres)
    (fun _ => ret false).

(** The length of an array as a rational number. *)
Definition len {A} (l : list A) : Q := inject_Z (Z.of_nat (length l)).

Definition getGenreMatchScore (env : Env) (contentGenreIds : list Z) : M Q :=
  try_catch
    (do preferences <- getGenrePreferences env;
     if (Nat.eqb (length preferences) 0 || Nat.eqb (length contentGenreIds) 0)%bool
     then ret 0%Q
     else
       let matchingGenres :=
         List.filter (fun id => JS.includes preferences id) contentGenreIds in
       let matchScore := (len matchingGenres / len preferences)%Q in
       let genreRatio := (len matchingGenres / len contentGenreIds)%Q in
       ret (matchScore * (7 # 10) + genreRatio * (3 # 10))%Q)
    (fun _ => ret 0%Q).

(** The bundled genre table [genres.json], read through [getAllGenres] of
    the data module. *)
Record GenresData := { genres_movies : list Genre; genres_tv : list Genre }.

Definition getAllGenres (genresData : GenresData) : list Genre :=
  let combined := genres_movies genresData ++ genres_tv genresData in
  JS.filteri
    (fun genre index =>
       bool_decide
         (JS.findIndex (fun g => genre_id g =? genre_id genre) combined = Some index))
    combined.

Record CompletionStatus := {
  isComplete : bool;
  missingGenres : list Genre;
  coverage : Q;
  recommendations : list string;
}.

Definition Math_min (a b : Q) : Q := if Qle_bool a b then a else b.

Definition getGenreCompletionStatus (genresData : GenresData) (env : Env)
  : M CompletionStatus :=
  try_catch
    (do preferences <- getGenrePreferences env;
     let allGenres := getAllGenres genresData in
     let isComplete := Nat.leb 3 (length preferences) in
     let coverage := Math_min (len preferences / 3) 1 in
     let missingGenres :=
       List.filter (fun g => negb (JS.includes preferences (genre_id g))) allGenres in
     let recommendations :=
       if Nat.eqb (length preferences) 0 then
         ["Select at least 3 genres to get personalized recommendations"]
       else if Nat.ltb (length preferences) 3 then
         [("Select " ++ JS.toString (3 - Z.of_nat (length preferences))
             ++ " more genres for better recommendations")%string]
       else if Nat.leb 5 (length preferences) then
         ["Great! You have enough genre preferences for excellent personalization"]
       else [] in
     ret {| isComplete := isComplete; missingGenres := missingGenres;
            coverage := coverage; recommendations := recommendations |})
    (fun _ =>
       ret {| isComplete := false; missingGenres := []; coverage := 0;
              recommendations := ["Error loading genre preferences"] |}).

(** ** [src/utils/simpleRecommendations.ts] *)

Record SimpleCategory := {
  cat_id : string;
  title : string;
  subtitle : option string;
  data : list ContentItem;
}.

Definition CACHE_DURATION : Z := 5 * 60 * 1000.

Definition genresMatch (userGenres cachedGenres : list Z) : bool :=
  if negb (Nat.eqb (length userGenres) (length cachedGenres)) then false
  else forallb (fun genre => JS.includes cachedGenres genre) userGenres.

Definition getCache (userGenres : list Z) : CacheRef :=
  if Nat.eqb (length userGenres) 0 then general else personalized.

(** Assignment to a field of the cache object a reference points to. *)
Definition update (cache : CacheRef) (f : GenreCache → GenreCache) : M unit :=
  modify (fun w => assign cache (f (deref cache w)) w).

(** [allMovies.filter((movie, index, self) =>
       self.findIndex(m => m.id === movie.id) === index)]. *)
Definition uniqueMovies (allMovies : list Movie) : list Movie :=
  JS.filteri
    (fun movie index =>
       bool_decide
         (JS.findIndex (fun m => movie_id m =? movie_id movie) allMovies = Some index))
    allMovies.

Definition uniqueTVShows (allTVShows : list TVShow) : list TVShow :=
  JS.filteri
    (fun show index =>
       bool_decide
         (JS.findIndex (fun s => tv_id s =? tv_id show) allTVShows = Some index))
    allTVShows.

(** The array [promises] of the two pool functions: the four requests of
    one round, in order. *)
Definition moviePromises (userGenres : list Z) : list Request :=
  if Nat.ltb 0 (length userGenres) then
    [ movies_discover 1 userGenres popularity_desc;
      movies_discover 2 userGenres popularity_desc;
      movies_discover 1 userGenres vote_average_desc;
      movies_discover 1 userGenres release_date_desc ]
  else
    [ movies_getPopular 1; movies_getPopular 2;
      movies_getTopRated 1; movies_getNowPlaying 1 ].

Definition tvPromises (userGenres : list Z) : list Request :=
  if Nat.ltb 0 (length userGenres) then
    [ tv_discover 1 userGenres popularity_desc;
      tv_discover 2 userGenres popularity_desc;
      tv_discover 1 userGenres vote_average_desc;
      tv_discover 1 userGenres first_air_date_desc ]
  else
    [ tv_getPopular 1; tv_getPopular 2;
      tv_getTopRated 1; tv_getOnTheAir 1 ].

Definition getMoviesFromAPI (env : Env) (userGenres : list Z) : M (list Movie) :=
  do now <- Date_now;
  let cache := getCache userGenres in
  do held <- get (deref cache);
  if (Nat.ltb 0 (length (movies held))
      && (now - lastUpdate held <? CACHE_DURATION))%bool
  then ret (movies held)
  else
    try_catch
      (let promises := moviePromises userGenres in
       do responses <- Promise_all env (movie_results env) promises;
       let allMovies := concat responses in
       let uniqueMovies := uniqueMovies allMovies in
       run update cache (with_movies uniqueMovies);
       run update cache (with_lastUpdate now);
       run update cache (with_userGenres userGenres);
       ret uniqueMovies)
      (fun _ => get (fun w => movies (deref cache w))).

Definition getTVShowsFromAPI (env : Env) (userGenres : list Z) : M (list TVShow) :=
  do now <- Date_now;
  let cache := getCache userGenres in
  do held <- get (deref cache);
  if (Nat.ltb 0 (length (tvShows held))
      && (now - lastUpdate held <? CACHE_DURATION))%bool
  then ret (tvShows held)
  else
    try_catch
      (let promises := tvPromises userGenres in
       do responses <- Promise_all env (tv_results env) promises;
       let allTVShows := concat responses in
       let uniqueTVShows := uniqueTVShows allTVShows in
       run update cache (with_tvShows uniqueTVShows);
       run update cache (with_lastUpdate now);
       run update cache (with_userGenres userGenres);
       ret uniqueTVShows)
      (fun _ => get (fun w => tvShows (deref cache w))).

Definition scoreContent (item : ContentItem) (userGenres : list Z) : Q :=
  if Nat.eqb (length userGenres) 0 then (vote_average item / 10)%Q
  else
    let itemGenres := genre_ids item in
    let matchingGenres :=
      List.filter (fun genreId => JS.includes userGenres genreId) itemGenres in
    let genreScore :=
      (len matchingGenres
       / inject_Z (Z.max (Z.of_nat (length userGenres)) 1))%Q in
    let ratingScore := (vote_average item / 10)%Q in
    (genreScore * (7 # 10) + ratingScore * (3 # 10))%Q.

(** [getGenreMatchScore] and [scoreContent] as the engine evaluates them:
    every operation rounds its result to a Number. *)
Module Computed.

Definition getGenreMatchScore (env : Env) (contentGenreIds : list Z) : M Q :=
  try_catch
    (do preferences <- getGenrePreferences env;
     if (Nat.eqb (length preferences) 0 || Nat.eqb (length contentGenreIds) 0)%bool
     then ret 0%Q
     else
       let matchingGenres :=
         List.filter (fun id => JS.includes preferences id) contentGenreIds in
       let matchScore := Double.div (len matchingGenres) (len preferences) in
       let genreRatio := Double.div (len matchingGenres) (len contentGenreIds) in
       ret (Double.add (Double.mul matchScore (Double.number (7 # 10)))
                       (Double.mul genreRatio (Double.number (3 # 10)))))
    (fun _ => ret 0%Q).

Definition scoreContent (item : ContentItem) (userGenres : list Z) : Q :=
  if Nat.eqb (length userGenres) 0
  then Double.div (Double.number (vote_average item)) 10
  else
    let itemGenres := genre_ids item in
    let matchingGenres :=
      List.filter (fun genreId => JS.includes userGenres genreId) itemGenres in
    let genreScore :=
      Double.div (len matchingGenres)
                 (inject_Z (Z.max (Z.of_nat (length userGenres)) 1)) in
    let ratingScore := Double.div (Double.number (vote_average item)) 10 in
    Double.add (Double.mul genreScore (Double.number (7 # 10)))
               (Double.mul ratingScore (Double.number (3 # 10))).

End Computed.

(** [getPersonalizedContent] returns the selected items; since
    [Array.prototype.sort] works in place, the second component is the
    argument array [content] as the call leaves it. *)
Definition getPersonalizedContent (content : list ContentItem)
    (userGenres : list Z) (limit : nat) : list ContentItem * list ContentItem :=
  if Nat.eqb (length userGenres) 0 then
    let sorted := JS.sortDesc vote_average content in
    (JS.slice0 limit sorted, sorted)
  else
    (JS.slice0 limit
       (map fst
          (JS.sortDesc snd
             (map (fun item => (item, Computed.scoreContent item userGenres))
                  content))),
     content).

(** In [getFallbackCategories] the arrays [allMovies] and [allTVShows] are
    the arrays held by [generalCache] (every return of the two pool
    functions hands out the cache's own array), so the in-place sorts
    reorder the cached pools; each [slice] copies before the next sort. *)
Definition getFallbackCategories (env : Env) : M (list SimpleCategory) :=
  do allMovies <- getMoviesFromAPI env [];
  do allTVShows <- getTVShowsFromAPI env [];
  let moviesByPopularity := JS.sortDesc movie_popularity allMovies in
  let popularMovies := JS.slice0 20 moviesByPopularity in
  let moviesByRating := JS.sortDesc movie_vote_average moviesByPopularity in
  let topRatedMovies := JS.slice0 20 moviesByRating in
  let tvByPopularity := JS.sortDesc tv_popularity allTVShows in
  let popularTV := JS.slice0 20 tvByPopularity in
  let tvByRating := JS.sortDesc tv_vote_average tvByPopularity in
  let topRatedTV := JS.slice0 20 tvByRating in
  run update general (with_movies moviesByRating);
  run update general (with_tvShows tvByRating);
  ret [ {| cat_id := "popular-movies"; title := "Popular Movies";
           subtitle := None; data := map IsMovie popularMovies |};
        {| cat_id := "top-rated-movies"; title := "Top Rated Movies";
           subtitle := None; data := map IsMovie topRatedMovies |};
        {| cat_id := "popular-tv"; title := "Popular TV Shows";
           subtitle := None; data := map IsTVShow popularTV |};
        {| cat_id := "top-rated-tv"; title := "Top Rated TV Shows";
           subtitle := None; data := map IsTVShow topRatedTV |} ].

Definition genreNames (genreId : Z) : option string :=
  match genreId with
  | 28 => Some "Action"
  | 12 => Some "Adventure"
  | 16 => Some "Animation"
  | 35 => Some "Comedy"
  | 80 => Some "Crime"
  | 99 => Some "Documentary"
  | 18 => Some "Drama"
  | 10751 => Some "Family"
  | 14 => Some "Fantasy"
  | 36 => Some "History"
  | 27 => Some "Horror"
  | 10402 => Some "Music"
  | 9648 => Some "Mystery"
  | 10749 => Some "Romance"
  | 878 => Some "Science Fiction"
  | 10770 => Some "TV Movie"
  | 53 => Some "Thriller"
  | 10752 => Some "War"
  | 37 => Some "Western"
  | _ => None
  end.

(** The body of [topGenres.forEach(genreId => ...)]: the category is pushed
    onto [categories] unless it has no items. *)
Definition pushGenreCategory (allContent : list ContentItem)
    (categories : list SimpleCategory) (genreId : Z) : list SimpleCategory :=
  let genreName :=
    default ("Genre " ++ JS.toString genreId)%string (genreNames genreId) in
  let genreContent :=
    JS.slice0 20
      (JS.sortDesc vote_average
         (List.filter (fun item => JS.includes (genre_ids item) genreId) allContent)) in
  if Nat.ltb 0 (length genreContent) then
    categories ++
      [ {| cat_id := ("genre-" ++ JS.toString genreId)%string;
           title := ("Best " ++ genreName)%string;
           subtitle :=
             Some ("Top-rated " ++ JS.toLowerCase genreName ++ " content")%string;
           data := genreContent |} ]
  else categories.

Definition getPersonalizedCategories (env : Env) (userGenres : list Z)
  : M (list SimpleCategory) :=
  do allMovies <- getMoviesFromAPI env userGenres;
  do allTVShows <- getTVShowsFromAPI env userGenres;
  let allContent := map IsMovie allMovies ++ map IsTVShow allTVShows in
  let '(forYou, allContent) := getPersonalizedContent allContent userGenres 20 in
  let categories :=
    [ {| cat_id := "for-you"; title := "For You";
         subtitle := Some "Handpicked based on your preferences";
         data := forYou |} ] in
  let allContent := JS.sortDesc popularity allContent in
  let trendingContent := JS.slice0 20 allContent in
  let categories :=
    categories ++
      [ {| cat_id := "trending"; title := "Trending Now";
           subtitle := Some "Popular content in your favorite genres";
           data := trendingContent |} ] in
  let topGenres := JS.slice0 2 userGenres in
  ret (fold_left (pushGenreCategory allContent) topGenres categories).

Definition hasUserPreferences (env : Env) : M bool :=
  try_catch
    (do preferences <- getGenrePreferences env;
     ret (Nat.leb 3 (length preferences)))
    (fun _ => ret false).

Definition getSimpleRecommendations (env : Env) : M (list SimpleCategory) :=
  try_catch
    (do userHasPrefs <- hasUserPreferences env;
     if negb userHasPrefs then getFallbackCategories env
     else
       do userGenres <- getGenrePreferences env;
       getPersonalizedCategories env userGenres)
    (fun _ => getFallbackCategories env).

(** ** The search cache of the search screen ([performSearch]) *)

(** A JavaScript [Map] with string keys: the entries in insertion order,
    every key at most once. *)
Module JSMap.
Section WithValues.
Context {V : Type}.

Definition t : Type := list (string * V).

Definition empty : t := [].

Definition size (m : t) : nat := length m.

Definition has (m : t) (k : string) : bool :=
  existsb (fun e => String.eqb (fst e) k) m.

Definition get (m : t) (k : string) : option V :=
  option_map snd (find (fun e => String.eqb (fst e) k) m).

(** [set] keeps the position of a key that is present and appends a new
    key at the end. *)
Fixpoint set (m : t) (k : string) (v : V) : t :=
  match m with
  | [] => [(k, v)]
  | e :: m' => if String.eqb (fst e) k then (k, v) :: m' else e :: set m' k v
  end.

Definition delete (m : t) (k : string) : t :=
  List.filter (fun e => negb (String.eqb (fst e) k)) m.

(** [m.keys().next().value]; [None] stands for [undefined]. *)
Definition first_key (m : t) : option string :=
  match m with [] => None | e :: _ => Some (fst e) end.

Definition keys (m : t) : list string := map fst m.
End WithValues.
Arguments t : clear implicits.
End JSMap.

Module Search.

Definition SearchItem : Type := ContentItem.

(** [Array.prototype.sort()] without a comparator orders the elements by
    their string conversions. *)
Fixpoint insert_str (s : string) (l : list string) : list string :=
  match l with
  | [] => [s]
  | s' :: l' => if String.leb s s' then s :: s' :: l' else s' :: insert_str s l'
  end.

Definition sort_default (l : list Z) : list string :=
  foldr insert_str [] (map JS.toString l).

(** [`${query.toLowerCase()}_${selectedGenreFilters.sort().join(',')}`]. *)
Definition cacheKey (query : string) (selectedGenreFilters : list Z) : string :=
  (JS.toLowerCase query ++ "_"
     ++ String.concat "," (sort_default selectedGenreFilters))%string.

(** The updater passed to [setSearchCache] once a search has its results. *)
Definition storeResults (cacheKey : string) (results : list SearchItem)
    (prev : JSMap.t (list SearchItem)) : JSMap.t (list SearchItem) :=
  let newCache := JSMap.set prev cacheKey results in
  if Nat.ltb 10 (JSMap.size newCache) then
    match JSMap.first_key newCache with
    | Some firstKey =>
        if JS.truthy firstKey then JSMap.delete newCache firstKey else newCache
    | None => newCache
    end
  else newCache.

(** What happens to the search cache during the life of the screen: a
    search stores its results; a cached search only reads the cache;
    toggling or clearing the genre filters resets it. *)
Inductive Event :=
| Searched (query : string) (selectedGenreFilters : list Z)
           (results : list SearchItem)
| ServedFromCache (query : string) (selectedGenreFilters : list Z)
| FiltersChanged.

Definition step (searchCache : JSMap.t (list SearchItem)) (ev : Event)
  : JSMap.t (list SearchItem) :=
  match ev with
  | Searched query filters results =>
      storeResults (cacheKey query filters) results searchCache
  | ServedFromCache _ _ => searchCache
  | FiltersChanged => JSMap.empty
  end.

(** The cache after a history of events, starting from [new Map()]. *)
Definition after (history : list Event) : JSMap.t (list SearchItem) :=
  fold_left step history JSMap.empty.

(** What holds of the search cache at any time: no key occurs twice, no
    key is the empty string, and there are at most 10 entries. *)
Definition wellFormed (cache : JSMap.t (list SearchItem)) : Prop :=
  NoDup (JSMap.keys cache)
  ∧ Forall (fun k => JS.truthy k = true) (JSMap.keys cache)
  ∧ (JSMap.size cache ≤ 10)%nat.

Definition isRead (ev : Event) : bool :=
  match ev with ServedFromCache _ _ => true | _ => false end.

End Search.

(** ** [src/utils/storage.ts] and [src/utils/genreStorage.ts], continued *)

Definition resetUserPreferences (env : Env) : M UserPreferences :=
  try_catch
    (run setStorageItem env defaultPreferences;
     ret defaultPreferences)
    (fun _ => throw (StorageError "Failed to reset user preferences"
                                  "RESET_PREFERENCES")).

Definition isGenrePreferred (env : Env) (genreId : Z) : M bool :=
  try_catch
    (do preferences <- getGenrePreferences env;
     ret (JS.includes preferences genreId))
    (fun _ => ret false).

Definition getMovieGenres (genresData : GenresData) : list Genre :=
  genres_movies genresData.

Definition getTVGenres (genresData : GenresData) : list Genre :=
  genres_tv genresData.

Record GenrePreferenceStats := {
  totalSelected : nat;
  stats_movieGenres : nat;
  stats_tvGenres : nat;
  stats_commonGenres : nat;
  preferredGenreNames : list string;
}.

(** [names.filter(Boolean) as string[]] on an array whose entries are
    strings or [undefined]. *)
Fixpoint definedNames (names : list (option string)) : list string :=
  match names with
  | [] => []
  | Some s :: names' =>
      if JS.truthy s then s :: definedNames names' else definedNames names'
  | None :: names' => definedNames names'
  end.

Definition getGenrePreferenceStats (genresData : GenresData) (env : Env)
  : M GenrePreferenceStats :=
  try_catch
    (do preferences <- getGenrePreferences env;
     let allGenres := getAllGenres genresData in
     let movieGenres := getMovieGenres genresData in
     let tvGenres := getTVGenres genresData in
     let movieGenreIds := map genre_id movieGenres in
     let tvGenreIds := map genre_id tvGenres in
     let selectedMovieGenres :=
       List.filter (fun id => JS.includes movieGenreIds id) preferences in
     let selectedTVGenres :=
       List.filter (fun id => JS.includes tvGenreIds id) preferences in
     let commonGenres :=
       List.filter
         (fun id => (JS.includes movieGenreIds id && JS.includes tvGenreIds id)%bool)
         preferences in
     let preferredGenreNames :=
       definedNames
         (map (fun id =>
                 option_map genre_name
                   (find (fun g => genre_id g =? id) allGenres))
              preferences) in
     ret {| totalSelected := length preferences;
            stats_movieGenres := length selectedMovieGenres;
            stats_tvGenres := length selectedTVGenres;
            stats_commonGenres := length commonGenres;
            preferredGenreNames := preferredGenreNames |})
    (fun _ =>
       ret {| totalSelected := 0; stats_movieGenres := 0; stats_tvGenres := 0;
              stats_commonGenres := 0; preferredGenreNames := [] |}).

(** The loop [for (const item of content) { ... filteredContent.push(item) }]
    of [filterContentByGenrePreferences]. *)
Fixpoint filterByScore (env : Env) (minScore : Q) (content : list ContentItem)
    (filteredContent : list ContentItem) : M (list ContentItem) :=
  match content with
  | [] => ret filteredContent
  | item :: content' =>
      do score <- Computed.getGenreMatchScore env (genre_ids item);
      if Qle_bool minScore score
      then filterByScore env minScore content' (filteredContent ++ [item])
      else filterByScore env minScore content' filteredContent
  end.

(** The default value [0.2] of the parameter [minScore]. *)
Definition defaultMinScore : Q := Double.number (2 # 10).

Definition filterContentByGenrePreferences (env : Env)
    (content : list ContentItem) (minScore : Q) : M (list ContentItem) :=
  try_catch
    (do preferences <- getGenrePreferences env;
     if Nat.eqb (length preferences) 0 then ret content
     else filterByScore env minScore content [])
    (fun _ => ret content).

(** [Promise.all(content.map(async item => ({item, score: await
    getGenreMatchScore(item.genre_ids)})))]: the pairs in the order of
    [content]. *)
Fixpoint withScores (env : Env) (content : list ContentItem)
  : M (list (ContentItem * Q)) :=
  match content with
  | [] => ret []
  | item :: content' =>
      do score <- Computed.getGenreMatchScore env (genre_ids item);
      do rest <- withScores env content';
      ret ((item, score) :: rest)
  end.

Definition sortContentByGenrePreferences (env : Env) (content : list ContentItem)
  : M (list ContentItem) :=
  try_catch
    (do contentWithScores <- withScores env content;
     ret (map fst (JS.sortDesc snd contentWithScores)))
    (fun _ => ret content).

Definition getRecommendedGenres (genresData : GenresData) (env : Env)
    (excludeSelected : bool) : M (list Genre) :=
  try_catch
    (do preferences <- getGenrePreferences env;
     let allGenres := getAllGenres genresData in
     if negb excludeSelected then ret allGenres
     else
       ret (List.filter (fun genre => negb (JS.includes preferences (genre_id genre)))
                        allGenres))
    (fun _ => ret (getAllGenres genresData)).

(** [[...new Set(preferences)]]: the distinct numbers in the order of their
    first occurrence. *)
Definition distinct (l : list Z) : list Z :=
  fold_left (fun seen x => if JS.includes seen x then seen else seen ++ [x]) l [].

Record Validation := {
  isValid : bool;
  errors : list string;
  warnings : list string;
}.

Definition validateGenrePreferences (genresData : GenresData) (env : Env)
  : M Validation :=
  try_catch
    (do preferences <- getGenrePreferences env;
     let allGenres := getAllGenres genresData in
     let allGenreIds := map genre_id allGenres in
     let invalidGenres :=
       List.filter (fun id => negb (JS.includes allGenreIds id)) preferences in
     let errors :=
       if Nat.ltb 0 (length invalidGenres) then
         [("Invalid genre IDs found: "
             ++ String.concat ", " (map JS.toString invalidGenres))%string]
       else [] in
     let uniquePreferences := distinct preferences in
     let warnings :=
       if negb (Nat.eqb (length uniquePreferences) (length preferences))
       then ["Duplicate genre preferences found"] else [] in
     let warnings :=
       if Nat.eqb (length preferences) 0 then
         warnings ++ ["No genre preferences set - personalization will be limited"]
       else if Nat.ltb 15 (length preferences) then
         warnings ++
           ["Very large number of genre preferences - may reduce specificity of recommendations"]
       else warnings in
     ret {| isValid := Nat.eqb (length errors) 0;
            errors := errors; warnings := warnings |})
    (fun _ =>
       ret {| isValid := false;
              errors := ["Failed to validate genre preferences"];
              warnings := [] |}).

(** [refreshSimpleRecommendations] of [simpleRecommendations.ts].  The two
    pool functions started by [Promise.all] are run one after the other. *)
Definition refreshSimpleRecommendations (env : Env) : M unit :=
  run update general (with_movies []);
  run update general (with_tvShows []);
  run update general (with_lastUpdate 0);
  run update general (with_userGenres []);
  run update personalized (with_movies []);
  run update personalized (with_tvShows []);
  run update personalized (with_lastUpdate 0);
  run update personalized (with_userGenres []);
  try_catch
    (do userHasPrefs <- hasUserPreferences env;
     if userHasPrefs then
       do userGenres <- getGenrePreferences env;
       run getMoviesFromAPI env userGenres;
       run getTVShowsFromAPI env userGenres;
       ret tt
     else
       run getMoviesFromAPI env [];
       run getTVShowsFromAPI env [];
       ret tt)
    (fun _ => ret tt).

(** ** What [performSearch] shows: the results of a multi search *)

Module SearchResults.

Inductive MultiType := multi_movie | multi_tv | multi_person.

(** An entry of the response of [tmdbService.search.searchMulti], with the
    fields the search screen reads. *)
Record MultiResult := {
  multi_media_type : MultiType;
  multi_id : Z;
  multi_title : string;
  multi_name : string;
  multi_vote_average : Q;
  multi_genre_ids : list Z;
  multi_popularity : Q;
}.

Definition transformTMDbMovie (item : MultiResult) : Movie :=
  {| movie_id := multi_id item; movie_title := multi_title item;
     movie_vote_average := multi_vote_average item;
     movie_genre_ids := multi_genre_ids item;
     movie_popularity := multi_popularity item |}.

Definition transformTMDbTVShow (item : MultiResult) : TVShow :=
  {| tv_id := multi_id item; tv_name := multi_name item;
     tv_vote_average := multi_vote_average item;
     tv_genre_ids := multi_genre_ids item;
     tv_popularity := multi_popularity item |}.

(** [searchResponse.results.filter(movie or tv).map(transform).slice(0, 20)]. *)
Definition collect (results : list MultiResult) : list Search.SearchItem :=
  JS.slice0 20
    (map (fun item =>
            match multi_media_type item with
            | multi_movie => IsMovie (transformTMDbMovie item)
            | _ => IsTVShow (transformTMDbTVShow item)
            end)
         (List.filter
            (fun item =>
               match multi_media_type item with
               | multi_movie | multi_tv => true
               | multi_person => false
               end)
            results)).

(** [if (selectedGenreFilters.length > 0) results = results.filter(item =>
    item.genre_ids.some(genreId => selectedGenreFilters.includes(genreId)))]. *)
Definition filterByGenres (selectedGenreFilters : list Z)
    (results : list Search.SearchItem) : list Search.SearchItem :=
  if Nat.ltb 0 (length selectedGenreFilters) then
    List.filter
      (fun item =>
         existsb (fun genreId => JS.includes selectedGenreFilters genreId)
                 (genre_ids item))
      results
  else results.

(** The score of the branch without preferences,
    [popularity * 0.3 + vote_average * 0.7], as the engine computes it. *)
Definition generalScore (item : Search.SearchItem) : Q :=
  Double.add
    (Double.mul (Double.number (popularity item)) (Double.number (3 # 10)))
    (Double.mul (Double.number (vote_average item)) (Double.number (7 # 10))).

(** The ranking: by [scoreContent] when the user has preferences, by the
    general score otherwise. *)
Definition rank (userPreferences : list Z) (results : list Search.SearchItem)
  : list Search.SearchItem :=
  if Nat.ltb 0 (length userPreferences) then
    map fst
      (JS.sortDesc snd
         (map (fun item => (item, Computed.scoreContent item userPreferences))
              results))
  else JS.sortDesc generalScore results.

(** The list passed to [setSearchResults] and stored in the cache. *)
Definition shown (results : list MultiResult) (selectedGenreFilters : list Z)
    (userPreferences : list Z) : list Search.SearchItem :=
  rank userPreferences (filterByGenres selectedGenreFilters (collect results)).

End SearchResults.

(** ** [src/utils/storage.ts]: favorites and search history *)

Module Device.

(** [interface FavoriteItem]. *)
Record FavoriteItem := {
  fav_id : Z;
  fav_type : MediaType;
  fav_title : string;
  fav_poster_path : string;
  fav_vote_average : Q;
  fav_release_date : option string;
  fav_first_air_date : option string;
  addedAt : string;
}.

(** The values kept under [STORAGE_KEYS.FAVORITES] and
    [STORAGE_KEYS.SEARCH_HISTORY]; [None] is an absent key. *)
Record Store := {
  favorites : option (list FavoriteItem);
  searchHistory : option (list string);
}.

(** Whether the calls of [AsyncStorage] fail, and the string
    [new Date().toISOString()] evaluates to. *)
Record Ambient := {
  getItem_rejects : bool;
  setItem_rejects : bool;
  removeItem_rejects : bool;
  toISOString : string;
}.

Definition D (A : Type) : Type := Store → Store * (Exn + A).

#[global] Instance D_ret : MRet D := fun A a s => (s, inr a).
#[global] Instance D_bind : MBind D := fun A B k m s =>
  match m s with
  | (s', inl e) => (s', inl e)
  | (s', inr a) => k a s'
  end.

Definition raise {A} (e : Exn) : D A := fun s => (s, inl e).

Definition attempt {A} (m : D A) (handler : Exn → D A) : D A :=
  fun s => match m s with
           | (s', inl e) => handler e s'
           | (s', inr a) => (s', inr a)
           end.

Definition value {A} (m : D A) (s : Store) : Exn + A := snd (m s).
Definition after {A} (m : D A) (s : Store) : Store := fst (m s).

(** [getStorageItem] and [setStorageItem] at the two keys. *)
Definition getStoredFavorites (amb : Ambient) (defaultValue : list FavoriteItem)
  : D (list FavoriteItem) :=
  attempt (fun s => if getItem_rejects amb then (s, inl AsyncStorageError)
                else (s, inr (default defaultValue (favorites s))))
      (fun _ => mret defaultValue).

Definition setStoredFavorites (amb : Ambient) (value : list FavoriteItem) : D unit :=
  attempt (fun s => if setItem_rejects amb then (s, inl AsyncStorageError)
                else ({| favorites := Some value;
                         searchHistory := searchHistory s |}, inr tt))
      (fun _ => raise (StorageError "Failed to save @MovieApp:favorites" "SET")).

Definition getStoredHistory (amb : Ambient) (defaultValue : list string)
  : D (list string) :=
  attempt (fun s => if getItem_rejects amb then (s, inl AsyncStorageError)
                else (s, inr (default defaultValue (searchHistory s))))
      (fun _ => mret defaultValue).

Definition setStoredHistory (amb : Ambient) (value : list string) : D unit :=
  attempt (fun s => if setItem_rejects amb then (s, inl AsyncStorageError)
                else ({| favorites := favorites s;
                         searchHistory := Some value |}, inr tt))
      (fun _ => raise (StorageError "Failed to save @MovieApp:searchHistory" "SET")).

(** [removeStorageItem(STORAGE_KEYS.SEARCH_HISTORY)]. *)
Definition removeStoredHistory (amb : Ambient) : D unit :=
  attempt (fun s => if removeItem_rejects amb then (s, inl AsyncStorageError)
                else ({| favorites := favorites s; searchHistory := None |},
                      inr tt))
      (fun _ => raise (StorageError "Failed to remove @MovieApp:searchHistory"
                                    "REMOVE")).

Definition getFavorites (amb : Ambient) : D (list FavoriteItem) :=
  getStoredFavorites amb [].

(** [fav.id === id && fav.type === type]. *)
Definition sameFavorite (id : Z) (type : MediaType) (fav : FavoriteItem) : bool :=
  ((fav_id fav =? id)
   && match fav_type fav, type with
      | movie, movie | tv, tv => true
      | _, _ => false
      end)%bool.

(** [{...item, addedAt: new Date().toISOString()}]. *)
Definition stamped (amb : Ambient) (item : FavoriteItem) : FavoriteItem :=
  {| fav_id := fav_id item; fav_type := fav_type item;
     fav_title := fav_title item; fav_poster_path := fav_poster_path item;
     fav_vote_average := fav_vote_average item;
     fav_release_date := fav_release_date item;
     fav_first_air_date := fav_first_air_date item;
     addedAt := toISOString amb |}.

Definition addToFavorites (amb : Ambient) (item : FavoriteItem)
  : D (list FavoriteItem) :=
  attempt
    (favorites ← getFavorites amb;
     let existingIndex :=
       JS.findIndex (sameFavorite (fav_id item) (fav_type item)) favorites in
     if bool_decide (is_Some existingIndex) then mret favorites
     else
       let updatedFavorites := favorites ++ [stamped amb item] in
       setStoredFavorites amb updatedFavorites;;
       mret updatedFavorites)
    (fun _ => raise (StorageError "Failed to add item to favorites" "ADD_FAVORITE")).

Definition removeFromFavorites (amb : Ambient) (id : Z) (type : MediaType)
  : D (list FavoriteItem) :=
  attempt
    (favorites ← getFavorites amb;
     let updatedFavorites :=
       List.filter (fun item => negb (sameFavorite id type item)) favorites in
     setStoredFavorites amb updatedFavorites;;
     mret updatedFavorites)
    (fun _ => raise (StorageError "Failed to remove item from favorites"
                                  "REMOVE_FAVORITE")).

Definition toggleFavorite (amb : Ambient) (item : FavoriteItem)
  : D (list FavoriteItem) :=
  attempt
    (favorites ← getFavorites amb;
     let existingIndex :=
       JS.findIndex (sameFavorite (fav_id item) (fav_type item)) favorites in
     let updatedFavorites :=
       match existingIndex with
       | Some existingIndex =>
           JS.filteri (fun _ index => negb (Nat.eqb index existingIndex)) favorites
       | None => favorites ++ [stamped amb item]
       end in
     setStoredFavorites amb updatedFavorites;;
     mret updatedFavorites)
    (fun _ => getFavorites amb).

Definition isFavorite (amb : Ambient) (id : Z) (type : MediaType) : D bool :=
  attempt
    (favorites ← getFavorites amb;
     mret (existsb (sameFavorite id type) favorites))
    (fun _ => mret false).

Definition addMultipleToFavorites (amb : Ambient) (items : list FavoriteItem)
  : D (list FavoriteItem) :=
  attempt
    (favorites ← getFavorites amb;
     let newItems :=
       List.filter
         (fun item =>
            negb (existsb (sameFavorite (fav_id item) (fav_type item)) favorites))
         items in
     let updatedFavorites := favorites ++ map (stamped amb) newItems in
     setStoredFavorites amb updatedFavorites;;
     mret updatedFavorites)
    (fun _ => raise (StorageError "Failed to add multiple items to favorites"
                                  "ADD_MULTIPLE_FAVORITES")).

Definition clearAllFavorites (amb : Ambient) : D unit :=
  attempt (setStoredFavorites amb [])
      (fun _ => raise (StorageError "Failed to clear all favorites"
                                    "CLEAR_FAVORITES")).

(** [String.prototype.trim].  A string is held as the bytes of its UTF-8
    encoding, as a string literal of this file is.  [trim] removes from
    both ends the white space and the line terminators of ECMAScript: the
    code points U+0009 to U+000D, U+0020, U+00A0, U+1680, U+2000 to U+200A,
    U+2028, U+2029, U+202F, U+205F, U+3000 and U+FEFF. *)
Definition byte (c : ascii) : N := N_of_ascii c.

(** U+0009 to U+000D and U+0020, one byte each. *)
Definition isSpace (a : ascii) : bool :=
  ((9 <=? byte a) && (byte a <=? 13) || (byte a =? 32))%N.

(** U+00A0, the bytes C2 A0. *)
Definition isSpace2 (a b : ascii) : bool :=
  ((byte a =? 194) && (byte b =? 160))%N.

(** U+1680 (E1 9A 80), U+2000 to U+200A (E2 80 80 to E2 80 8A), U+2028 and
    U+2029 (E2 80 A8, E2 80 A9), U+202F (E2 80 AF), U+205F (E2 81 9F),
    U+3000 (E3 80 80) and U+FEFF (EF BB BF). *)
Definition isSpace3 (a b c : ascii) : bool :=
  ((byte a =? 225) && (byte b =? 154) && (byte c =? 128)
   || (byte a =? 226) && (byte b =? 128)
      && ((128 <=? byte c) && (byte c <=? 138)
          || (byte c =? 168) || (byte c =? 169) || (byte c =? 175))
   || (byte a =? 226) && (byte b =? 129) && (byte c =? 159)
   || (byte a =? 227) && (byte b =? 128) && (byte c =? 128)
   || (byte a =? 239) && (byte b =? 187) && (byte c =? 191))%N.

(** The string is one white space code point. *)
Definition isWhiteSpace (s : string) : bool :=
  match s with
  | String a EmptyString => isSpace a
  | String a (String b EmptyString) => isSpace2 a b
  | String a (String b (String c EmptyString)) => isSpace3 a b c
  | _ => false
  end.

Fixpoint trimStart (s : string) : string :=
  match s with
  | EmptyString => EmptyString
  | String a s1 =>
      if isSpace a then trimStart s1
      else
        match s1 with
        | EmptyString => s
        | String b s2 =>
            if isSpace2 a b then trimStart s2
            else
              match s2 with
              | EmptyString => s
              | String c s3 => if isSpace3 a b c then trimStart s3 else s
              end
        end
  end.

(** The code points are removed from the end one by one: what is left of
    the rest is taken first, and a code point that then stands last is
    dropped when it is white space. *)
Fixpoint trimEnd (s : string) : string :=
  match s with
  | EmptyString => EmptyString
  | String a s' =>
      let kept := String a (trimEnd s') in
      if isWhiteSpace kept then EmptyString else kept
  end.

Definition trim (s : string) : string := trimEnd (trimStart s).

Definition getSearchHistory (amb : Ambient) : D (list string) :=
  getStoredHistory amb [].

Definition addToSearchHistory (amb : Ambient) (query : string) : D (list string) :=
  attempt
    (if negb (JS.truthy (trim query)) then getSearchHistory amb
     else
       history ← getSearchHistory amb;
       let updatedHistory :=
         JS.slice0 10
           (trim query
              :: List.filter (fun item => negb (String.eqb item (trim query))) history) in
       setStoredHistory amb updatedHistory;;
       mret updatedHistory)
    (fun _ => raise (StorageError "Failed to add to search history"
                                  "ADD_SEARCH_HISTORY")).

Definition removeFromSearchHistory (amb : Ambient) (query : string)
  : D (list string) :=
  attempt
    (history ← getSearchHistory amb;
     let updatedHistory :=
       List.filter (fun item => negb (String.eqb item query)) history in
     setStoredHistory amb updatedHistory;;
     mret updatedHistory)
    (fun _ => raise (StorageError "Failed to remove from search history"
                                  "REMOVE_SEARCH_HISTORY")).

Definition clearSearchHistory (amb : Ambient) : D unit :=
  attempt (removeStoredHistory amb)
      (fun _ => raise (StorageError "Failed to clear search history"
                                    "CLEAR_SEARCH_HISTORY")).

End Device.

(** * Vocabulary of the statements *)

(** ** Deduplication by identifier *)

Section UniqueBy.
Context {A : Type} (key : A → Z).

Definition same (x y : A) : bool := key y =? key x.

(** The filter of the sources, for any item type. *)
Definition uniqueBy (all : list A) : list A :=
  JS.filteri
    (fun x index => bool_decide (JS.findIndex (same x) all = Some index)) all.

(** The same list computed with the items seen so far. *)
Fixpoint keepNew (seen l : list A) : list A :=
  match l with
  | [] => []
  | x :: l' =>
      if existsb (same x) seen then keepNew (seen ++ [x]) l'
      else x :: keepNew (seen ++ [x]) l'
  end.

End UniqueBy.

(** [pool] holds the first item of every identifier of [all], in the order
    in which these first items stand in [all]: no identifier occurs twice
    in [pool], every identifier of [all] occurs in it, every item of [pool]
    is the item of [all] at the first position with its identifier, and
    these positions increase along [pool]. *)
Definition firstOccurrences {A} (key : A → Z) (all pool : list A) : Prop :=
  NoDup (map key pool)
  ∧ (∀ x, x ∈ all → ∃ m, m ∈ pool ∧ key m = key x)
  ∧ (∀ i m, pool !! i = Some m →
       ∃ k, JS.findIndex (same key m) all = Some k ∧ all !! k = Some m)
  ∧ (∀ i j m m', pool !! i = Some m → pool !! j = Some m' → (i < j)%nat →
       ∃ k k', JS.findIndex (same key m) all = Some k
               ∧ JS.findIndex (same key m') all = Some k'
               ∧ (k < k')%nat).

(** ** Descending order *)

Section Descending.
Context {A : Type} (key : A → Q).

(** Descending in [key]: every item is followed only by items whose key
    is not larger. *)
Definition sortedDesc (l : list A) : Prop :=
  StronglySorted (fun a b => (key b <= key a)%Q) l.

(** Items with the same key stand in [sorted] in the order they have in
    [original]. *)
Definition keepsTies (original sorted : list A) : Prop :=
  ∀ q, List.filter (fun x => Qeq_bool (key x) q) sorted
       = List.filter (fun x => Qeq_bool (key x) q) original.

(** [items] are the first [n] items of [pool] put in descending order of
    [key] (all of them when [pool] has fewer): [items] continues to an
    arrangement of the whole of [pool] that is descending in [key] and
    keeps items with the same key in the order of [pool]. *)
Definition topOf (n : nat) (pool items : list A) : Prop :=
  length items = Nat.min n (length pool)
  ∧ ∃ rest, items ++ rest ≡ₚ pool
            ∧ sortedDesc (items ++ rest)
            ∧ keepsTies pool (items ++ rest).

End Descending.

(** The key by which [getPersonalizedContent] orders the content: the
    rating when there are no genres, the computed [scoreContent]
    otherwise. *)
Definition rankingKey (userGenres : list Z) (item : ContentItem) : Q :=
  if Nat.eqb (length userGenres) 0 then vote_average item
  else Computed.scoreContent item userGenres.

(** ** The preference store, the pools and the categories *)

(** The genre list kept in storage; a missing record reads as the default
    preferences. *)
Definition storedGenres (w : World) : list Z :=
  match asyncStorage w with
  | Some preferences => favoriteGenres preferences
  | None => []
  end.

(** What [getGenrePreferences] reads: a failing storage reads as no genres. *)
Definition readGenres (env : Env) (w : World) : list Z :=
  if getItem_fails env then [] else storedGenres w.

(** The number of genres common to the preferences and the item. *)
Definition common (P G : list Z) : Q :=
  inject_Z (Z.of_nat (size (list_to_set P ∩ list_to_set G : gset Z))).

(** The value [getGenreMatchScore] computes from the preferences it reads. *)
Definition scoreOf (P G : list Z) : Q :=
  if (Nat.eqb (length P) 0 || Nat.eqb (length G) 0)%bool then 0%Q
  else
    let matching := List.filter (fun id => JS.includes P id) G in
    (len matching / len P * (7 # 10) + len matching / len G * (3 # 10))%Q.

(** What identifies a content item: its numeric identifier together with
    its media type. *)
Definition identity (c : ContentItem) : Z * MediaType := (item_id c, media_type c).

(** The test that lets a pool function answer from the cache. *)
Definition servesMovies (userGenres : list Z) (w : World) : bool :=
  let held := deref (getCache userGenres) w in
  (Nat.ltb 0 (length (movies held))
   && (clock w - lastUpdate held <? CACHE_DURATION))%bool.

Definition servesTVShows (userGenres : list Z) (w : World) : bool :=
  let held := deref (getCache userGenres) w in
  (Nat.ltb 0 (length (tvShows held))
   && (clock w - lastUpdate held <? CACHE_DURATION))%bool.

(** The state after a round that stored [f] applied to the cache entry. *)
Definition stored (userGenres : list Z) (reqs : list Request) (env : Env)
    (f : GenreCache → GenreCache) (w : World) : World :=
  assign (getCache userGenres)
    (with_userGenres userGenres
       (with_lastUpdate (clock w) (f (deref (getCache userGenres) w))))
    (sent reqs (latency env) w).

(** The array [allContent] that [getPersonalizedCategories] builds from the
    two pools. *)
Definition pooledContent (env : Env) (userGenres : list Z) (w : World)
  : list ContentItem :=
  match getMoviesFromAPI env userGenres w with
  | (w1, inr allMovies) =>
      match getTVShowsFromAPI env userGenres w1 with
      | (_, inr allTVShows) => map IsMovie allMovies ++ map IsTVShow allTVShows
      | (_, inl _) => []
      end
  | (_, inl _) => []
  end.

(** Some item of the pool carries the genre. *)
Definition hasGenre (genreId : Z) (pool : list ContentItem) : bool :=
  existsb (fun item => JS.includes (genre_ids item) genreId) pool.

(** The items of a "Best ..." category built from [pool] for a genre: not
    empty, at most 20, in descending order of rating, all taken from the
    pool and carrying the genre; an item of the pool with the genre is left
    out only when the category is full and holds nothing rated lower. *)
Definition bestOfGenre (genreId : Z) (pool items : list ContentItem) : Prop :=
  items ≠ []
  ∧ (length items ≤ 20)%nat
  ∧ sortedDesc vote_average items
  ∧ (∀ item, item ∈ items → item ∈ pool ∧ genreId ∈ genre_ids item)
  ∧ (∀ item kept,
       item ∈ pool → genreId ∈ genre_ids item → item ∉ items → kept ∈ items →
       length items = 20%nat ∧ (vote_average item <= vote_average kept)%Q).

Definition genreContent (allContent : list ContentItem) (genreId : Z)
  : list ContentItem :=
  JS.slice0 20
    (JS.sortDesc vote_average
       (List.filter (fun item => JS.includes (genre_ids item) genreId) allContent)).

(** Nothing is cached: both cache entries hold no items. *)
Definition nothingCached (w : World) : Prop :=
  movies (generalCache w) = [] ∧ tvShows (generalCache w) = []
  ∧ movies (personalizedCache w) = [] ∧ tvShows (personalizedCache w) = [].

(** Every request is rejected. *)
Definition allFetchesFail (env : Env) : Prop :=
  ∀ r, (∃ e, movie_results env r = inl e) ∧ (∃ e, tv_results env r = inl e).

(** ** Concrete environments and states used by the examples below *)

Module Fixture.

(** No request succeeds; the storage works. *)
Definition offline : Env :=
  {| movie_results := fun _ => inl UpstreamError;
     tv_results := fun _ => inl UpstreamError;
     latency := 250; getItem_fails := false; setItem_fails := false |}.

Definition mk_movie (i : Z) (t : string) (rating popular : Q) (gs : list Z) : Movie :=
  {| movie_id := i; movie_title := t; movie_vote_average := rating;
     movie_genre_ids := gs; movie_popularity := popular |}.

Definition mk_show (i : Z) (t : string) (rating popular : Q) (gs : list Z) : TVShow :=
  {| tv_id := i; tv_name := t; tv_vote_average := rating;
     tv_genre_ids := gs; tv_popularity := popular |}.

Definition mad_max := mk_movie 76341 "Mad Max: Fury Road" (76 # 10) 90 [28; 12; 878].
Definition up := mk_movie 14160 "Up" (79 # 10) 70 [16; 35; 12].
Definition heat := mk_movie 949 "Heat" (79 # 10) 40 [28; 80; 18].
Definition amelie := mk_movie 194 "Amelie" (79 # 10) 30 [35; 10749].
Definition arcane := mk_show 94605 "Arcane" (87 # 10) 80 [16; 18].
(** A series that carries the same numeric identifier as a movie. *)
Definition twin := mk_show 949 "Nine Four Nine" (6 # 1) 5 [18].

(** Every request is answered; the answers overlap, and a discovery
    that does not ask for genre 28 finds other movies than one that
    does. *)
Definition online : Env :=
  {| movie_results := fun r =>
       match r with
       | movies_discover 1 genre popularity_desc =>
           if JS.includes genre 28 then inr [mad_max; up] else inr [amelie]
       | movies_discover _ genre popularity_desc =>
           if JS.includes genre 28 then inr [heat] else inr []
       | movies_discover _ genre _ =>
           if JS.includes genre 28 then inr [up; heat] else inr [amelie]
       | movies_getPopular _ => inr [mad_max; heat]
       | _ => inr [mad_max; amelie]
       end;
     tv_results := fun r =>
       match r with
       | tv_discover _ _ vote_average_desc => inr [arcane; twin]
       | tv_getTopRated _ => inr [arcane]
       | _ => inr [twin]
       end;
     latency := 250; getItem_fails := false; setItem_fails := false |}.

(** A process that has just started, with the given genres in storage. *)
Definition started (genres : list Z) : World :=
  {| generalCache := emptyCache; personalizedCache := emptyCache;
     asyncStorage :=
       Some (spread defaultPreferences (only_favoriteGenres genres));
     clock := 1700000000000; network := [] |}.

Definition table : GenresData :=
  {| genres_movies := [ {| genre_id := 28; genre_name := "Action" |};
                        {| genre_id := 12; genre_name := "Adventure" |};
                        {| genre_id := 16; genre_name := "Animation" |} ];
     genres_tv := [ {| genre_id := 16; genre_name := "Animation" |};
                    {| genre_id := 18; genre_name := "Drama" |} ] |}.

End Fixture.

(** The scenario of a preference change after a pool has been cached. *)

Module Stale.

Definition G1 : list Z := [28; 12; 16].
Definition G2 : list Z := [35; 18; 27].

(** The pool for [G1] is fetched; then the user's preferences become
    [G2]. *)
Definition populated : World :=
  final (getMoviesFromAPI Fixture.online G1) (Fixture.started G1).
Definition changed : World :=
  final (setGenrePreferences Fixture.online G2) populated.

End Stale.

(** The Number [getGenreMatchScore] computes from the preferences [P] and
    the genres [G] of an item. *)
Definition computedScoreOf (P G : list Z) : Q :=
  if (Nat.eqb (length P) 0 || Nat.eqb (length G) 0)%bool then 0%Q
  else
    let matching := List.filter (fun id => JS.includes P id) G in
    Double.add (Double.mul (Double.div (len matching) (len P))
                           (Double.number (7 # 10)))
               (Double.mul (Double.div (len matching) (len G))
                           (Double.number (3 # 10))).

(** How far a computed score can be from the exact one: [2^-50]. *)
Definition closeness : Q := 1 # 1125899906842624.

(** The score [getGenreMatchScore] computes for the genres of an item. *)
Definition matchScoreAt (env : Env) (w : World) (item : ContentItem) : Q :=
  match result (Computed.getGenreMatchScore env (genre_ids item)) w with
  | inr score => score
  | inl _ => 0%Q
  end.

(** The state after [dt] milliseconds in which nothing else happens. *)
Definition later (dt : Z) (w : World) : World :=
  {| generalCache := generalCache w; personalizedCache := personalizedCache w;
     asyncStorage := asyncStorage w; clock := clock w + dt;
     network := network w |}.

(** The cache entry a reference does not point to. *)
Definition otherEntry (cache : CacheRef) (w : World) : GenreCache :=
  match cache with
  | general => personalizedCache w
  | personalized => generalCache w
  end.

(** ** The list held for a fingerprint *)

(** In the state [w] the cache holds the movie list [pool] for the
    fingerprint of [userGenres]: a round for a genre list with the same
    genres (in any order, as [genresMatch] compares them) stored [pool],
    and since then time has passed, series were requested, the preferences
    were written, and calls for movies were answered from the cache, failed
    or went to the entry of the other mode. *)
Inductive holdsMoviesFor (userGenres : list Z) (pool : list Movie) : World → Prop :=
| movies_stored (env : Env) (genres : list Z) (w : World) (pages : list (list Movie)) :
    genresMatch userGenres genres = true →
    servesMovies genres w = false →
    settle (movie_results env) (moviePromises genres) = inr pages →
    pool = uniqueMovies (concat pages) →
    holdsMoviesFor userGenres pool (final (getMoviesFromAPI env genres) w)
| movies_kept_later (dt : Z) (w : World) :
    holdsMoviesFor userGenres pool w →
    holdsMoviesFor userGenres pool (later dt w)
| movies_kept_by_series (env : Env) (genres : list Z) (w : World) :
    holdsMoviesFor userGenres pool w →
    holdsMoviesFor userGenres pool (final (getTVShowsFromAPI env genres) w)
| movies_kept_by_movies (env : Env) (genres : list Z) (w : World) :
    holdsMoviesFor userGenres pool w →
    servesMovies genres w = true
    ∨ (∃ e, settle (movie_results env) (moviePromises genres) = inl e)
    ∨ getCache genres ≠ getCache userGenres →
    holdsMoviesFor userGenres pool (final (getMoviesFromAPI env genres) w)
| movies_kept_by_preferences (env : Env) (genreIds : list Z) (w : World) :
    holdsMoviesFor userGenres pool w →
    holdsMoviesFor userGenres pool (final (setGenrePreferences env genreIds) w).

(** The same for the list of series. *)
Inductive holdsTVShowsFor (userGenres : list Z) (pool : list TVShow) : World → Prop :=
| tvShows_stored (env : Env) (genres : list Z) (w : World) (pages : list (list TVShow)) :
    genresMatch userGenres genres = true →
    servesTVShows genres w = false →
    settle (tv_results env) (tvPromises genres) = inr pages →
    pool = uniqueTVShows (concat pages) →
    holdsTVShowsFor userGenres pool (final (getTVShowsFromAPI env genres) w)
| tvShows_kept_later (dt : Z) (w : World) :
    holdsTVShowsFor userGenres pool w →
    holdsTVShowsFor userGenres pool (later dt w)
| tvShows_kept_by_movies (env : Env) (genres : list Z) (w : World) :
    holdsTVShowsFor userGenres pool w →
    holdsTVShowsFor userGenres pool (final (getMoviesFromAPI env genres) w)
| tvShows_kept_by_series (env : Env) (genres : list Z) (w : World) :
    holdsTVShowsFor userGenres pool w →
    servesTVShows genres w = true
    ∨ (∃ e, settle (tv_results env) (tvPromises genres) = inl e)
    ∨ getCache genres ≠ getCache userGenres →
    holdsTVShowsFor userGenres pool (final (getTVShowsFromAPI env genres) w)
| tvShows_kept_by_preferences (env : Env) (genreIds : list Z) (w : World) :
    holdsTVShowsFor userGenres pool w →
    holdsTVShowsFor userGenres pool (final (setGenrePreferences env genreIds) w).

(** ** The results of a search *)

(** An entry of a response that stands for a movie or a series. *)
Definition isTitle (entry : SearchResults.MultiResult) : bool :=
  match SearchResults.multi_media_type entry with
  | SearchResults.multi_person => false
  | _ => true
  end.

(** The title a content item is shown with. *)
Definition displayTitle (item : ContentItem) : string :=
  match item with IsMovie m => movie_title m | IsTVShow t => tv_name t end.

(** [item] is what the search screen makes of the entry [entry]: it has the
    fields of the entry, as a movie for a movie entry and as a series
    otherwise. *)
Definition shownFor (entry : SearchResults.MultiResult) (item : ContentItem) : Prop :=
  item_id item = SearchResults.multi_id entry
  ∧ vote_average item = SearchResults.multi_vote_average entry
  ∧ popularity item = SearchResults.multi_popularity entry
  ∧ genre_ids item = SearchResults.multi_genre_ids entry
  ∧ match SearchResults.multi_media_type entry with
    | SearchResults.multi_movie =>
        media_type item = movie
        ∧ displayTitle item = SearchResults.multi_title entry
    | _ =>
        media_type item = tv
        ∧ displayTitle item = SearchResults.multi_name entry
    end.

(** The item passes the genre filters: none is selected, or the item
    carries a selected genre. *)
Definition passesFilters (filters : list Z) (item : ContentItem) : bool :=
  (Nat.eqb (length filters) 0
   || existsb (fun genreId => JS.includes filters genreId) (genre_ids item))%bool.

(** The key by which the results are ordered: the computed [scoreContent]
    when the user has preferences, the general score otherwise. *)
Definition searchKey (userPreferences : list Z) (item : ContentItem) : Q :=
  if Nat.ltb 0 (length userPreferences)
  then Computed.scoreContent item userPreferences
  else SearchResults.generalScore item.

(** The order in which the filters of a cache key are sorted. *)
Definition leb_str (a b : string) : Prop := String.leb a b = true.

(** ** Favorites and search history *)

(** The favorites and the search history kept in the store; an absent key
    reads as the empty list. *)
Definition heldFavorites (s : Device.Store) : list Device.FavoriteItem :=
  default [] (Device.favorites s).

Definition heldHistory (s : Device.Store) : list string :=
  default [] (Device.searchHistory s).

(** What identifies a favorite: identifier and media type. *)
Definition favoriteIdentity (fav : Device.FavoriteItem) : Z * MediaType :=
  (Device.fav_id fav, Device.fav_type fav).

(** A storage whose calls all succeed. *)
Definition reliable (amb : Device.Ambient) : Prop :=
  Device.getItem_rejects amb = false
  ∧ Device.setItem_rejects amb = false
  ∧ Device.removeItem_rejects amb = false.

(** The list without its first element satisfying [p]. *)
Fixpoint dropFirst {A} (p : A → bool) (l : list A) : list A :=
  match l with
  | [] => []
  | x :: l' => if p x then l' else x :: dropFirst p l'
  end.

(** [s] consists of white space code points only. *)
Inductive blank : string → Prop :=
  | blank_empty : blank EmptyString
  | blank_more (ws s : string) :
      Device.isWhiteSpace ws = true → blank s → blank (ws ++ s)%string.

Definition startsWithSpace (s : string) : Prop :=
  ∃ ws rest, Device.isWhiteSpace ws = true ∧ s = (ws ++ rest)%string.

Definition endsWithSpace (s : string) : Prop :=
  ∃ rest ws, Device.isWhiteSpace ws = true ∧ s = (rest ++ ws)%string.

(** [t] is [s] without the white space at its two ends. *)
Definition trimmed (s t : string) : Prop :=
  (∃ before after,
     blank before ∧ blank after ∧ s = (before ++ t ++ after)%string)
  ∧ ¬ startsWithSpace t ∧ ¬ endsWithSpace t.

Module DeviceFixture.

Definition working : Device.Ambient :=
  {| Device.getItem_rejects := false; Device.setItem_rejects := false;
     Device.removeItem_rejects := false;
     Device.toISOString := "2024-05-01T10:00:00.000Z" |}.

Definition favorite (i : Z) (t : MediaType) (name : string) : Device.FavoriteItem :=
  {| Device.fav_id := i; Device.fav_type := t; Device.fav_title := name;
     Device.fav_poster_path := "/poster.jpg"; Device.fav_vote_average := 79 # 10;
     Device.fav_release_date := None; Device.fav_first_air_date := None;
     Device.addedAt := "2023-01-01T00:00:00.000Z" |}.

Definition fresh : Device.Store :=
  {| Device.favorites := None; Device.searchHistory := None |}.

(** The no-break space U+00A0, the line separator U+2028 and the byte
    order mark U+FEFF, in UTF-8. *)
Definition nbsp : string :=
  String (ascii_of_nat 194) (String (ascii_of_nat 160) EmptyString).

Definition lineSeparator : string :=
  String (ascii_of_nat 226)
    (String (ascii_of_nat 128) (String (ascii_of_nat 168) EmptyString)).

Definition byteOrderMark : string :=
  String (ascii_of_nat 239)
    (String (ascii_of_nat 187) (String (ascii_of_nat 191) EmptyString)).

End DeviceFixture.

(** * Properties *)

(** ** Facts about the array primitives *)

Section ArrayFacts.
Context {A : Type}.

Lemma includes_elem_of (l : list Z) (x : Z) :
  JS.includes l x = true ↔ x ∈ l.
Proof.
  unfold JS.includes. rewrite existsb_exists. split.
  - intros (y & Hy & Heq). apply Z.eqb_eq in Heq. subst y.
    by apply list_elem_of_In.
  - intros Hx. exists x. split; [by apply list_elem_of_In | apply Z.eqb_refl].
Qed.

Lemma findIndex_from_range (p : A → bool) (l : list A) (i j : nat) :
  JS.findIndex_from p l i = Some j → (i ≤ j < i + length l)%nat.
Proof.
  revert i. induction l as [|x l IH]; intros i; simpl; [done|].
  destruct (p x).
  - intros [= <-]. lia.
  - intros Hj. apply IH in Hj. lia.
Qed.

Lemma findIndex_from_app (p : A → bool) (pre l : list A) (i : nat) :
  JS.findIndex_from p (pre ++ l) i =
  match JS.findIndex_from p pre i with
  | Some j => Some j
  | None => JS.findIndex_from p l (i + length pre)
  end.
Proof.
  revert i. induction pre as [|x pre IH]; intros i; simpl.
  - by rewrite Nat.add_0_r.
  - destruct (p x); [done|]. rewrite IH. by rewrite Nat.add_succ_r.
Qed.

Lemma findIndex_from_None (p : A → bool) (l : list A) (i : nat) :
  JS.findIndex_from p l i = None ↔ existsb p l = false.
Proof.
  revert i. induction l as [|x l IH]; intros i; simpl; [done|].
  destruct (p x); simpl; [split; discriminate | apply IH].
Qed.

(** The element at the end of [pre] is the first one satisfying [p] in
    [pre ++ x :: l] exactly when nothing in [pre] satisfies [p]. *)
Lemma findIndex_first (p : A → bool) (pre l : list A) (x : A) :
  p x = true →
  bool_decide (JS.findIndex p (pre ++ x :: l) = Some (length pre))
  = negb (existsb p pre).
Proof.
  intros Hx. unfold JS.findIndex. rewrite findIndex_from_app. simpl.
  rewrite Hx.
  destruct (JS.findIndex_from p pre 0) as [j|] eqn:Hpre.
  - assert (existsb p pre = true) as ->.
    { destruct (existsb p pre) eqn:E; [done|].
      apply (findIndex_from_None p pre 0) in E. congruence. }
    apply findIndex_from_range in Hpre. simpl.
    apply bool_decide_eq_false. intros [= ->]. lia.
  - apply findIndex_from_None in Hpre. rewrite Hpre. simpl.
    by apply bool_decide_eq_true.
Qed.
End ArrayFacts.

(** ** Deduplication by identifier *)

Section Dedup.
Context {A : Type} (key : A → Z).

Lemma filter_from_keepNew (pre l : list A) :
  JS.filter_from
    (fun x index => bool_decide (JS.findIndex (same key x) (pre ++ l) = Some index))
    l (length pre)
  = keepNew key pre l.
Proof.
  revert pre. induction l as [|x l IH]; intros pre; simpl; [done|].
  rewrite findIndex_first by (unfold same; apply Z.eqb_refl).
  specialize (IH (pre ++ [x])).
  rewrite <- app_assoc, length_app in IH. simpl in IH.
  rewrite Nat.add_1_r in IH. rewrite IH.
  by destruct (existsb (same key x) pre).
Qed.

Lemma uniqueBy_keepNew (all : list A) : uniqueBy key all = keepNew key [] all.
Proof. apply (filter_from_keepNew [] all). Qed.

Lemma existsb_same (x : A) (seen : list A) :
  existsb (same key x) seen = true ↔ key x ∈ map key seen.
Proof.
  rewrite existsb_exists, list_elem_of_fmap. unfold same. split.
  - intros (y & Hy & Heq). apply Z.eqb_eq in Heq. exists y.
    split; [done | by apply list_elem_of_In].
  - intros (y & Heq & Hy). exists y.
    split; [by apply list_elem_of_In | by apply Z.eqb_eq].
Qed.

Lemma keepNew_fresh (seen l : list A) (m : A) :
  m ∈ keepNew key seen l → m ∈ l ∧ key m ∉ map key seen.
Proof.
  revert seen. induction l as [|x l IH]; intros seen; simpl.
  - by intros ?%elem_of_nil.
  - destruct (existsb (same key x) seen) eqn:E.
    + intros [Hm Hk]%IH. split; [by right|].
      rewrite map_app, elem_of_app in Hk. tauto.
    + intros [->|[Hm Hk]%IH]%elem_of_cons.
      * split; [by left|]. rewrite <- existsb_same. by rewrite E.
      * split; [by right|]. rewrite map_app, elem_of_app in Hk. tauto.
Qed.

Lemma keepNew_NoDup (seen l : list A) : NoDup (map key (keepNew key seen l)).
Proof.
  revert seen. induction l as [|x l IH]; intros seen; simpl; [constructor|].
  destruct (existsb (same key x) seen); [apply IH|].
  simpl. constructor; [|apply IH].
  intros (m & Hk & Hm)%list_elem_of_fmap.
  apply keepNew_fresh in Hm as [_ Hfresh]. apply Hfresh.
  rewrite map_app, elem_of_app. right. simpl. rewrite Hk. by left.
Qed.

Lemma find_same_app_fresh (seen l : list A) (m : A) :
  key m ∉ map key seen →
  find (same key m) (seen ++ l) = find (same key m) l.
Proof.
  induction seen as [|y seen IH]; simpl; [done|].
  intros Hfresh. rewrite not_elem_of_cons in Hfresh.
  destruct Hfresh as [Hy Hseen]. unfold same at 1.
  destruct (key y =? key m) eqn:E; [apply Z.eqb_eq in E; congruence|].
  by apply IH.
Qed.

Lemma keepNew_first (seen l : list A) (m : A) :
  m ∈ keepNew key seen l → find (same key m) l = Some m.
Proof.
  revert seen. induction l as [|x l IH]; intros seen; simpl.
  - by intros ?%elem_of_nil.
  - intros Hm.
    assert (m = x ∨ (m ∈ keepNew key (seen ++ [x]) l)) as [->|Hin].
    { destruct (existsb (same key x) seen); [by right|].
      by apply elem_of_cons in Hm. }
    + unfold same. by rewrite Z.eqb_refl.
    + pose proof (keepNew_fresh _ _ _ Hin) as [_ Hfresh].
      rewrite map_app, elem_of_app in Hfresh. simpl in Hfresh.
      unfold same at 1. destruct (key x =? key m) eqn:E.
      * apply Z.eqb_eq in E. exfalso. apply Hfresh. right. rewrite E. by left.
      * by apply (IH (seen ++ [x])).
Qed.

Lemma keepNew_complete (seen l : list A) (x : A) :
  x ∈ l → key x ∈ map key seen ∨ ∃ m, m ∈ keepNew key seen l ∧ key m = key x.
Proof.
  revert seen. induction l as [|y l IH]; intros seen; simpl.
  - by intros ?%elem_of_nil.
  - intros [->|Hx]%elem_of_cons.
    + destruct (existsb (same key y) seen) eqn:E.
      * left. by apply existsb_same.
      * right. exists y. split; [by left | done].
    + destruct (IH (seen ++ [y]) Hx) as [Hseen|(m & Hm & Hk)].
      * rewrite map_app, elem_of_app in Hseen. simpl in Hseen.
        destruct Hseen as [Hseen|Hy%list_elem_of_singleton]; [by left|].
        destruct (existsb (same key y) seen) eqn:E.
        -- left. rewrite Hy. by apply existsb_same.
        -- right. exists y. split; [by left | done].
      * right. exists m. split; [|done].
        destruct (existsb (same key y) seen); [done | by right].
Qed.

Lemma keepNew_sublist (seen l : list A) : sublist (keepNew key seen l) l.
Proof.
  revert seen. induction l as [|x l IH]; intros seen; simpl; [constructor|].
  destruct (existsb (same key x) seen).
  - by apply sublist_cons.
  - by apply sublist_skip.
Qed.

Lemma filter_from_lookup (p : A → nat → bool) (l : list A) (n i : nat) (x : A) :
  JS.filter_from p l n !! i = Some x →
  ∃ k, l !! k = Some x ∧ p x (n + k)%nat = true.
Proof.
  revert n i. induction l as [|a l IH]; intros n i; simpl; [done|].
  destruct (p a n) eqn:E.
  - destruct i as [|i]; simpl.
    + intros [= ->]. exists 0%nat. by rewrite Nat.add_0_r.
    + intros (k & Hk & Hp)%IH. exists (S k).
      split; [done|]. by rewrite Nat.add_succ_r.
  - intros (k & Hk & Hp)%IH. exists (S k).
    split; [done|]. by rewrite Nat.add_succ_r.
Qed.

Lemma filter_from_order (p : A → nat → bool) (l : list A) (n i j : nat) (x y : A) :
  JS.filter_from p l n !! i = Some x →
  JS.filter_from p l n !! j = Some y →
  (i < j)%nat →
  ∃ k k', l !! k = Some x ∧ p x (n + k)%nat = true
          ∧ l !! k' = Some y ∧ p y (n + k')%nat = true
          ∧ (k < k')%nat.
Proof.
  revert n i j. induction l as [|a l IH]; intros n i j; simpl; [done|].
  assert (∀ i j, JS.filter_from p l (S n) !! i = Some x →
                 JS.filter_from p l (S n) !! j = Some y → (i < j)%nat →
                 ∃ k k', (a :: l) !! k = Some x ∧ p x (n + k)%nat = true
                         ∧ (a :: l) !! k' = Some y ∧ p y (n + k')%nat = true
                         ∧ (k < k')%nat) as Hrest.
  { intros i' j' Hi Hj Hlt.
    destruct (IH (S n) i' j' Hi Hj Hlt) as (k & k' & Hk & Hpk & Hk' & Hpk' & Hkk).
    exists (S k), (S k'). rewrite !Nat.add_succ_r.
    repeat split; try done. lia. }
  destruct (p a n) eqn:E; [|apply Hrest].
  destruct i as [|i], j as [|j]; simpl; try lia.
  - intros [= ->] (k' & Hk' & Hpk')%filter_from_lookup _.
    exists 0%nat, (S k'). rewrite Nat.add_0_r, Nat.add_succ_r.
    repeat split; try done. lia.
  - intros Hi Hj Hlt. apply (Hrest i j); [done | done | lia].
Qed.

Lemma uniqueBy_firstOccurrences (all : list A) :
  firstOccurrences key all (uniqueBy key all).
Proof.
  split; [|split; [|split]].
  - rewrite uniqueBy_keepNew. apply keepNew_NoDup.
  - intros x Hx. rewrite uniqueBy_keepNew.
    destruct (keepNew_complete [] all x Hx) as [Hnil|?]; [|done].
    by apply elem_of_nil in Hnil.
  - intros i m (k & Hk & Hp)%filter_from_lookup.
    apply bool_decide_eq_true in Hp. by exists k.
  - intros i j m m' Hi Hj Hlt.
    destruct (filter_from_order _ _ _ _ _ _ _ Hi Hj Hlt)
      as (k & k' & _ & Hp & _ & Hp' & Hkk).
    apply bool_decide_eq_true in Hp, Hp'. by exists k, k'.
Qed.

(** An item standing at the first position of its identifier is what
    [find] returns for that identifier. *)
Lemma findIndex_from_find (x : A) (l : list A) (n k : nat) :
  JS.findIndex_from (same key x) l n = Some (n + k)%nat →
  l !! k = Some x →
  find (same key x) l = Some x.
Proof.
  revert n k. induction l as [|a l IH]; intros n k; simpl; [done|].
  destruct (same key x a) eqn:E.
  - intros [= Hn] Hk. assert (k = 0%nat) as -> by lia. simpl in Hk. congruence.
  - intros Hi Hk. destruct k as [|k]; simpl in Hk.
    + injection Hk as ->. unfold same in E. rewrite Z.eqb_refl in E. discriminate E.
    + apply (IH (S n) k); [|done]. by rewrite Nat.add_succ_l, <- Nat.add_succ_r.
Qed.

Lemma firstOccurrences_find (all pool : list A) (m : A) :
  firstOccurrences key all pool → m ∈ pool → find (same key m) all = Some m.
Proof.
  intros (_ & _ & Hfirst & _) (i & Hi)%list_elem_of_lookup_1.
  destruct (Hfirst i m Hi) as (k & Hk & Hat).
  by apply (findIndex_from_find m all 0 k).
Qed.

Lemma firstOccurrences_elem_of (all pool : list A) (m : A) :
  firstOccurrences key all pool → m ∈ pool → m ∈ all.
Proof.
  intros (_ & _ & Hfirst & _) (i & Hi)%list_elem_of_lookup_1.
  destruct (Hfirst i m Hi) as (k & _ & Hat).
  by apply list_elem_of_lookup_2 in Hat.
Qed.
End Dedup.

(** ** The descending sort *)

Section SortFacts.
Context {A : Type} (key : A → Q).

Lemma insertDesc_Permutation (x : A) (l : list A) :
  JS.insertDesc key x l ≡ₚ x :: l.
Proof.
  induction l as [|y l IH]; simpl; [done|].
  destruct (JS.before key x y); [done|].
  rewrite IH. apply perm_swap.
Qed.

Lemma sortDesc_Permutation (l : list A) : JS.sortDesc key l ≡ₚ l.
Proof.
  induction l as [|x l IH]; simpl; [done|].
  rewrite insertDesc_Permutation. by rewrite IH.
Qed.

Lemma insertDesc_sorted (x : A) (l : list A) :
  sortedDesc key l → sortedDesc key (JS.insertDesc key x l).
Proof.
  unfold sortedDesc. induction l as [|y l IH]; simpl; intros Hs.
  - repeat constructor.
  - apply StronglySorted_inv in Hs as [Hl Hy].
    unfold JS.before. destruct (Qle_bool (key y) (key x)) eqn:E.
    + apply Qle_bool_iff in E. constructor; [by constructor|].
      constructor; [done|].
      eapply Forall_impl; [exact Hy|]. intros z Hz. simpl in Hz.
      by apply Qle_trans with (key y).
    + assert (key x <= key y)%Q as Hxy.
      { destruct (Qlt_le_dec (key x) (key y)) as [Hlt|Hle].
        - by apply Qlt_le_weak.
        - apply Qle_bool_iff in Hle. congruence. }
      constructor; [by apply IH|].
      rewrite insertDesc_Permutation. by constructor.
Qed.

Lemma sortDesc_sorted (l : list A) : sortedDesc key (JS.sortDesc key l).
Proof.
  induction l as [|x l IH]; simpl; [constructor|].
  by apply insertDesc_sorted.
Qed.

Lemma sortedDesc_slice0 (n : nat) (l : list A) :
  sortedDesc key l → sortedDesc key (JS.slice0 n l).
Proof.
  unfold sortedDesc, JS.slice0. intros Hs. revert n.
  induction Hs as [|x l Hs IH Hx]; intros [|n]; simpl; try constructor.
  - apply IH.
  - by apply Forall_take.
Qed.

Lemma insertDesc_ties (x : A) (l : list A) (q : Q) :
  List.filter (fun y => Qeq_bool (key y) q) (JS.insertDesc key x l)
  = List.filter (fun y => Qeq_bool (key y) q) (x :: l).
Proof.
  induction l as [|y l IH]; [done|].
  cbn [JS.insertDesc]. unfold JS.before.
  destruct (Qle_bool (key y) (key x)) eqn:E; [done|].
  cbn [List.filter] in *. rewrite IH.
  destruct (Qeq_bool (key y) q) eqn:Ey; [|done].
  destruct (Qeq_bool (key x) q) eqn:Ex; [|done].
  apply Qeq_bool_iff in Ey, Ex.
  assert (Qle_bool (key y) (key x) = true); [|congruence].
  apply Qle_bool_iff. rewrite Ey, Ex. apply Qle_refl.
Qed.

(** The sort is stable. *)
Lemma sortDesc_keepsTies (l : list A) : keepsTies key l (JS.sortDesc key l).
Proof.
  intros q. induction l as [|x l IH]; [done|].
  cbn [JS.sortDesc foldr]. rewrite insertDesc_ties.
  cbn [List.filter]. fold (JS.sortDesc key l). by rewrite IH.
Qed.

Lemma sortDesc_length (l : list A) : length (JS.sortDesc key l) = length l.
Proof. apply Permutation_length, sortDesc_Permutation. Qed.

Lemma slice0_length (n : nat) (l : list A) : (length (JS.slice0 n l) ≤ n)%nat.
Proof. unfold JS.slice0. rewrite length_take. lia. Qed.

Lemma slice0_sortDesc_topOf (n : nat) (l : list A) :
  topOf key n l (JS.slice0 n (JS.sortDesc key l)).
Proof.
  unfold JS.slice0. split.
  - rewrite length_take, sortDesc_length. lia.
  - exists (drop n (JS.sortDesc key l)). rewrite take_drop.
    split; [apply sortDesc_Permutation|].
    split; [apply sortDesc_sorted | apply sortDesc_keepsTies].
Qed.

(** What [topOf] gives: at most [n] items, descending, all from the pool,
    and an item of the pool is left out only when [n] items were taken
    and none of them has a smaller key. *)
Lemma topOf_spec (n : nat) (pool items : list A) :
  topOf key n pool items →
  (length items ≤ n)%nat
  ∧ sortedDesc key items
  ∧ (∀ x, x ∈ items → x ∈ pool)
  ∧ (∀ x, x ∈ pool → x ∉ items →
       length items = n ∧ ∀ kept, kept ∈ items → (key x <= key kept)%Q).
Proof.
  intros (Hlen & rest & Hperm & Hsorted & _).
  split; [lia|]. split; [|split].
  - unfold sortedDesc in *. by apply StronglySorted_app_1_l in Hsorted.
  - intros x Hx. rewrite <- Hperm. apply elem_of_app. by left.
  - intros x Hx Hout. rewrite <- Hperm in Hx.
    apply elem_of_app in Hx as [Hx|Hx]; [done|]. split.
    + apply Permutation_length in Hperm. rewrite length_app in Hperm.
      destruct rest; [by apply elem_of_nil in Hx|]. simpl in Hperm. lia.
    + intros kept Hkept.
      by apply (StronglySorted_app_1_elem_of _ _ _ kept x Hsorted).
Qed.
End SortFacts.

Lemma sortedDesc_map {A B} (f : A → B) (keyA : A → Q) (keyB : B → Q) (l : list A) :
  (∀ x, keyB (f x) = keyA x) →
  sortedDesc keyA l → sortedDesc keyB (map f l).
Proof.
  intros Hkey. unfold sortedDesc. induction 1 as [|x l Hs IH Hx]; simpl.
  - constructor.
  - constructor; [done|]. apply Forall_map.
    eapply Forall_impl; [exact Hx|]. intros y Hy. simpl. by rewrite !Hkey.
Qed.

(** ** Rounding to a Number *)

Module DoubleFacts.
Import Double.

Lemma pow2_pos (e : Z) : (0 < pow2 e)%Q.
Proof. unfold pow2. by apply Qpower_0_lt. Qed.

Lemma pow2_add (a b : Z) : (pow2 (a + b) == pow2 a * pow2 b)%Q.
Proof. unfold pow2. by apply Qpower_plus. Qed.

Lemma pow2_le (a b : Z) : a <= b → (pow2 a <= pow2 b)%Q.
Proof. intros H. unfold pow2. by apply Qpower_le_compat_l. Qed.

Lemma pow2_inject (n : Z) : 0 <= n → (pow2 n == inject_Z (2 ^ n))%Q.
Proof. intros H. unfold pow2. by rewrite Zpower_Qpower. Qed.

Lemma rint_integer (n : Z) : rint (inject_Z n) = n.
Proof.
  unfold rint. rewrite Qfloor_Z.
  assert ((inject_Z n - inject_Z n ?= 1 # 2)%Q = Lt) as ->; [|done].
  apply Qlt_alt. assert (inject_Z n - inject_Z n == 0)%Q as -> by ring.
  reflexivity.
Qed.

Lemma rint_mono (x y : Q) : (x <= y)%Q → rint x <= rint y.
Proof.
  intros Hxy. unfold rint.
  pose proof (Qfloor_resp_le x y Hxy) as Hfloor.
  destruct (Z.eq_dec (Qfloor x) (Qfloor y)) as [Heq|Hne].
  - rewrite <- Heq. clear Heq Hfloor.
    generalize (Qfloor x). intros f.
    destruct (x - inject_Z f ?= 1 # 2)%Q eqn:Ex;
      destruct (y - inject_Z f ?= 1 # 2)%Q eqn:Ey;
      (first [apply Qeq_alt in Ex | apply Qlt_alt in Ex | apply Qgt_alt in Ex]);
      (first [apply Qeq_alt in Ey | apply Qlt_alt in Ey | apply Qgt_alt in Ey]);
      destruct (Z.even f); try lia; exfalso;
      revert Hxy Ex Ey; generalize (inject_Z f); intros g Hxy Ex Ey; lra.
  - destruct (x - inject_Z (Qfloor x) ?= 1 # 2)%Q;
      destruct (y - inject_Z (Qfloor y) ?= 1 # 2)%Q;
      destruct (Z.even (Qfloor x)); destruct (Z.even (Qfloor y)); lia.
Qed.

Lemma ilog2_spec (q : Q) :
  (0 < q)%Q → (pow2 (ilog2 q) <= q)%Q ∧ (q < pow2 (ilog2 q + 1))%Q.
Proof.
  destruct q as [a b]. intros Hq.
  assert (0 < a) as Ha by (unfold Qlt in Hq; simpl in Hq; lia).
  unfold ilog2. cbn [Qnum Qden]. rewrite (Z.abs_eq a) by lia.
  set (la := Z.log2 a). set (lb := Z.log2 (Zpos b)).
  pose proof (Z.log2_spec a Ha) as [Ha1 Ha2]. fold la in Ha1, Ha2.
  pose proof (Z.log2_spec (Zpos b) ltac:(lia)) as [Hb1 Hb2]. fold lb in Hb1, Hb2.
  pose proof (Z.log2_nonneg a) as Hla. fold la in Hla.
  pose proof (Z.log2_nonneg (Zpos b)) as Hlb. fold lb in Hlb.
  assert (pow2 la <= inject_Z a)%Q as Qa1
    by (rewrite pow2_inject by lia; by rewrite <- Zle_Qle).
  assert (inject_Z a < pow2 (la + 1))%Q as Qa2
    by (rewrite pow2_inject by lia; rewrite <- Zlt_Qlt; lia).
  assert (pow2 lb <= inject_Z (Zpos b))%Q as Qb1
    by (rewrite pow2_inject by lia; by rewrite <- Zle_Qle).
  assert (inject_Z (Zpos b) < pow2 (lb + 1))%Q as Qb2
    by (rewrite pow2_inject by lia; rewrite <- Zlt_Qlt; lia).
  assert (0 < inject_Z (Zpos b))%Q as Hb by done.
  assert (Qabs (a # b) == a # b)%Q as Habs
    by (apply Qabs_pos; by apply Qlt_le_weak).
  pose proof (Qmake_Qdiv a b) as Hdiv.
  assert (∀ e, (inject_Z a < pow2 e * inject_Z (Zpos b))%Q →
               (a # b < pow2 e)%Q) as Hupper
    by (intros e He; rewrite Hdiv; by apply Qlt_shift_div_r).
  assert (∀ e, (pow2 e * inject_Z (Zpos b) <= inject_Z a)%Q →
               (pow2 e <= a # b)%Q) as Hlower
    by (intros e He; rewrite Hdiv; by apply Qle_shift_div_l).
  pose proof (pow2_pos (la - lb + 1)) as Hp1.
  pose proof (pow2_pos (la - lb - 1)) as Hp2.
  pose proof (pow2_add (la - lb + 1) lb) as Hs1.
  replace (la - lb + 1 + lb) with (la + 1) in Hs1 by lia.
  pose proof (pow2_add (la - lb - 1) (lb + 1)) as Hs2.
  replace (la - lb - 1 + (lb + 1)) with la in Hs2 by lia.
  destruct (Qle_bool (pow2 (la - lb)) (Qabs (a # b))) eqn:E.
  - apply Qle_bool_iff in E. rewrite Habs in E. split; [done|]. apply Hupper.
    revert Qa2 Qb1 Hp1 Hs1.
    generalize (pow2 (la - lb + 1)), (pow2 lb), (pow2 (la + 1)),
      (inject_Z a), (inject_Z (Zpos b)).
    intros; nra.
  - assert (a # b < pow2 (la - lb))%Q as Hlt.
    { apply Qnot_le_lt. intros Hle. rewrite <- Habs in Hle.
      apply Qle_bool_iff in Hle. congruence. }
    replace (la - lb - 1 + 1) with (la - lb) by lia. split; [|done].
    apply Hlower.
    revert Qa1 Qb2 Hp2 Hs2.
    generalize (pow2 (la - lb - 1)), (pow2 (lb + 1)), (pow2 la),
      (inject_Z a), (inject_Z (Zpos b)).
    intros; nra.
Qed.

Lemma ilog2_mono (q1 q2 : Q) :
  (0 < q1)%Q → (q1 <= q2)%Q → ilog2 q1 <= ilog2 q2.
Proof.
  intros H1 H12.
  destruct (ilog2_spec q1 H1) as [Hl1 _].
  destruct (ilog2_spec q2 ltac:(lra)) as [_ Hu2].
  destruct (Z_le_gt_dec (ilog2 q1) (ilog2 q2)) as [|Hgt]; [done|]. exfalso.
  pose proof (pow2_le (ilog2 q2 + 1) (ilog2 q1) ltac:(lia)). lra.
Qed.

Lemma round_positive (q : Q) :
  (0 < q)%Q →
  round q = (inject_Z (rint (q / pow2 (ulp q))) * pow2 (ulp q))%Q.
Proof.
  intros Hq. unfold round. destruct (Qeq_bool q 0) eqn:E; [|done].
  apply Qeq_bool_iff in E. lra.
Qed.

Lemma round_zero (q : Q) : (q == 0)%Q → round q = 0%Q.
Proof.
  intros Hq. unfold round.
  by assert (Qeq_bool q 0 = true) as -> by (by apply Qeq_bool_iff).
Qed.

(** An integer below or above the scaled number bounds its rounding. *)
Lemma rint_le_integer (x : Q) (n : Z) : (x <= inject_Z n)%Q → rint x <= n.
Proof. intros H. rewrite <- (rint_integer n). by apply rint_mono. Qed.

Lemma rint_ge_integer (x : Q) (n : Z) : (inject_Z n <= x)%Q → n <= rint x.
Proof. intros H. rewrite <- (rint_integer n). by apply rint_mono. Qed.

Lemma scaled_le (x y : Q) (e : Z) :
  (x <= y)%Q → (x / pow2 e <= y / pow2 e)%Q.
Proof.
  intros H. pose proof (pow2_pos e) as He. unfold Qdiv.
  apply Qmult_le_compat_r; [done|]. apply Qinv_le_0_compat. lra.
Qed.

Lemma round_nonneg (q : Q) : (0 <= q)%Q → (0 <= round q)%Q.
Proof.
  intros Hq. destruct (Qeq_dec q 0) as [H0|Hne]; [by rewrite round_zero|].
  assert (0 < q)%Q as Hpos by (apply Qle_lteq in Hq as [?|Heq]; [done|]; by destruct Hne).
  rewrite round_positive by done.
  pose proof (pow2_pos (ulp q)) as He.
  assert (0 <= rint (q / pow2 (ulp q))) as Hn.
  { apply rint_ge_integer. apply Qle_shift_div_l; [done|].
    change (inject_Z 0) with 0%Q. lra. }
  apply Qmult_le_0_compat; [|lra]. change 0%Q with (inject_Z 0).
  by rewrite <- Zle_Qle.
Qed.

(** Rounding is monotone (on the numbers that are not negative). *)
Lemma round_mono (q1 q2 : Q) :
  (0 <= q1)%Q → (q1 <= q2)%Q → (round q1 <= round q2)%Q.
Proof.
  intros H1 H12.
  destruct (Qeq_dec q1 0) as [H0|Hne].
  { rewrite (round_zero q1) by done. apply round_nonneg. lra. }
  assert (0 < q1)%Q as Hpos1
    by (apply Qle_lteq in H1 as [?|Heq]; [done|]; by destruct Hne).
  assert (0 < q2)%Q as Hpos2 by lra.
  rewrite !round_positive by done.
  pose proof (ilog2_mono q1 q2 Hpos1 H12) as Hk.
  destruct (ilog2_spec q1 Hpos1) as [Hl1 Hu1].
  destruct (ilog2_spec q2 Hpos2) as [Hl2 Hu2].
  set (k1 := ilog2 q1) in *. set (k2 := ilog2 q2) in *.
  unfold ulp. fold k1 k2.
  set (e1 := Z.max (k1 - 52) (-1074)). set (e2 := Z.max (k2 - 52) (-1074)).
  pose proof (pow2_pos e1) as He1. pose proof (pow2_pos e2) as He2.
  destruct (Z.eq_dec e1 e2) as [Heq|Hne12].
  - rewrite <- Heq. apply Qmult_le_compat_r; [|lra].
    rewrite <- Zle_Qle. by apply rint_mono, scaled_le.
  - assert (k1 < k2 ∧ e2 = k2 - 52 ∧ e1 < e2) as (Hlt & He2k & He12) by lia.
    (* round q1 <= 2^(max (k1+1) e1) <= 2^k2 <= round q2 *)
    set (u := Z.max (k1 + 1 - e1) 0).
    assert (rint (q1 / pow2 e1) <= 2 ^ u) as Hup.
    { apply rint_le_integer. rewrite <- pow2_inject by lia.
      apply Qle_shift_div_r; [done|]. rewrite <- pow2_add.
      pose proof (pow2_le (k1 + 1) (u + e1) ltac:(lia)). lra. }
    assert (2 ^ 52 <= rint (q2 / pow2 e2)) as Hdown.
    { apply rint_ge_integer. rewrite <- pow2_inject by lia.
      apply Qle_shift_div_l; [done|]. rewrite <- pow2_add.
      replace (52 + e2) with k2 by lia. done. }
    apply Qle_trans with (pow2 k2).
    + apply Qle_trans with (inject_Z (2 ^ u) * pow2 e1)%Q.
      * apply Qmult_le_compat_r; [|lra]. by rewrite <- Zle_Qle.
      * rewrite <- pow2_inject by lia. rewrite <- pow2_add.
        apply pow2_le. lia.
    + apply Qle_trans with (inject_Z (2 ^ 52) * pow2 e2)%Q.
      * rewrite <- pow2_inject by lia. rewrite <- pow2_add.
        apply pow2_le. lia.
      * apply Qmult_le_compat_r; [|lra]. by rewrite <- Zle_Qle.
Qed.

Lemma round_Qeq (q1 q2 : Q) :
  (0 <= q1)%Q → (q1 == q2)%Q → (round q1 == round q2)%Q.
Proof.
  intros H1 Heq. apply Qle_antisym; apply round_mono; lra.
Qed.

Lemma rint_error (x : Q) :
  (x - (1 # 2) <= inject_Z (rint x) <= x + (1 # 2))%Q.
Proof.
  unfold rint.
  pose proof (Qfloor_le x) as Hlow. pose proof (Qlt_floor x) as Hup.
  rewrite inject_Z_plus in Hup. change (inject_Z 1) with 1%Q in Hup.
  destruct (x - inject_Z (Qfloor x) ?= 1 # 2)%Q eqn:E;
    (first [apply Qeq_alt in E | apply Qlt_alt in E | apply Qgt_alt in E]);
    try destruct (Z.even (Qfloor x));
    rewrite ?inject_Z_plus; change (inject_Z 1) with 1%Q;
    revert Hlow Hup E; generalize (inject_Z (Qfloor x)); intros f Hlow Hup E;
    lra.
Qed.

(** Rounding a number below 2 changes it by at most [eps]. *)
Lemma round_error (q : Q) :
  (0 <= q)%Q → (q < 2)%Q → (q - eps <= round q <= q + eps)%Q.
Proof.
  intros H0 H2. destruct (Qeq_dec q 0) as [Hz|Hne].
  { rewrite round_zero by done. unfold eps. lra. }
  assert (0 < q)%Q as Hpos
    by (apply Qle_lteq in H0 as [?|Heq]; [done|]; by destruct Hne).
  rewrite round_positive by done.
  destruct (ilog2_spec q Hpos) as [Hl _].
  assert (ilog2 q <= 0) as Hk.
  { destruct (Z_le_gt_dec (ilog2 q) 0) as [|Hgt]; [done|]. exfalso.
    pose proof (pow2_le 1 (ilog2 q) ltac:(lia)) as Hle.
    change (pow2 1) with 2%Q in Hle. lra. }
  assert (ulp q <= -52) as He by (unfold ulp; lia).
  pose proof (pow2_le (ulp q) (-52) He) as Hp.
  pose proof (pow2_pos (ulp q)) as Hp0.
  assert (pow2 (-52) == 2 * eps)%Q as Heps by reflexivity.
  pose proof (rint_error (q / pow2 (ulp q))) as [Hr1 Hr2].
  assert (q / pow2 (ulp q) * pow2 (ulp q) == q)%Q as Hscale by (field; lra).
  revert Hr1 Hr2 Hscale Hp Hp0 Heps.
  generalize (inject_Z (rint (q / pow2 (ulp q)))), (q / pow2 (ulp q))%Q,
    (pow2 (ulp q)), (pow2 (-52)).
  intros n x P P52 Hr1 Hr2 Hscale Hp Hp0 Heps. unfold eps in *. nra.
Qed.

(** Rounding a number below 16 changes it by at most [8 * eps]. *)
Lemma round_error_16 (q : Q) :
  (0 <= q)%Q → (q < 16)%Q → (q - 8 * eps <= round q <= q + 8 * eps)%Q.
Proof.
  intros H0 H2. destruct (Qeq_dec q 0) as [Hz|Hne].
  { rewrite round_zero by done. unfold eps. lra. }
  assert (0 < q)%Q as Hpos
    by (apply Qle_lteq in H0 as [?|Heq]; [done|]; by destruct Hne).
  rewrite round_positive by done.
  destruct (ilog2_spec q Hpos) as [Hl _].
  assert (ilog2 q <= 3) as Hk.
  { destruct (Z_le_gt_dec (ilog2 q) 3) as [|Hgt]; [done|]. exfalso.
    pose proof (pow2_le 4 (ilog2 q) ltac:(lia)) as Hle.
    change (pow2 4) with 16%Q in Hle. lra. }
  assert (ulp q <= -49) as He by (unfold ulp; lia).
  pose proof (pow2_le (ulp q) (-49) He) as Hp.
  pose proof (pow2_pos (ulp q)) as Hp0.
  assert (pow2 (-49) == 16 * eps)%Q as Heps by reflexivity.
  pose proof (rint_error (q / pow2 (ulp q))) as [Hr1 Hr2].
  assert (q / pow2 (ulp q) * pow2 (ulp q) == q)%Q as Hscale by (field; lra).
  revert Hr1 Hr2 Hscale Hp Hp0 Heps.
  generalize (inject_Z (rint (q / pow2 (ulp q)))), (q / pow2 (ulp q))%Q,
    (pow2 (ulp q)), (pow2 (-49)).
  intros n x P P49 Hr1 Hr2 Hscale Hp Hp0 Heps. unfold eps in *. nra.
Qed.

(** The Numbers [0.7] and [0.3]. *)
Lemma number_07 : Double.number (7 # 10) = 6305039478318694 # 9007199254740992.
Proof. vm_compute. reflexivity. Qed.

Lemma number_03 : Double.number (3 # 10) = 5404319552844595 # 18014398509481984.
Proof. vm_compute. reflexivity. Qed.

Lemma round_10 : (round 10 == 10)%Q.
Proof. vm_compute. reflexivity. Qed.

Lemma round_1 : (round 1 == 1)%Q.
Proof. vm_compute. reflexivity. Qed.

Lemma number_03_fixed : (round (number (3 # 10)) == number (3 # 10))%Q.
Proof. vm_compute. reflexivity. Qed.

Lemma number_03_nonneg : (0 <= number (3 # 10))%Q.
Proof. apply round_nonneg. lra. Qed.

End DoubleFacts.

(** ** Running the preference store *)

Lemma getUserPreferences_run (env : Env) (w : World) :
  getUserPreferences env w =
  (w, inr (if getItem_fails env then defaultPreferences
           else default defaultPreferences (asyncStorage w))).
Proof.
  unfold getUserPreferences, getStorageItem, try_catch, bind, AsyncStorage_getItem.
  destruct (getItem_fails env); simpl; [done|].
  by destruct (asyncStorage w).
Qed.

Lemma getGenrePreferences_run (env : Env) (w : World) :
  getGenrePreferences env w = (w, inr (readGenres env w)).
Proof.
  unfold getGenrePreferences, try_catch, bind.
  rewrite getUserPreferences_run. unfold readGenres, storedGenres, ret.
  destruct (getItem_fails env); [done|]. by destruct (asyncStorage w).
Qed.

Lemma hasUserPreferences_run (env : Env) (w : World) :
  hasUserPreferences env w = (w, inr (Nat.leb 3 (length (readGenres env w)))).
Proof.
  unfold hasUserPreferences, try_catch, bind.
  by rewrite getGenrePreferences_run.
Qed.

Lemma setGenrePreferences_run (env : Env) (genreIds : list Z) (w : World) :
  getItem_fails env = false → setItem_fails env = false →
  setGenrePreferences env genreIds w =
  (with_asyncStorage
     (Some (spread (default defaultPreferences (asyncStorage w))
                   (only_favoriteGenres genreIds))) w,
   inr true).
Proof.
  intros Hget Hset.
  unfold setGenrePreferences, updateUserPreferences, try_catch, bind.
  rewrite getUserPreferences_run, Hget.
  unfold setStorageItem, try_catch, AsyncStorage_setItem. by rewrite Hset.
Qed.

(** The preference store never touches the recommendation caches. *)
Lemma setGenrePreferences_caches (env : Env) (genreIds : list Z) (w : World) :
  let w' := final (setGenrePreferences env genreIds) w in
  generalCache w' = generalCache w ∧ personalizedCache w' = personalizedCache w.
Proof.
  unfold final, setGenrePreferences, updateUserPreferences, try_catch, bind.
  rewrite getUserPreferences_run.
  unfold setStorageItem, try_catch, AsyncStorage_setItem.
  by destruct (setItem_fails env).
Qed.

(** ** Adding a genre preference *)

Lemma setGenrePreferences_write_fails (env : Env) (genreIds : list Z) (w : World) :
  setItem_fails env = true →
  setGenrePreferences env genreIds w = (w, inr false).
Proof.
  intros Hset.
  unfold setGenrePreferences, updateUserPreferences, try_catch, bind.
  rewrite getUserPreferences_run.
  unfold setStorageItem, try_catch, AsyncStorage_setItem. by rewrite Hset.
Qed.

(** C10, as claimed: the stored list is not always kept or extended.  When
    the read of the store fails, the stored genres are taken to be none:
    adding 28 to the stored list 28, 12, 16 -- of which it is a member --
    replaces the list by 28 alone.  When the write fails, adding 16 to the
    stored list 28, 12 stores nothing, and [false] is returned. *)
Lemma addGenrePreference_with_failing_storage :
  let unreadable := {| movie_results := fun _ => inl UpstreamError;
                       tv_results := fun _ => inl UpstreamError; latency := 0;
                       getItem_fails := true; setItem_fails := false |} in
  let unwritable := {| movie_results := fun _ => inl UpstreamError;
                       tv_results := fun _ => inl UpstreamError; latency := 0;
                       getItem_fails := false; setItem_fails := true |} in
  (28 ∈ storedGenres (Fixture.started [28; 12; 16])
   ∧ storedGenres (final (addGenrePreference unreadable 28)
                         (Fixture.started [28; 12; 16])) = [28]
   ∧ final (addGenrePreference unreadable 28) (Fixture.started [28; 12; 16])
     ≠ Fixture.started [28; 12; 16])
  ∧ ((16 ∉ storedGenres (Fixture.started [28; 12]))
     ∧ result (addGenrePreference unwritable 16) (Fixture.started [28; 12])
       = inr false
     ∧ storedGenres (final (addGenrePreference unwritable 16)
                           (Fixture.started [28; 12])) = [28; 12]
     ∧ storedGenres (final (addGenrePreference unwritable 16)
                           (Fixture.started [28; 12])) ≠ [28; 12] ++ [16]).
Proof.
  intros unreadable unwritable. split; [split; [|split]|split; [|split; [|split]]].
  - simpl. by left.
  - vm_compute. reflexivity.
  - intros H. apply (f_equal storedGenres) in H. vm_compute in H. discriminate H.
  - simpl. intros Hin. apply includes_elem_of in Hin. discriminate Hin.
  - vm_compute. reflexivity.
  - vm_compute. reflexivity.
  - intros H. vm_compute in H. discriminate H.
Qed.

(** C10, as the code has it.  Let the read of the store succeed.
    [addGenrePreference g] leaves the whole state unchanged when [g] is
    already among the stored genres.  Otherwise, when the write succeeds,
    the stored list becomes the old list with [g] appended at its end, and
    when the write fails the function answers [false] and the state is
    unchanged.  In every case the old list is a prefix of the new one, and
    once two genres are stored the first two -- the ones the "Best ..."
    categories are built from -- do not change. *)
Theorem addGenrePreference_appends (env : Env) (w : World) (genreId : Z) :
  getItem_fails env = false →
  let P := storedGenres w in
  let w' := final (addGenrePreference env genreId) w in
  (genreId ∈ P →
   result (addGenrePreference env genreId) w = inr true ∧ w' = w)
  ∧ (genreId ∉ P → setItem_fails env = false →
     result (addGenrePreference env genreId) w = inr true
     ∧ storedGenres w' = P ++ [genreId])
  ∧ (genreId ∉ P → setItem_fails env = true →
     result (addGenrePreference env genreId) w = inr false ∧ w' = w)
  ∧ P `prefix_of` storedGenres w'
  ∧ ((2 ≤ length P)%nat → JS.slice0 2 (storedGenres w') = JS.slice0 2 P).
Proof.
  intros Hget P w'. subst w'.
  unfold result, final, addGenrePreference, try_catch, bind.
  rewrite getGenrePreferences_run. unfold readGenres. rewrite Hget.
  fold P. destruct (JS.includes P genreId) eqn:Hin; simpl.
  - apply includes_elem_of in Hin.
    repeat split; done.
  - assert (genreId ∉ P) as Hnot.
    { intros Hm%includes_elem_of. congruence. }
    destruct (setItem_fails env) eqn:Hset.
    + rewrite setGenrePreferences_write_fails by done. simpl.
      repeat split; done.
    + rewrite setGenrePreferences_run by done. simpl.
      repeat split; try done.
      * by apply prefix_app_r.
      * intros Hlen. change (take 2 (P ++ [genreId]) = take 2 P).
        by apply take_app_le.
Qed.

Lemma addGenrePreference_appends_witness :
  let env := {| movie_results := fun _ => inl UpstreamError;
                tv_results := fun _ => inl UpstreamError;
                latency := 0; getItem_fails := false; setItem_fails := false |} in
  let w := {| generalCache := emptyCache; personalizedCache := emptyCache;
              asyncStorage :=
                Some (spread defaultPreferences (only_favoriteGenres [28; 12]));
              clock := 0; network := [] |} in
  storedGenres (final (addGenrePreference env 16) w) = [28; 12; 16].
Proof.
  intros env w.
  destruct (addGenrePreference_appends env w 16 eq_refl)
    as (_ & Happend & _).
  destruct Happend as [_ Hstored]; [|reflexivity|exact Hstored].
  simpl. intros Hin. apply includes_elem_of in Hin. discriminate Hin.
Defined.

(** ** Completion status *)

Lemma len_nonneg {A} (l : list A) : (0 <= len l)%Q.
Proof.
  unfold len. change 0%Q with (inject_Z 0). rewrite <- Zle_Qle. lia.
Qed.

Lemma len_le {A B} (l : list A) (k : list B) :
  (length l ≤ length k)%nat → (len l <= len k)%Q.
Proof. intros H. unfold len. rewrite <- Zle_Qle. lia. Qed.

Lemma len_pos {A} (l : list A) : l ≠ [] → (0 < len l)%Q.
Proof.
  intros Hl. unfold len. change 0%Q with (inject_Z 0). rewrite <- Zlt_Qlt.
  destruct l; [done | simpl; lia].
Qed.

Lemma third (q : Q) : (q / 3 == q * (1 # 3))%Q.
Proof. reflexivity. Qed.

(** C9, as the code has it.  [getGenreCompletionStatus] never throws;
    [isComplete] holds exactly when at least three genres are read from the
    store; [coverage] is the fraction [min(count / 3, 1)]: it is 1 from
    three genres on and [count / 3] below. *)
Theorem completion_status_fraction (genresData : GenresData) (env : Env) (w : World) :
  ∃ status,
    result (getGenreCompletionStatus genresData env) w = inr status
    ∧ (isComplete status = true ↔ (3 ≤ length (readGenres env w))%nat)
    ∧ ((3 ≤ length (readGenres env w))%nat → (coverage status == 1)%Q)
    ∧ ((length (readGenres env w) < 3)%nat →
       (coverage status == len (readGenres env w) / 3)%Q).
Proof.
  unfold result, getGenreCompletionStatus, try_catch, bind.
  rewrite getGenrePreferences_run. unfold ret.
  set (P := readGenres env w). eexists. split; [reflexivity|].
  cbn [isComplete coverage].
  split; [apply Nat.leb_le|].
  unfold Math_min.
  destruct (Qle_bool (len P / 3) 1) eqn:E.
  - apply Qle_bool_iff in E. split; [|done].
    intros H3. assert (3 <= len P)%Q as Hq.
    { unfold len. change 3%Q with (inject_Z 3). rewrite <- Zle_Qle. lia. }
    rewrite third in *. lra.
  - split; [done|]. intros Hlt. exfalso.
    assert (len P <= 3)%Q as Hq.
    { unfold len. change 3%Q with (inject_Z 3). rewrite <- Zle_Qle. lia. }
    assert (Qle_bool (len P / 3) 1 = true); [|congruence].
    apply Qle_bool_iff. rewrite third. lra.
Qed.

(** C9, as claimed: with the three genres 28, 12 and 16 stored, the reported
    coverage is 1, not 100. *)
Lemma coverage_is_not_a_percentage :
  ∃ status,
    result (getGenreCompletionStatus Fixture.table Fixture.offline)
           (Fixture.started [28; 12; 16]) = inr status
    ∧ isComplete status = true
    ∧ (coverage status == 1)%Q
    ∧ ¬ (coverage status == 100)%Q.
Proof.
  eexists. split; [vm_compute; reflexivity|].
  split; [reflexivity|]. split; [reflexivity|].
  intros H. vm_compute in H. discriminate H.
Qed.

Lemma completion_status_fraction_witness :
  ∃ status,
    result (getGenreCompletionStatus Fixture.table Fixture.offline)
           (Fixture.started [28; 12]) = inr status
    ∧ isComplete status = false
    ∧ (coverage status == 2 # 3)%Q.
Proof.
  destruct (completion_status_fraction Fixture.table Fixture.offline
              (Fixture.started [28; 12])) as (status & Hrun & Hc & _ & Hlt).
  exists status. split; [exact Hrun|]. split.
  - destruct (isComplete status); [|done].
    destruct Hc as [Hc _]. specialize (Hc eq_refl). vm_compute in Hc. lia.
  - rewrite Hlt; [reflexivity|]. vm_compute. lia.
Defined.

(** ** The genre match score *)

Lemma NoDup_List_filter {A} (f : A → bool) (l : list A) :
  NoDup l → NoDup (List.filter f l).
Proof.
  rewrite !NoDup_ListNoDup. apply List.NoDup_filter.
Qed.

Lemma matching_length_size (P G : list Z) :
  NoDup G →
  length (List.filter (fun id => JS.includes P id) G)
  = size (list_to_set P ∩ list_to_set G : gset Z).
Proof.
  intros HG.
  rewrite <- (size_list_to_set (C := gset Z)
                (List.filter (fun id => JS.includes P id) G))
    by (by apply NoDup_List_filter).
  f_equal. apply set_eq. intros x.
  rewrite elem_of_intersection, !elem_of_list_to_set.
  rewrite !list_elem_of_In, filter_In, includes_elem_of, list_elem_of_In.
  tauto.
Qed.

Lemma matching_le_content (P G : list Z) :
  (length (List.filter (fun id => JS.includes P id) G) ≤ length G)%nat.
Proof. apply List.filter_length_le. Qed.

Lemma matching_le_preferences (P G : list Z) :
  NoDup G →
  (length (List.filter (fun id => JS.includes P id) G) ≤ length P)%nat.
Proof.
  intros HG. apply submseteq_length, NoDup_submseteq.
  - by apply NoDup_List_filter.
  - intros x Hx. apply list_elem_of_In, filter_In in Hx as [_ Hx].
    by apply includes_elem_of in Hx.
Qed.

Lemma ratio_bounds (m d : Q) :
  (0 <= m)%Q → (m <= d)%Q → (0 < d)%Q → (0 <= m / d)%Q ∧ (m / d <= 1)%Q.
Proof.
  intros H0 Hle Hd. split.
  - apply Qle_shift_div_l; [done|]. lra.
  - apply Qle_shift_div_r; [done|]. lra.
Qed.

Lemma ratio_mono (m m' d : Q) :
  (m <= m')%Q → (0 < d)%Q → (m / d <= m' / d)%Q.
Proof.
  intros Hle Hd. unfold Qdiv. apply Qmult_le_compat_r; [done|].
  apply Qinv_le_0_compat. lra.
Qed.

Lemma getGenreMatchScore_run (env : Env) (G : list Z) (w : World) :
  getGenreMatchScore env G w = (w, inr (scoreOf (readGenres env w) G)).
Proof.
  unfold getGenreMatchScore, try_catch, bind.
  rewrite getGenrePreferences_run. unfold scoreOf.
  by destruct (Nat.eqb (length (readGenres env w)) 0 || Nat.eqb (length G) 0)%bool.
Qed.

Lemma scoreOf_empty (P G : list Z) : P = [] ∨ G = [] → scoreOf P G = 0%Q.
Proof.
  unfold scoreOf. intros [-> | ->]; simpl; [done|].
  by rewrite orb_true_r.
Qed.

Lemma scoreOf_formula (P G : list Z) :
  NoDup G → P ≠ [] → G ≠ [] →
  (scoreOf P G
   == (7 # 10) * (common P G / len P) + (3 # 10) * (common P G / len G))%Q.
Proof.
  intros HG HP HG0. unfold scoreOf, common.
  rewrite <- matching_length_size by done. fold (len (List.filter (fun id => JS.includes P id) G)).
  destruct P; [done|]. destruct G; [done|]. simpl orb. cbv iota.
  unfold Qdiv. ring.
Qed.

Lemma scoreOf_range (P G : list Z) :
  NoDup G → P ≠ [] → G ≠ [] → (0 <= scoreOf P G <= 1)%Q.
Proof.
  intros HG HP HG0. unfold scoreOf.
  destruct (Nat.eqb (length P) 0 || Nat.eqb (length G) 0)%bool; [lra|].
  set (matching := List.filter (fun id => JS.includes P id) G).
  destruct (ratio_bounds (len matching) (len P)) as [? ?];
    [apply len_nonneg | apply len_le, matching_le_preferences; done
     | by apply len_pos |].
  destruct (ratio_bounds (len matching) (len G)) as [? ?];
    [apply len_nonneg | apply len_le, matching_le_content | by apply len_pos |].
  cbv zeta.
  set (a := (len matching / len P)%Q) in *.
  set (b := (len matching / len G)%Q) in *.
  lra.
Qed.

Lemma scoreOf_mono (P G P' G' : list Z) :
  NoDup G → NoDup G' →
  length P' = length P → length G' = length G →
  (common P G <= common P' G')%Q →
  (scoreOf P G <= scoreOf P' G')%Q.
Proof.
  intros HG HG' HlP HlG Hcommon. unfold scoreOf, common in *.
  rewrite <- !matching_length_size in Hcommon by done.
  rewrite HlP, HlG.
  destruct (Nat.eqb (length P) 0 || Nat.eqb (length G) 0)%bool eqn:E; [lra|].
  apply orb_false_elim in E as [EP EG].
  apply Nat.eqb_neq in EP, EG.
  assert (len P' == len P)%Q as HqP by (unfold len; by rewrite HlP).
  assert (len G' == len G)%Q as HqG by (unfold len; by rewrite HlG).
  assert (0 < len P)%Q by (apply len_pos; by destruct P).
  assert (0 < len G)%Q by (apply len_pos; by destruct G).
  cbv zeta. rewrite HqP, HqG.
  set (m := List.filter (fun id => JS.includes P id) G) in *.
  set (m' := List.filter (fun id => JS.includes P' id) G') in *.
  fold (len m) in Hcommon. fold (len m') in Hcommon.
  pose proof (ratio_mono (len m) (len m') (len P) Hcommon ltac:(done)).
  pose proof (ratio_mono (len m) (len m') (len G) Hcommon ltac:(done)).
  set (a := (len m / len P)%Q) in *. set (a' := (len m' / len P)%Q) in *.
  set (b := (len m / len G)%Q) in *. set (b' := (len m' / len G)%Q) in *.
  lra.
Qed.

(** C4, as claimed: an item genre list that repeats an identifier gets a
    score above 1 (with the preference 28 and the list 28, 28, the score is
    2/1 * 0.7 + 2/2 * 0.3 = 1.7). *)
Lemma repeated_item_genre_scores_above_one :
  ∃ s,
    result (getGenreMatchScore Fixture.offline [28; 28]) (Fixture.started [28])
    = inr s
    ∧ (s == 17 # 10)%Q
    ∧ ¬ (s <= 1)%Q.
Proof.
  eexists. split; [vm_compute; reflexivity|]. split; [reflexivity|].
  intros H. vm_compute in H. by apply H.
Qed.

(** C4, as the code has it.  For the preferences [P] that
    [getGenrePreferences] reads and an item genre list [G] without repeated
    identifiers, [getGenreMatchScore] returns a score that is 0 when [P] or
    [G] is empty, and otherwise equals
    0.7 * (|P ∩ G| / |P|) + 0.3 * (|P ∩ G| / |G|) and lies between 0 and 1;
    between two calls with the same |P| and the same |G| the score does not
    decrease when |P ∩ G| does not decrease. *)
Theorem genre_match_score (env : Env) (w : World) (G : list Z) :
  NoDup G →
  let P := readGenres env w in
  ∃ s,
    result (getGenreMatchScore env G) w = inr s
    ∧ (P = [] ∨ G = [] → s = 0%Q)
    ∧ (P ≠ [] → G ≠ [] →
       (s == (7 # 10) * (common P G / len P) + (3 # 10) * (common P G / len G))%Q
       ∧ (0 <= s <= 1)%Q)
    ∧ (∀ env' w' G' s',
         NoDup G' →
         result (getGenreMatchScore env' G') w' = inr s' →
         length (readGenres env' w') = length P →
         length G' = length G →
         (common P G <= common (readGenres env' w') G')%Q →
         (s <= s')%Q).
Proof.
  intros HG P. exists (scoreOf P G).
  unfold result. rewrite getGenreMatchScore_run.
  split; [done|]. split; [apply scoreOf_empty|]. split.
  - intros HP HG0. split; [by apply scoreOf_formula | by apply scoreOf_range].
  - intros env' w' G' s' HG' Hrun HlP HlG Hcommon.
    rewrite getGenreMatchScore_run in Hrun. simpl in Hrun.
    injection Hrun as <-. by apply scoreOf_mono.
Qed.

Lemma genre_match_score_witness :
  ∃ s,
    result (getGenreMatchScore Fixture.offline [28; 35])
           (Fixture.started [28; 12; 16]) = inr s
    ∧ (s == 23 # 60)%Q.
Proof.
  assert (NoDup [28; 35]) as HG by compute_done.
  destruct (genre_match_score Fixture.offline (Fixture.started [28; 12; 16])
              [28; 35] HG) as (s & Hrun & _ & Hvalue & _).
  exists s. split; [exact Hrun|].
  destruct Hvalue as [Heq _]; [discriminate | discriminate |].
  rewrite Heq. vm_compute. reflexivity.
Defined.

(** ** The merged pools *)

Lemma uniqueMovies_uniqueBy (allMovies : list Movie) :
  uniqueMovies allMovies = uniqueBy movie_id allMovies.
Proof. reflexivity. Qed.

Lemma uniqueTVShows_uniqueBy (allTVShows : list TVShow) :
  uniqueTVShows allTVShows = uniqueBy tv_id allTVShows.
Proof. reflexivity. Qed.

Lemma identity_movies (l : list Movie) :
  map identity (map IsMovie l) = map (fun i => (i, movie)) (map movie_id l).
Proof. rewrite !map_map. done. Qed.

Lemma identity_shows (l : list TVShow) :
  map identity (map IsTVShow l) = map (fun i => (i, tv)) (map tv_id l).
Proof. rewrite !map_map. done. Qed.

(** A movie and a series with the same numeric identifier are both kept. *)
Example merged_pool_keeps_both_media_types :
  map identity
    (map IsMovie (uniqueMovies [Fixture.heat; Fixture.up; Fixture.heat])
     ++ map IsTVShow (uniqueTVShows [Fixture.twin; Fixture.arcane; Fixture.twin]))
  = [(949, movie); (14160, movie); (949, tv); (94605, tv)].
Proof. vm_compute. reflexivity. Qed.

(** ** Running the pool functions *)

Ltac run_pool :=
  unfold bind, Date_now, get, try_catch, Promise_all, update, modify, ret;
  cbn beta iota.

Lemma getMoviesFromAPI_hit (env : Env) (userGenres : list Z) (w : World) :
  servesMovies userGenres w = true →
  getMoviesFromAPI env userGenres w
  = (w, inr (movies (deref (getCache userGenres) w))).
Proof.
  unfold servesMovies, getMoviesFromAPI. run_pool. by intros ->.
Qed.

Lemma getMoviesFromAPI_miss (env : Env) (userGenres : list Z) (w : World) :
  servesMovies userGenres w = false →
  getMoviesFromAPI env userGenres w
  = match settle (movie_results env) (moviePromises userGenres) with
    | inr pages =>
        (stored userGenres (moviePromises userGenres) env
           (with_movies (uniqueMovies (concat pages))) w,
         inr (uniqueMovies (concat pages)))
    | inl _ =>
        (sent (moviePromises userGenres) (latency env) w,
         inr (movies (deref (getCache userGenres) w)))
    end.
Proof.
  unfold servesMovies, getMoviesFromAPI. run_pool. intros ->.
  destruct (settle (movie_results env) (moviePromises userGenres)); cbn beta iota.
  - by destruct (getCache userGenres).
  - unfold stored. by destruct (getCache userGenres).
Qed.

Lemma getTVShowsFromAPI_hit (env : Env) (userGenres : list Z) (w : World) :
  servesTVShows userGenres w = true →
  getTVShowsFromAPI env userGenres w
  = (w, inr (tvShows (deref (getCache userGenres) w))).
Proof.
  unfold servesTVShows, getTVShowsFromAPI. run_pool. by intros ->.
Qed.

Lemma getTVShowsFromAPI_miss (env : Env) (userGenres : list Z) (w : World) :
  servesTVShows userGenres w = false →
  getTVShowsFromAPI env userGenres w
  = match settle (tv_results env) (tvPromises userGenres) with
    | inr pages =>
        (stored userGenres (tvPromises userGenres) env
           (with_tvShows (uniqueTVShows (concat pages))) w,
         inr (uniqueTVShows (concat pages)))
    | inl _ =>
        (sent (tvPromises userGenres) (latency env) w,
         inr (tvShows (deref (getCache userGenres) w)))
    end.
Proof.
  unfold servesTVShows, getTVShowsFromAPI. run_pool. intros ->.
  destruct (settle (tv_results env) (tvPromises userGenres)); cbn beta iota.
  - by destruct (getCache userGenres).
  - unfold stored. by destruct (getCache userGenres).
Qed.

Lemma deref_later (cache : CacheRef) (dt : Z) (w : World) :
  deref cache (later dt w) = deref cache w.
Proof. by destruct cache. Qed.

Lemma deref_stored (userGenres : list Z) (reqs : list Request) (env : Env)
    (f : GenreCache → GenreCache) (w : World) :
  deref (getCache userGenres) (stored userGenres reqs env f w)
  = with_userGenres userGenres
      (with_lastUpdate (clock w) (f (deref (getCache userGenres) w))).
Proof. unfold stored. by destruct (getCache userGenres). Qed.

Lemma clock_stored (userGenres : list Z) (reqs : list Request) (env : Env)
    (f : GenreCache → GenreCache) (w : World) :
  clock (stored userGenres reqs env f w) = clock w + latency env.
Proof. unfold stored. by destruct (getCache userGenres). Qed.

(** The pool functions catch every exception. *)
Lemma getMoviesFromAPI_total (env : Env) (userGenres : list Z) (w : World) :
  ∃ w' pool, getMoviesFromAPI env userGenres w = (w', inr pool).
Proof.
  destruct (servesMovies userGenres w) eqn:E.
  - rewrite getMoviesFromAPI_hit by done. eauto.
  - rewrite getMoviesFromAPI_miss by done.
    destruct (settle _ _); eauto.
Qed.

Lemma getTVShowsFromAPI_total (env : Env) (userGenres : list Z) (w : World) :
  ∃ w' pool, getTVShowsFromAPI env userGenres w = (w', inr pool).
Proof.
  destruct (servesTVShows userGenres w) eqn:E.
  - rewrite getTVShowsFromAPI_hit by done. eauto.
  - rewrite getTVShowsFromAPI_miss by done.
    destruct (settle _ _); eauto.
Qed.

Lemma settle_rejects {A} (answer : Request → Exn + list A) (reqs : list Request) :
  (∃ r e, r ∈ reqs ∧ answer r = inl e) → ∃ e, settle answer reqs = inl e.
Proof.
  induction reqs as [|r0 reqs IH]; intros (r & e & Hr & Hfail).
  - by apply elem_of_nil in Hr.
  - simpl. destruct (answer r0) as [e0|page] eqn:E0; [eauto|].
    apply elem_of_cons in Hr as [->|Hr]; [congruence|].
    destruct IH as [e' ->]; eauto.
Qed.

Lemma settle_answers {A} (answer : Request → Exn + list A) (reqs : list Request)
    (pages : list (list A)) :
  Forall2 (fun request page => answer request = inr page) reqs pages →
  settle answer reqs = inr pages.
Proof.
  induction 1 as [|r page reqs pages Hr _ IH]; simpl; [done|].
  by rewrite Hr, IH.
Qed.

(** ** The merged pools of a round *)

(** C8.  Let a pool function run a round whose four requests are answered
    by the pages [pages], in the order of the requests.  The pool it
    returns and stores is made of the first item of every identifier in the
    concatenation of the four pages, in the order of the concatenation: no
    two items of the pool have the same identifier and media type, and of
    several items with one identifier the one standing first in the
    concatenation is the one kept.  When both pool functions run their
    round, no two items of the merged content have the same identifier and
    media type. *)
Theorem merged_pool_unique_first_wins (env : Env) (userGenres : list Z) (w : World) :
  (∀ pages,
     servesMovies userGenres w = false →
     Forall2 (fun request page => movie_results env request = inr page)
             (moviePromises userGenres) pages →
     ∃ pool,
       result (getMoviesFromAPI env userGenres) w = inr pool
       ∧ movies (deref (getCache userGenres)
                       (final (getMoviesFromAPI env userGenres) w)) = pool
       ∧ length pages = 4%nat
       ∧ NoDup (map identity (map IsMovie pool))
       ∧ firstOccurrences movie_id (concat pages) pool)
  ∧ (∀ pages,
       servesTVShows userGenres w = false →
       Forall2 (fun request page => tv_results env request = inr page)
               (tvPromises userGenres) pages →
       ∃ pool,
         result (getTVShowsFromAPI env userGenres) w = inr pool
         ∧ tvShows (deref (getCache userGenres)
                          (final (getTVShowsFromAPI env userGenres) w)) = pool
         ∧ length pages = 4%nat
         ∧ NoDup (map identity (map IsTVShow pool))
         ∧ firstOccurrences tv_id (concat pages) pool)
  ∧ (∀ moviePages tvPages,
       servesMovies userGenres w = false →
       Forall2 (fun request page => movie_results env request = inr page)
               (moviePromises userGenres) moviePages →
       servesTVShows userGenres (final (getMoviesFromAPI env userGenres) w) = false →
       Forall2 (fun request page => tv_results env request = inr page)
               (tvPromises userGenres) tvPages →
       pooledContent env userGenres w
       = map IsMovie (uniqueMovies (concat moviePages))
         ++ map IsTVShow (uniqueTVShows (concat tvPages))
       ∧ NoDup (map identity (pooledContent env userGenres w))).
Proof.
  assert (∀ l : list Movie, firstOccurrences movie_id l (uniqueMovies l)
                            ∧ NoDup (map identity (map IsMovie (uniqueMovies l))))
    as Hmovies.
  { intros l. rewrite uniqueMovies_uniqueBy. split; [apply uniqueBy_firstOccurrences|].
    rewrite identity_movies, uniqueBy_keepNew.
    apply (NoDup_fmap_2 (fun i => (i, movie))), keepNew_NoDup. }
  assert (∀ l : list TVShow, firstOccurrences tv_id l (uniqueTVShows l)
                             ∧ NoDup (map identity (map IsTVShow (uniqueTVShows l))))
    as Hshows.
  { intros l. rewrite uniqueTVShows_uniqueBy. split; [apply uniqueBy_firstOccurrences|].
    rewrite identity_shows, uniqueBy_keepNew.
    apply (NoDup_fmap_2 (fun i => (i, tv))), keepNew_NoDup. }
  split; [|split].
  - intros pages Hmiss Hpages. exists (uniqueMovies (concat pages)).
    unfold result, final. rewrite getMoviesFromAPI_miss by done.
    rewrite (settle_answers _ _ _ Hpages). cbn [fst snd].
    split; [done|]. split; [unfold stored; by destruct (getCache userGenres)|].
    split.
    { apply Forall2_length in Hpages. rewrite <- Hpages. unfold moviePromises.
      by destruct (Nat.ltb 0 (length userGenres)). }
    destruct (Hmovies (concat pages)). done.
  - intros pages Hmiss Hpages. exists (uniqueTVShows (concat pages)).
    unfold result, final. rewrite getTVShowsFromAPI_miss by done.
    rewrite (settle_answers _ _ _ Hpages). cbn [fst snd].
    split; [done|]. split; [unfold stored; by destruct (getCache userGenres)|].
    split.
    { apply Forall2_length in Hpages. rewrite <- Hpages. unfold tvPromises.
      by destruct (Nat.ltb 0 (length userGenres)). }
    destruct (Hshows (concat pages)). done.
  - intros moviePages tvPages Hmiss Hpages Hmiss' Hpages'.
    unfold pooledContent. unfold final in Hmiss'.
    rewrite getMoviesFromAPI_miss in Hmiss' |- * by done.
    rewrite (settle_answers _ _ _ Hpages) in Hmiss' |- *. cbn [fst] in Hmiss'.
    rewrite getTVShowsFromAPI_miss by done.
    rewrite (settle_answers _ _ _ Hpages'). split; [done|].
    rewrite map_app. apply NoDup_app. split; [apply Hmovies|]. split; [|apply Hshows].
    rewrite identity_movies, identity_shows.
    intros [i t] (? & [= -> ->] & _)%list_elem_of_fmap
                 (? & [=] & _)%list_elem_of_fmap.
Qed.

Lemma merged_pool_unique_first_wins_witness :
  result (getMoviesFromAPI Fixture.online [28; 12; 16]) (Fixture.started [28; 12; 16])
  = inr [Fixture.mad_max; Fixture.up; Fixture.heat]
  ∧ firstOccurrences movie_id
      (concat [[Fixture.mad_max; Fixture.up]; [Fixture.heat];
               [Fixture.up; Fixture.heat]; [Fixture.up; Fixture.heat]])
      [Fixture.mad_max; Fixture.up; Fixture.heat].
Proof.
  destruct (merged_pool_unique_first_wins Fixture.online [28; 12; 16]
              (Fixture.started [28; 12; 16])) as (Hmovies & _).
  destruct (Hmovies [[Fixture.mad_max; Fixture.up]; [Fixture.heat];
                     [Fixture.up; Fixture.heat]; [Fixture.up; Fixture.heat]])
    as (pool & Hrun & _ & _ & _ & Hfirst).
  - reflexivity.
  - repeat constructor.
  - vm_compute in Hrun. injection Hrun as <-. split; [reflexivity | exact Hfirst].
Defined.

(** ** A failing round *)

(** C2, as claimed: with nothing held and every request failing, the pool
    functions do not propagate the error; they return the empty list. *)
Lemma failure_without_entry_returns_empty_list :
  result (getMoviesFromAPI Fixture.offline [28; 12; 16])
         (Fixture.started [28; 12; 16]) = inr []
  ∧ ¬ throws (getMoviesFromAPI Fixture.offline [28; 12; 16])
             (Fixture.started [28; 12; 16])
  ∧ result (getTVShowsFromAPI Fixture.offline [])
           (Fixture.started []) = inr []
  ∧ ¬ throws (getTVShowsFromAPI Fixture.offline []) (Fixture.started []).
Proof.
  repeat split; try (vm_compute; reflexivity);
    intros [e He]; vm_compute in He; discriminate He.
Qed.

Lemma genresMatch_getCache (userGenres genres : list Z) :
  genresMatch userGenres genres = true → getCache genres = getCache userGenres.
Proof.
  unfold genresMatch, getCache.
  destruct (Nat.eqb (length userGenres) (length genres)) eqn:E; [|discriminate].
  apply Nat.eqb_eq in E. by rewrite E.
Qed.

(** What a call of a pool function leaves of the lists it may touch. *)
Lemma getMoviesFromAPI_keeps (env : Env) (genres : list Z) (w : World) :
  let w' := final (getMoviesFromAPI env genres) w in
  (∀ cache, tvShows (deref cache w') = tvShows (deref cache w))
  ∧ (∀ cache,
       servesMovies genres w = true
       ∨ (∃ e, settle (movie_results env) (moviePromises genres) = inl e)
       ∨ getCache genres ≠ cache →
       movies (deref cache w') = movies (deref cache w)).
Proof.
  unfold final. destruct (servesMovies genres w) eqn:E.
  - rewrite getMoviesFromAPI_hit by done. done.
  - rewrite getMoviesFromAPI_miss by done.
    destruct (settle (movie_results env) (moviePromises genres)) as [e|pages];
      cbn [fst].
    + split; intros cache; by destruct cache.
    + unfold stored. split.
      * intros cache. by destruct cache, (getCache genres).
      * intros cache [Hhit|[[e He]|Hother]]; [done | done |].
        by destruct cache, (getCache genres).
Qed.

Lemma getTVShowsFromAPI_keeps (env : Env) (genres : list Z) (w : World) :
  let w' := final (getTVShowsFromAPI env genres) w in
  (∀ cache, movies (deref cache w') = movies (deref cache w))
  ∧ (∀ cache,
       servesTVShows genres w = true
       ∨ (∃ e, settle (tv_results env) (tvPromises genres) = inl e)
       ∨ getCache genres ≠ cache →
       tvShows (deref cache w') = tvShows (deref cache w)).
Proof.
  unfold final. destruct (servesTVShows genres w) eqn:E.
  - rewrite getTVShowsFromAPI_hit by done. done.
  - rewrite getTVShowsFromAPI_miss by done.
    destruct (settle (tv_results env) (tvPromises genres)) as [e|pages];
      cbn [fst].
    + split; intros cache; by destruct cache.
    + unfold stored. split.
      * intros cache. by destruct cache, (getCache genres).
      * intros cache [Hhit|[[e He]|Hother]]; [done | done |].
        by destruct cache, (getCache genres).
Qed.

(** A list held for a fingerprint is the list of the entry. *)
Lemma holdsMoviesFor_entry (userGenres : list Z) (pool : list Movie) (w : World) :
  holdsMoviesFor userGenres pool w →
  movies (deref (getCache userGenres) w) = pool.
Proof.
  induction 1 as [env genres w pages Hmatch Hmiss Hpages ->
                 | dt w _ IH | env genres w _ IH | env genres w _ IH Hkept
                 | env genreIds w _ IH].
  - unfold final. rewrite getMoviesFromAPI_miss, Hpages by done. cbn [fst].
    by rewrite <- (genresMatch_getCache _ _ Hmatch), deref_stored.
  - by rewrite deref_later.
  - destruct (getTVShowsFromAPI_keeps env genres w) as [Hm _]. by rewrite Hm.
  - destruct (getMoviesFromAPI_keeps env genres w) as [_ Hm]. by rewrite Hm.
  - destruct (setGenrePreferences_caches env genreIds w) as [Hg Hp].
    destruct (getCache userGenres); simpl in *; congruence.
Qed.

Lemma holdsTVShowsFor_entry (userGenres : list Z) (pool : list TVShow) (w : World) :
  holdsTVShowsFor userGenres pool w →
  tvShows (deref (getCache userGenres) w) = pool.
Proof.
  induction 1 as [env genres w pages Hmatch Hmiss Hpages ->
                 | dt w _ IH | env genres w _ IH | env genres w _ IH Hkept
                 | env genreIds w _ IH].
  - unfold final. rewrite getTVShowsFromAPI_miss, Hpages by done. cbn [fst].
    by rewrite <- (genresMatch_getCache _ _ Hmatch), deref_stored.
  - by rewrite deref_later.
  - destruct (getMoviesFromAPI_keeps env genres w) as [Ht _]. by rewrite Ht.
  - destruct (getTVShowsFromAPI_keeps env genres w) as [_ Ht]. by rewrite Ht.
  - destruct (setGenrePreferences_caches env genreIds w) as [Hg Hp].
    destruct (getCache userGenres); simpl in *; congruence.
Qed.

(** C2, as the code has it.  A pool function never throws.  When it does
    not answer from the cache and one of the four requests of the round
    fails, it returns the list held for the fingerprint of the request,
    whatever its age, and when the entry holds no list it returns the empty
    list; in both cases the two cache entries and the storage are as they
    were. *)
Theorem failing_round_returns_held_list (env : Env) (userGenres : list Z) (w : World) :
  (¬ throws (getMoviesFromAPI env userGenres) w
   ∧ ¬ throws (getTVShowsFromAPI env userGenres) w)
  ∧ (servesMovies userGenres w = false →
     (∃ r e, r ∈ moviePromises userGenres ∧ movie_results env r = inl e) →
     let w' := final (getMoviesFromAPI env userGenres) w in
     (∀ pool, holdsMoviesFor userGenres pool w →
              result (getMoviesFromAPI env userGenres) w = inr pool)
     ∧ (movies (deref (getCache userGenres) w) = [] →
        result (getMoviesFromAPI env userGenres) w = inr [])
     ∧ generalCache w' = generalCache w
     ∧ personalizedCache w' = personalizedCache w
     ∧ asyncStorage w' = asyncStorage w)
  ∧ (servesTVShows userGenres w = false →
     (∃ r e, r ∈ tvPromises userGenres ∧ tv_results env r = inl e) →
     let w' := final (getTVShowsFromAPI env userGenres) w in
     (∀ pool, holdsTVShowsFor userGenres pool w →
              result (getTVShowsFromAPI env userGenres) w = inr pool)
     ∧ (tvShows (deref (getCache userGenres) w) = [] →
        result (getTVShowsFromAPI env userGenres) w = inr [])
     ∧ generalCache w' = generalCache w
     ∧ personalizedCache w' = personalizedCache w
     ∧ asyncStorage w' = asyncStorage w).
Proof.
  split; [split|split].
  - intros [e He]. unfold result in He.
    destruct (getMoviesFromAPI_total env userGenres w) as (w' & pool & Hrun).
    rewrite Hrun in He. discriminate He.
  - intros [e He]. unfold result in He.
    destruct (getTVShowsFromAPI_total env userGenres w) as (w' & pool & Hrun).
    rewrite Hrun in He. discriminate He.
  - intros Hmiss Hfail w'. subst w'. unfold result, final.
    rewrite getMoviesFromAPI_miss by done.
    destruct (settle_rejects _ _ Hfail) as [e ->]. cbn [fst snd].
    split; [|split; [|done]].
    + intros pool Hheld. by rewrite (holdsMoviesFor_entry _ _ _ Hheld).
    + by intros ->.
  - intros Hmiss Hfail w'. subst w'. unfold result, final.
    rewrite getTVShowsFromAPI_miss by done.
    destruct (settle_rejects _ _ Hfail) as [e ->]. cbn [fst snd].
    split; [|split; [|done]].
    + intros pool Hheld. by rewrite (holdsTVShowsFor_entry _ _ _ Hheld).
    + by intros ->.
Qed.

(** A pool stored for the genres 28, 12, 16 and expired since is still
    returned when a round for the genres 16, 28, 12 fails. *)
Lemma failing_round_returns_held_list_witness :
  let w := later CACHE_DURATION
             (final (getMoviesFromAPI Fixture.online [28; 12; 16])
                    (Fixture.started [28; 12; 16])) in
  servesMovies [16; 28; 12] w = false
  ∧ result (getMoviesFromAPI Fixture.offline [16; 28; 12]) w
    = inr [Fixture.mad_max; Fixture.up; Fixture.heat].
Proof.
  intros w. split; [reflexivity|].
  destruct (failing_round_returns_held_list Fixture.offline [16; 28; 12] w)
    as (_ & Hmovies & _).
  destruct Hmovies as (Hheld & _).
  - reflexivity.
  - exists (movies_discover 1 [16; 28; 12] popularity_desc), UpstreamError.
    split; [|reflexivity]. simpl. apply elem_of_cons. by left.
  - apply Hheld. apply movies_kept_later.
    by apply (movies_stored _ _ Fixture.online [28; 12; 16]
                (Fixture.started [28; 12; 16])
                [[Fixture.mad_max; Fixture.up]; [Fixture.heat];
                 [Fixture.up; Fixture.heat]; [Fixture.up; Fixture.heat]]).
Defined.

(** ** Serving a pool cached for other genres *)

(** C1 at a failing input: a pool cached for the genres 28, 12, 16 is
    returned, without any request, to a call for the genres 35, 18, 27 made
    within the freshness window, although [genresMatch] tells the two genre
    sets apart and a round for 35, 18, 27 would have found other movies;
    changing the stored preferences leaves the personalized entry in
    place. *)
Theorem pool_of_other_genres_is_served :
  storedGenres Stale.changed = Stale.G2
  ∧ personalizedCache Stale.changed = personalizedCache Stale.populated
  ∧ userGenres (personalizedCache Stale.changed) = Stale.G1
  ∧ genresMatch Stale.G2 (userGenres (personalizedCache Stale.changed)) = false
  ∧ clock Stale.changed - lastUpdate (personalizedCache Stale.changed)
    < CACHE_DURATION
  ∧ result (getMoviesFromAPI Fixture.online Stale.G2) Stale.changed
    = inr [Fixture.mad_max; Fixture.up; Fixture.heat]
  ∧ network (final (getMoviesFromAPI Fixture.online Stale.G2) Stale.changed)
    = network Stale.changed
  ∧ result (getMoviesFromAPI Fixture.online Stale.G2) (Fixture.started Stale.G2)
    = inr [Fixture.amelie].
Proof.
  repeat split; vm_compute; reflexivity.
Qed.

(** [genresMatch] itself compares genre lists as the claim describes: same
    length and every requested genre present, whatever the order. *)
Lemma genresMatch_spec (userGenres cachedGenres : list Z) :
  genresMatch userGenres cachedGenres = true
  ↔ length userGenres = length cachedGenres
    ∧ ∀ g, g ∈ userGenres → g ∈ cachedGenres.
Proof.
  unfold genresMatch.
  destruct (Nat.eqb (length userGenres) (length cachedGenres)) eqn:E; simpl.
  - apply Nat.eqb_eq in E. rewrite forallb_forall. split.
    + intros H. split; [done|]. intros g Hg.
      apply includes_elem_of, H. by apply list_elem_of_In.
    + intros [_ H] g Hg. apply includes_elem_of, H. by apply list_elem_of_In.
  - apply Nat.eqb_neq in E. split; [discriminate | tauto].
Qed.

(** ** Running the recommendation engine *)

Lemma getFallbackCategories_run (env : Env) (w : World) :
  ∃ w1 w2 allMovies allTVShows,
    getMoviesFromAPI env [] w = (w1, inr allMovies)
    ∧ getTVShowsFromAPI env [] w1 = (w2, inr allTVShows)
    ∧ result (getFallbackCategories env) w
      = inr [ {| cat_id := "popular-movies"; title := "Popular Movies";
                 subtitle := None;
                 data := map IsMovie
                           (JS.slice0 20 (JS.sortDesc movie_popularity allMovies)) |};
              {| cat_id := "top-rated-movies"; title := "Top Rated Movies";
                 subtitle := None;
                 data := map IsMovie
                           (JS.slice0 20
                              (JS.sortDesc movie_vote_average
                                 (JS.sortDesc movie_popularity allMovies))) |};
              {| cat_id := "popular-tv"; title := "Popular TV Shows";
                 subtitle := None;
                 data := map IsTVShow
                           (JS.slice0 20 (JS.sortDesc tv_popularity allTVShows)) |};
              {| cat_id := "top-rated-tv"; title := "Top Rated TV Shows";
                 subtitle := None;
                 data := map IsTVShow
                           (JS.slice0 20
                              (JS.sortDesc tv_vote_average
                                 (JS.sortDesc tv_popularity allTVShows))) |} ].
Proof.
  destruct (getMoviesFromAPI_total env [] w) as (w1 & allMovies & Hm).
  destruct (getTVShowsFromAPI_total env [] w1) as (w2 & allTVShows & Ht).
  exists w1, w2, allMovies, allTVShows. split; [done|]. split; [done|].
  unfold result, getFallbackCategories, bind. rewrite Hm, Ht. done.
Qed.

Lemma getSimpleRecommendations_general (env : Env) (w : World) :
  (length (readGenres env w) < 3)%nat →
  result (getSimpleRecommendations env) w = result (getFallbackCategories env) w.
Proof.
  intros Hlt. unfold result, getSimpleRecommendations, try_catch, bind.
  rewrite hasUserPreferences_run.
  assert (Nat.leb 3 (length (readGenres env w)) = false) as ->
    by (apply Nat.leb_gt; lia).
  cbn [negb].
  destruct (getFallbackCategories_run env w)
    as (w1 & w2 & ms & ts & _ & _ & Hrun).
  unfold result in Hrun.
  destruct (getFallbackCategories env w) as [w' [e|cats]]; simpl in *; [done|done].
Qed.

Lemma readGenres_length (env : Env) (w : World) :
  (length (readGenres env w) ≤ length (storedGenres w))%nat.
Proof. unfold readGenres. destruct (getItem_fails env); simpl; lia. Qed.

(** C6.  When fewer than three genres are stored, [getSimpleRecommendations]
    returns exactly four categories, titled "Popular Movies", "Top Rated
    Movies", "Popular TV Shows" and "Top Rated TV Shows" in this order; each
    has at most 20 items; the popular ones are in descending order of
    popularity and the top rated ones in descending order of rating. *)
Theorem general_mode_categories (env : Env) (w : World) :
  (length (storedGenres w) < 3)%nat →
  ∃ popularMovies topRatedMovies popularTV topRatedTV,
    result (getSimpleRecommendations env) w
    = inr [popularMovies; topRatedMovies; popularTV; topRatedTV]
    ∧ map title [popularMovies; topRatedMovies; popularTV; topRatedTV]
      = ["Popular Movies"; "Top Rated Movies";
         "Popular TV Shows"; "Top Rated TV Shows"]
    ∧ Forall (fun c => (length (data c) ≤ 20)%nat)
             [popularMovies; topRatedMovies; popularTV; topRatedTV]
    ∧ sortedDesc popularity (data popularMovies)
    ∧ sortedDesc vote_average (data topRatedMovies)
    ∧ sortedDesc popularity (data popularTV)
    ∧ sortedDesc vote_average (data topRatedTV).
Proof.
  intros Hlt.
  rewrite getSimpleRecommendations_general
    by (pose proof (readGenres_length env w); lia).
  destruct (getFallbackCategories_run env w)
    as (w1 & w2 & allMovies & allTVShows & _ & _ & ->).
  do 4 eexists. split; [reflexivity|]. split; [reflexivity|].
  cbn [data]. split.
  - repeat (apply Forall_cons; split); try apply Forall_nil_2;
      cbn [data]; rewrite length_map; apply slice0_length.
  - repeat split.
    + apply (sortedDesc_map IsMovie movie_popularity); [done|].
      apply sortedDesc_slice0, sortDesc_sorted.
    + apply (sortedDesc_map IsMovie movie_vote_average); [done|].
      apply sortedDesc_slice0, sortDesc_sorted.
    + apply (sortedDesc_map IsTVShow tv_popularity); [done|].
      apply sortedDesc_slice0, sortDesc_sorted.
    + apply (sortedDesc_map IsTVShow tv_vote_average); [done|].
      apply sortedDesc_slice0, sortDesc_sorted.
Qed.

Lemma general_mode_categories_witness :
  ∃ categories,
    result (getSimpleRecommendations Fixture.online) (Fixture.started [28; 12])
    = inr categories
    ∧ map title categories
      = ["Popular Movies"; "Top Rated Movies";
         "Popular TV Shows"; "Top Rated TV Shows"].
Proof.
  assert (length (storedGenres (Fixture.started [28; 12]%Z)) < 3)%nat as Hlt
    by (vm_compute; lia).
  destruct (general_mode_categories Fixture.online (Fixture.started [28; 12]) Hlt)
    as (c1 & c2 & c3 & c4 & Hrun & Htitles & _).
  exists [c1; c2; c3; c4]. split; [exact Hrun | exact Htitles].
Defined.

(** ** Personalized categories *)

Lemma filter_nonempty {A} (f : A → bool) (l : list A) :
  Nat.ltb 0 (length (List.filter f l)) = existsb f l.
Proof.
  induction l as [|x l IH]; simpl; [done|]. by destruct (f x).
Qed.

Lemma genreContent_nonempty (allContent : list ContentItem) (genreId : Z) :
  Nat.ltb 0 (length (genreContent allContent genreId)) = hasGenre genreId allContent.
Proof.
  unfold genreContent, hasGenre, JS.slice0.
  rewrite <- filter_nonempty, length_take, sortDesc_length.
  destruct (length (List.filter _ allContent)); [done|].
  by rewrite Nat.min_comm.
Qed.

Lemma pushGenreCategory_run (allContent : list ContentItem)
    (categories : list SimpleCategory) (genreId : Z) :
  pushGenreCategory allContent categories genreId
  = categories ++
      (if hasGenre genreId allContent then
         [ {| cat_id := ("genre-" ++ JS.toString genreId)%string;
              title :=
                ("Best " ++ default ("Genre " ++ JS.toString genreId)%string
                                    (genreNames genreId))%string;
              subtitle :=
                Some ("Top-rated "
                        ++ JS.toLowerCase
                             (default ("Genre " ++ JS.toString genreId)%string
                                      (genreNames genreId))
                        ++ " content")%string;
              data := genreContent allContent genreId |} ]
       else []).
Proof.
  unfold pushGenreCategory. fold (genreContent allContent genreId).
  rewrite genreContent_nonempty.
  destruct (hasGenre genreId allContent); [done|]. by rewrite app_nil_r.
Qed.

Lemma hasGenre_Permutation (genreId : Z) (l k : list ContentItem) :
  l ≡ₚ k → hasGenre genreId l = hasGenre genreId k.
Proof.
  intros Hp. unfold hasGenre.
  apply eq_true_iff_eq. rewrite !existsb_exists.
  split; intros (x & Hx & ?); exists x; (split; [|done]);
    apply list_elem_of_In; apply list_elem_of_In in Hx;
    [by rewrite <- Hp | by rewrite Hp].
Qed.

Lemma slice0_leaves_out {A} (key : A → Q) (n : nat) (l : list A) (x kept : A) :
  sortedDesc key l → x ∈ l → x ∉ JS.slice0 n l → kept ∈ JS.slice0 n l →
  length (JS.slice0 n l) = n ∧ (key x <= key kept)%Q.
Proof.
  unfold JS.slice0, sortedDesc. intros Hs Hx Hout Hkept.
  rewrite <- (take_drop n l) in Hs, Hx.
  apply elem_of_app in Hx as [Hx|Hx]; [done|]. split.
  - rewrite length_take.
    assert (n < length l)%nat; [|lia].
    destruct (decide (n < length l)%nat); [done|].
    rewrite drop_ge in Hx by lia. by apply elem_of_nil in Hx.
  - by apply (StronglySorted_app_1_elem_of _ _ _ kept x Hs).
Qed.

Lemma genreContent_best (pool allContent : list ContentItem) (genreId : Z) :
  allContent ≡ₚ pool →
  hasGenre genreId pool = true →
  bestOfGenre genreId pool (genreContent allContent genreId).
Proof.
  intros Hp Hhas.
  set (matching :=
         List.filter (fun item => JS.includes (genre_ids item) genreId) allContent).
  assert (∀ item, item ∈ JS.sortDesc vote_average matching
                  ↔ item ∈ pool ∧ genreId ∈ genre_ids item) as Hmem.
  { intros item. rewrite sortDesc_Permutation. unfold matching.
    rewrite list_elem_of_In, filter_In, <- list_elem_of_In, includes_elem_of.
    by rewrite Hp. }
  split; [|split; [|split; [|split]]].
  - intros Hnil.
    pose proof (genreContent_nonempty allContent genreId) as Hne.
    rewrite Hnil, (hasGenre_Permutation _ _ _ Hp), Hhas in Hne. discriminate Hne.
  - apply slice0_length.
  - apply sortedDesc_slice0, sortDesc_sorted.
  - intros item Hitem. apply Hmem.
    unfold genreContent, JS.slice0 in Hitem.
    apply elem_of_take in Hitem as (i & Hi & _).
    by apply list_elem_of_lookup_2 in Hi.
  - intros item kept Hpool Hgenre Hout Hkept.
    apply (slice0_leaves_out vote_average 20
             (JS.sortDesc vote_average matching)); try done.
    + apply sortDesc_sorted.
    + by apply Hmem.
Qed.

Lemma getPersonalizedCategories_run (env : Env) (userGenres : list Z) (w : World) :
  let pool := pooledContent env userGenres w in
  let forYou := fst (getPersonalizedContent pool userGenres 20) in
  let allContent :=
    JS.sortDesc popularity (snd (getPersonalizedContent pool userGenres 20)) in
  result (getPersonalizedCategories env userGenres) w
  = inr (fold_left (pushGenreCategory allContent) (JS.slice0 2 userGenres)
           [ {| cat_id := "for-you"; title := "For You";
                subtitle := Some "Handpicked based on your preferences";
                data := forYou |};
             {| cat_id := "trending"; title := "Trending Now";
                subtitle := Some "Popular content in your favorite genres";
                data := JS.slice0 20 allContent |} ]).
Proof.
  unfold pooledContent, result, getPersonalizedCategories, bind.
  destruct (getMoviesFromAPI_total env userGenres w) as (w1 & allMovies & ->).
  destruct (getTVShowsFromAPI_total env userGenres w1) as (w2 & allTVShows & ->).
  cbn beta iota zeta.
  by destruct (getPersonalizedContent _ userGenres 20).
Qed.

Lemma getSimpleRecommendations_personalized (env : Env) (w : World) :
  (3 ≤ length (readGenres env w))%nat →
  result (getSimpleRecommendations env) w
  = result (getPersonalizedCategories env (readGenres env w)) w.
Proof.
  intros Hge. pose proof (getPersonalizedCategories_run env (readGenres env w) w) as Hrun.
  cbv zeta in Hrun. unfold result in *.
  unfold getSimpleRecommendations, try_catch, bind.
  rewrite hasUserPreferences_run.
  assert (Nat.leb 3 (length (readGenres env w)) = true) as -> by (by apply Nat.leb_le).
  cbn [negb]. rewrite getGenrePreferences_run.
  destruct (getPersonalizedCategories env (readGenres env w) w) as [w' [e|cats]];
    simpl in *; [done|done].
Qed.

(** With preferences, the pool is left in place by [getPersonalizedContent]. *)
Lemma getPersonalizedContent_keeps (content : list ContentItem)
    (userGenres : list Z) (limit : nat) :
  snd (getPersonalizedContent content userGenres limit) ≡ₚ content.
Proof.
  unfold getPersonalizedContent.
  destruct (Nat.eqb (length userGenres) 0); simpl; [|done].
  apply sortDesc_Permutation.
Qed.

(** C5.  With the genres 28, 12, 16 stored (and a readable storage),
    [getSimpleRecommendations] returns "For You", then "Trending Now", then
    "Best Action" if the pool has an item of genre 28, then "Best
    Adventure" if the pool has an item of genre 12, and nothing else: no
    category is built for genre 16, and a "Best ..." category whose item
    list would be empty is skipped.  The items of each "Best ..." category
    are the items of the pool with that genre, in descending order of
    rating, cut after 20. *)
Theorem personalized_categories_28_12_16 (env : Env) (w : World) :
  getItem_fails env = false →
  storedGenres w = [28; 12; 16] →
  let pool := pooledContent env [28; 12; 16] w in
  ∃ forYou trending best,
    result (getSimpleRecommendations env) w = inr (forYou :: trending :: best)
    ∧ title forYou = "For You"
    ∧ title trending = "Trending Now"
    ∧ map title best
      = (if hasGenre 28 pool then ["Best Action"] else [])
        ++ (if hasGenre 12 pool then ["Best Adventure"] else [])
    ∧ (∀ c, c ∈ best → title c = "Best Action" → bestOfGenre 28 pool (data c))
    ∧ (∀ c, c ∈ best → title c = "Best Adventure" → bestOfGenre 12 pool (data c)).
Proof.
  intros Hget Hstored pool.
  assert (readGenres env w = [28; 12; 16]) as Hread
    by (unfold readGenres; by rewrite Hget).
  rewrite getSimpleRecommendations_personalized by (rewrite Hread; simpl; lia).
  rewrite Hread, getPersonalizedCategories_run. fold pool.
  change (snd (getPersonalizedContent pool [28; 12; 16] 20)) with pool.
  set (allContent := JS.sortDesc popularity pool).
  assert (allContent ≡ₚ pool) as Hp by apply sortDesc_Permutation.
  change (JS.slice0 2 [28; 12; 16]) with [28; 12]. cbn [fold_left].
  rewrite !pushGenreCategory_run.
  rewrite !(hasGenre_Permutation _ _ _ Hp).
  do 3 eexists. split; [rewrite <- !app_assoc; reflexivity|].
  split; [reflexivity|]. split; [reflexivity|].
  destruct (hasGenre 28 pool) eqn:H28; destruct (hasGenre 12 pool) eqn:H12;
    (split; [reflexivity|]); split; intros c Hc Htitle;
    repeat match goal with
      | H : _ ∈ _ ++ _ |- _ => apply elem_of_app in H as [H|H]
      | H : _ ∈ [] |- _ => by apply elem_of_nil in H
      | H : _ ∈ [_] |- _ => apply list_elem_of_singleton in H; subst c
      end;
    try discriminate Htitle;
    by apply genreContent_best.
Qed.

Lemma personalized_categories_28_12_16_witness :
  ∃ categories,
    result (getSimpleRecommendations Fixture.online) (Fixture.started [28; 12; 16])
    = inr categories
    ∧ map title categories
      = ["For You"; "Trending Now"; "Best Action"; "Best Adventure"].
Proof.
  destruct (personalized_categories_28_12_16 Fixture.online
              (Fixture.started [28; 12; 16]) eq_refl eq_refl)
    as (forYou & trending & best & Hrun & Hfor & Htrend & Hbest & _).
  exists (forYou :: trending :: best). split; [exact Hrun|].
  cbn [map]. rewrite Hfor, Htrend, Hbest. vm_compute. reflexivity.
Defined.

(** ** Recommendations when nothing can be fetched *)

Lemma moviePromises_first (userGenres : list Z) :
  ∃ r, r ∈ moviePromises userGenres.
Proof.
  unfold moviePromises. destruct (Nat.ltb 0 (length userGenres));
    eexists; apply elem_of_cons; by left.
Qed.

Lemma tvPromises_first (userGenres : list Z) :
  ∃ r, r ∈ tvPromises userGenres.
Proof.
  unfold tvPromises. destruct (Nat.ltb 0 (length userGenres));
    eexists; apply elem_of_cons; by left.
Qed.

Lemma pooledContent_offline (env : Env) (userGenres : list Z) (w : World) :
  allFetchesFail env → nothingCached w → pooledContent env userGenres w = [].
Proof.
  intros Hfail (Hgm & Hgt & Hpm & Hpt). unfold pooledContent.
  assert (movies (deref (getCache userGenres) w) = []) as Hm
    by (by destruct (getCache userGenres)).
  assert (tvShows (deref (getCache userGenres) w) = []) as Ht
    by (by destruct (getCache userGenres)).
  rewrite getMoviesFromAPI_miss by (unfold servesMovies; by rewrite Hm).
  destruct (moviePromises_first userGenres) as [r Hr].
  destruct (settle_rejects (movie_results env) (moviePromises userGenres)) as [e ->].
  { destruct (Hfail r) as [[e He] _]. eauto. }
  set (w1 := sent _ _ w).
  assert (tvShows (deref (getCache userGenres) w1) = []) as Ht1
    by (by destruct (getCache userGenres)).
  rewrite getTVShowsFromAPI_miss by (unfold servesTVShows; by rewrite Ht1).
  destruct (tvPromises_first userGenres) as [r' Hr'].
  destruct (settle_rejects (tv_results env) (tvPromises userGenres)) as [e' ->].
  { destruct (Hfail r') as [_ [e' He']]. eauto. }
  by rewrite Hm, Ht1.
Qed.

Lemma getFallbackCategories_offline (env : Env) (w : World) :
  allFetchesFail env → nothingCached w →
  ∃ categories,
    result (getFallbackCategories env) w = inr categories
    ∧ map title categories
      = ["Popular Movies"; "Top Rated Movies";
         "Popular TV Shows"; "Top Rated TV Shows"]
    ∧ Forall (fun c => data c = []) categories.
Proof.
  intros Hfail Hnothing.
  pose proof (pooledContent_offline env [] w Hfail Hnothing) as Hpool.
  unfold pooledContent in Hpool.
  destruct (getFallbackCategories_run env w)
    as (w1 & w2 & allMovies & allTVShows & Hm & Ht & ->).
  rewrite Hm, Ht in Hpool. apply app_eq_nil in Hpool as [Hms Hts].
  apply map_eq_nil in Hms, Hts. subst allMovies allTVShows.
  eexists. split; [reflexivity|]. split; [reflexivity|].
  repeat constructor.
Qed.

Lemma fold_pushGenreCategory_nil (genres : list Z) (categories : list SimpleCategory) :
  fold_left (pushGenreCategory []) genres categories = categories.
Proof.
  revert categories. induction genres as [|g genres IH]; intros categories; [done|].
  simpl. by rewrite IH.
Qed.

Lemma getPersonalizedContent_nil (userGenres : list Z) (limit : nat) :
  getPersonalizedContent [] userGenres limit = ([], []).
Proof.
  unfold getPersonalizedContent, JS.slice0.
  destruct (Nat.eqb (length userGenres) 0); simpl; by rewrite take_nil.
Qed.

(** C3, as claimed: with every request failing and empty caches,
    [getSimpleRecommendations] returns four categories, not an empty list of
    categories; each of them has no items. *)
Lemma offline_recommendations_are_not_an_empty_list :
  result (getSimpleRecommendations Fixture.offline) (Fixture.started [])
  = inr [ {| cat_id := "popular-movies"; title := "Popular Movies";
             subtitle := None; data := [] |};
          {| cat_id := "top-rated-movies"; title := "Top Rated Movies";
             subtitle := None; data := [] |};
          {| cat_id := "popular-tv"; title := "Popular TV Shows";
             subtitle := None; data := [] |};
          {| cat_id := "top-rated-tv"; title := "Top Rated TV Shows";
             subtitle := None; data := [] |} ]
  ∧ result (getSimpleRecommendations Fixture.offline) (Fixture.started []) ≠ inr [].
Proof.
  split; [vm_compute; reflexivity|].
  intros H. vm_compute in H. discriminate H.
Qed.

(** C3, as the code has it.  When every request fails and both cache
    entries are empty, [getSimpleRecommendations] does not throw: it
    returns the categories of its mode -- the four general categories when
    fewer than three genres are read, "For You" and "Trending Now" otherwise
    -- and each of them has an empty item list. *)
Theorem offline_recommendations_have_empty_categories (env : Env) (w : World) :
  allFetchesFail env →
  nothingCached w →
  ∃ categories,
    result (getSimpleRecommendations env) w = inr categories
    ∧ map title categories
      = (if Nat.leb 3 (length (readGenres env w))
         then ["For You"; "Trending Now"]
         else ["Popular Movies"; "Top Rated Movies";
               "Popular TV Shows"; "Top Rated TV Shows"])
    ∧ Forall (fun c => data c = []) categories.
Proof.
  intros Hfail Hnothing.
  destruct (Nat.leb 3 (length (readGenres env w))) eqn:E.
  - apply Nat.leb_le in E.
    rewrite getSimpleRecommendations_personalized by done.
    rewrite getPersonalizedCategories_run.
    rewrite pooledContent_offline by done.
    rewrite getPersonalizedContent_nil. cbn [fst snd JS.sortDesc foldr].
    rewrite fold_pushGenreCategory_nil.
    eexists. split; [reflexivity|]. split; [reflexivity|].
    repeat constructor.
  - apply Nat.leb_gt in E.
    rewrite getSimpleRecommendations_general by done.
    by apply getFallbackCategories_offline.
Qed.

Lemma offline_recommendations_have_empty_categories_witness :
  ∃ categories,
    result (getSimpleRecommendations Fixture.offline) (Fixture.started [28; 12; 16])
    = inr categories
    ∧ map title categories = ["For You"; "Trending Now"]
    ∧ Forall (fun c => data c = []) categories.
Proof.
  apply (offline_recommendations_have_empty_categories Fixture.offline
           (Fixture.started [28; 12; 16])).
  - intros r. split; exists UpstreamError; reflexivity.
  - repeat split; reflexivity.
Defined.

(** ** The search cache *)

Section MapFacts.
Context {V : Type}.
Implicit Types (m : JSMap.t V) (k : string) (v : V).

Lemma has_keys m k : JSMap.has m k = true ↔ k ∈ JSMap.keys m.
Proof.
  unfold JSMap.has, JSMap.keys. rewrite existsb_exists, list_elem_of_fmap.
  split.
  - intros (e & He & Heq). apply String.eqb_eq in Heq. exists e.
    split; [done | by apply list_elem_of_In].
  - intros (e & -> & He). exists e.
    split; [by apply list_elem_of_In | apply String.eqb_refl].
Qed.

Lemma set_new m k v : JSMap.has m k = false → JSMap.set m k v = m ++ [(k, v)].
Proof.
  induction m as [|e m IH]; simpl; [done|].
  destruct (String.eqb (fst e) k); simpl; [discriminate|].
  intros Hm. by rewrite IH.
Qed.

Lemma set_keys_present m k v :
  JSMap.has m k = true → JSMap.keys (JSMap.set m k v) = JSMap.keys m.
Proof.
  induction m as [|e m IH]; simpl; [discriminate|].
  destruct (String.eqb (fst e) k) eqn:E; simpl.
  - intros _. apply String.eqb_eq in E. by rewrite E.
  - intros Hm. by rewrite IH.
Qed.

Lemma delete_first e m :
  fst e ∉ JSMap.keys m → JSMap.delete (e :: m) (fst e) = m.
Proof.
  intros Hfresh. unfold JSMap.delete. simpl.
  rewrite String.eqb_refl. simpl.
  induction m as [|e' m IH]; simpl; [done|].
  unfold JSMap.keys in Hfresh. simpl in Hfresh.
  apply not_elem_of_cons in Hfresh as [Hne Hfresh].
  destruct (String.eqb (fst e') (fst e)) eqn:E.
  - apply String.eqb_eq in E. congruence.
  - simpl. by rewrite IH.
Qed.
End MapFacts.

Module SearchFacts.
Import Search.

Lemma cacheKey_truthy (query : string) (filters : list Z) :
  JS.truthy (cacheKey query filters) = true.
Proof.
  unfold cacheKey. by destruct (JS.toLowerCase query).
Qed.

(** The three cases of the updater on a well-formed cache. *)
Lemma storeResults_cases (k : string) (results : list SearchItem)
    (prev : JSMap.t (list SearchItem)) :
  wellFormed prev →
  storeResults k results prev
  = if JSMap.has prev k then JSMap.set prev k results
    else if Nat.ltb (JSMap.size prev) 10 then prev ++ [(k, results)]
    else tail prev ++ [(k, results)].
Proof.
  intros (Hnodup & Htruthy & Hsize). unfold storeResults.
  destruct (JSMap.has prev k) eqn:Hhas.
  - assert (JSMap.size (JSMap.set prev k results) = JSMap.size prev) as ->.
    { unfold JSMap.size. rewrite <- !(length_map fst).
      fold (JSMap.keys (JSMap.set prev k results)). fold (JSMap.keys prev).
      by rewrite set_keys_present. }
    by assert (Nat.ltb 10 (JSMap.size prev) = false) as ->
      by (apply Nat.ltb_ge; lia).
  - rewrite set_new by done. unfold JSMap.size in *. rewrite length_app. simpl.
    destruct (Nat.ltb (length prev) 10) eqn:E.
    + apply Nat.ltb_lt in E.
      by assert (Nat.ltb 10 (length prev + 1) = false) as ->
        by (apply Nat.ltb_ge; lia).
    + apply Nat.ltb_ge in E.
      assert (Nat.ltb 10 (length prev + 1) = true) as ->
        by (apply Nat.ltb_lt; lia).
      destruct prev as [|e prev]; [simpl in E; lia|].
      simpl. simpl in Htruthy, Hnodup.
      apply Forall_cons in Htruthy as [-> _].
      apply NoDup_cons in Hnodup as [Hfresh _].
      apply (delete_first e (prev ++ [(k, results)])).
      unfold JSMap.keys. rewrite map_app, not_elem_of_app. split; [done|].
      simpl. rewrite list_elem_of_singleton. intros Heq.
      assert (JSMap.has (e :: prev) k = true); [|congruence].
      apply has_keys. simpl. rewrite Heq. by left.
Qed.

Lemma storeResults_wellFormed (k : string) (results : list SearchItem)
    (prev : JSMap.t (list SearchItem)) :
  JS.truthy k = true → wellFormed prev → wellFormed (storeResults k results prev).
Proof.
  intros Hk Hwf. rewrite storeResults_cases by done.
  destruct Hwf as (Hnodup & Htruthy & Hsize).
  destruct (JSMap.has prev k) eqn:Hhas.
  - unfold wellFormed, JSMap.size.
    rewrite <- (length_map fst). fold (JSMap.keys (JSMap.set prev k results)).
    rewrite set_keys_present by done. unfold JSMap.keys at 3.
    by rewrite length_map.
  - assert (k ∉ JSMap.keys prev) as Hfresh.
    { intros Hin%has_keys. congruence. }
    destruct (Nat.ltb (JSMap.size prev) 10) eqn:E.
    + apply Nat.ltb_lt in E. unfold wellFormed, JSMap.keys, JSMap.size in *.
      rewrite map_app, length_app. simpl. split; [|split].
      * apply NoDup_app. split; [done|]. split; [|apply NoDup_singleton].
        intros x Hx ->%list_elem_of_singleton. done.
      * apply Forall_app. split; [done|]. by constructor.
      * lia.
    + destruct prev as [|e prev]; [discriminate E|].
      unfold wellFormed, JSMap.keys, JSMap.size in *. simpl in *.
      apply NoDup_cons in Hnodup as [_ Hnodup].
      apply Forall_cons in Htruthy as [_ Htruthy].
      apply not_elem_of_cons in Hfresh as [_ Hfresh].
      rewrite map_app, length_app. simpl. split; [|split].
      * apply NoDup_app. split; [done|]. split; [|apply NoDup_singleton].
        intros x Hx ->%list_elem_of_singleton. done.
      * apply Forall_app. split; [done|]. by constructor.
      * lia.
Qed.

Lemma step_wellFormed (cache : JSMap.t (list SearchItem)) (ev : Event) :
  wellFormed cache → wellFormed (step cache ev).
Proof.
  destruct ev as [query filters results| |]; simpl; [|done|].
  - apply storeResults_wellFormed, cacheKey_truthy.
  - intros _. repeat split; [constructor | constructor | simpl; lia].
Qed.

Lemma fold_step_wellFormed (history : list Event)
    (cache : JSMap.t (list SearchItem)) :
  wellFormed cache → wellFormed (fold_left step history cache).
Proof.
  revert cache. induction history as [|ev history IH]; intros cache; [done|].
  simpl. intros Hwf. by apply IH, step_wellFormed.
Qed.

Lemma after_wellFormed (history : list Event) : wellFormed (after history).
Proof.
  apply fold_step_wellFormed.
  repeat split; [constructor | constructor | simpl; lia].
Qed.

Lemma fold_step_reads (history : list Event) (cache : JSMap.t (list SearchItem)) :
  fold_left step (List.filter (fun ev => negb (isRead ev)) history) cache
  = fold_left step history cache.
Proof.
  revert cache. induction history as [|ev history IH]; intros cache; [done|].
  destruct ev; simpl; apply IH.
Qed.

(** C7.  After any history of searches, cached answers and filter
    changes, the search cache holds at most 10 entries.  Storing results
    under a key that is not in a cache of 10 entries removes exactly the
    first entry -- the one inserted longest ago -- keeps the other nine in
    their order and puts the new entry last.  Reading the cache has no
    part in this: the cache is the same as if the reads had not
    happened. *)
Theorem searchCache_bounded_fifo (history : list Event) :
  let cache := after history in
  (JSMap.size cache ≤ 10)%nat
  ∧ (∀ query filters results,
       JSMap.size cache = 10%nat →
       JSMap.has cache (cacheKey query filters) = false →
       ∃ oldest rest,
         cache = oldest :: rest
         ∧ step cache (Searched query filters results)
           = rest ++ [(cacheKey query filters, results)]
         ∧ JSMap.has (step cache (Searched query filters results)) (fst oldest)
           = false)
  ∧ after (List.filter (fun ev => negb (isRead ev)) history) = cache.
Proof.
  intros cache. pose proof (after_wellFormed history) as Hwf. fold cache in Hwf.
  split; [apply Hwf|]. split; [|apply fold_step_reads].
  intros query filters results Hsize Hnew. simpl.
  rewrite storeResults_cases, Hnew, Hsize by done. simpl.
  destruct cache as [|oldest rest] eqn:Hcache; [discriminate Hsize|].
  exists oldest, rest. split; [done|]. split; [done|]. simpl.
  destruct Hwf as (Hnodup & _). simpl in Hnodup.
  apply NoDup_cons in Hnodup as [Hfresh _].
  destruct (JSMap.has (rest ++ [(cacheKey query filters, results)]) (fst oldest))
    eqn:Hhas; [|done].
  apply has_keys in Hhas. unfold JSMap.keys in Hhas.
  rewrite map_app, elem_of_app in Hhas. destruct Hhas as [Hin|Hin]; [done|].
  simpl in Hin. apply list_elem_of_singleton in Hin.
  assert (JSMap.has (oldest :: rest) (cacheKey query filters) = true);
    [|congruence].
  apply has_keys. simpl. rewrite <- Hin. by left.
Qed.

End SearchFacts.

(** Ten searches fill the cache; the eleventh evicts the first of them,
    although it was the one read last. *)
Lemma searchCache_bounded_fifo_witness :
  let history :=
    map (fun query => Search.Searched query [] [])
        ["Batman"; "Alien"; "Heat"; "Up"; "Arcane"; "Dune"; "Jaws"; "Rocky";
         "Casablanca"; "Vertigo"]
    ++ [Search.ServedFromCache "batman" []] in
  JSMap.keys (Search.step (Search.after history)
                (Search.Searched "Matrix" [28; 12] [IsMovie Fixture.heat]))
  = ["alien_"; "heat_"; "up_"; "arcane_"; "dune_"; "jaws_"; "rocky_";
     "casablanca_"; "vertigo_"; "matrix_12,28"].
Proof.
  intros history.
  destruct (SearchFacts.searchCache_bounded_fifo history) as (_ & Hevict & _).
  destruct (Hevict "Matrix" [28; 12] [IsMovie Fixture.heat] eq_refl eq_refl)
    as (oldest & rest & Hcache & -> & _).
  vm_compute in Hcache. injection Hcache as <- <-.
  vm_compute. reflexivity.
Defined.

(** * Further properties of the preference store *)

Lemma storedGenres_written (current : UserPreferences) (genreIds : list Z) (w : World) :
  storedGenres
    (with_asyncStorage (Some (spread current (only_favoriteGenres genreIds))) w)
  = genreIds.
Proof. reflexivity. Qed.

Lemma readGenres_working (env : Env) (w : World) :
  getItem_fails env = false → readGenres env w = storedGenres w.
Proof. unfold readGenres. by intros ->. Qed.

Lemma addGenrePreference_run (env : Env) (genreId : Z) (w : World) :
  getItem_fails env = false → setItem_fails env = false →
  addGenrePreference env genreId w
  = (if JS.includes (storedGenres w) genreId then w
     else with_asyncStorage
            (Some (spread (default defaultPreferences (asyncStorage w))
                          (only_favoriteGenres (storedGenres w ++ [genreId])))) w,
     inr true).
Proof.
  intros Hget Hset. unfold addGenrePreference, try_catch, bind.
  rewrite getGenrePreferences_run, readGenres_working by done.
  destruct (JS.includes (storedGenres w) genreId); simpl; [done|].
  by rewrite setGenrePreferences_run.
Qed.

Lemma removeGenrePreference_run (env : Env) (genreId : Z) (w : World) :
  getItem_fails env = false → setItem_fails env = false →
  removeGenrePreference env genreId w
  = (with_asyncStorage
       (Some (spread (default defaultPreferences (asyncStorage w))
                     (only_favoriteGenres
                        (List.filter (fun id => negb (id =? genreId))
                                     (storedGenres w))))) w,
     inr true).
Proof.
  intros Hget Hset. unfold removeGenrePreference, try_catch, bind.
  rewrite getGenrePreferences_run, readGenres_working by done.
  by rewrite setGenrePreferences_run.
Qed.

Lemma filter_other_elem_of (genreId x : Z) (l : list Z) :
  x ∈ List.filter (fun id => negb (id =? genreId)) l ↔ x ∈ l ∧ x ≠ genreId.
Proof.
  rewrite !list_elem_of_In, filter_In, negb_true_iff, Z.eqb_neq. done.
Qed.

Lemma filter_other_absent (genreId : Z) (l : list Z) :
  genreId ∉ l → List.filter (fun id => negb (id =? genreId)) l = l.
Proof.
  induction l as [|x l IH]; simpl; [done|].
  intros [Hne Hl]%not_elem_of_cons.
  destruct (x =? genreId) eqn:E; simpl.
  - apply Z.eqb_eq in E. congruence.
  - by rewrite IH.
Qed.

Lemma filter_sublist {A} (f : A → bool) (l : list A) : sublist (List.filter f l) l.
Proof.
  induction l as [|x l IH]; simpl; [constructor|].
  destruct (f x); [by apply sublist_skip | by apply sublist_cons].
Qed.

(** X1.  Writing the genre list never throws.  With a working storage the
    write succeeds, the list read back is exactly the list written, in the
    same order, and the other preferences keep their values; when the write
    to the storage fails the function answers [false] and nothing changes. *)
Theorem genre_preferences_round_trip (env : Env) (w : World) (genreIds : list Z) :
  let w' := final (setGenrePreferences env genreIds) w in
  ¬ throws (setGenrePreferences env genreIds) w
  ∧ (getItem_fails env = false → setItem_fails env = false →
     result (setGenrePreferences env genreIds) w = inr true
     ∧ result (getGenrePreferences env) w' = inr genreIds
     ∧ (∃ written,
          asyncStorage w' = Some written
          ∧ preferredLanguage written
            = preferredLanguage (default defaultPreferences (asyncStorage w))
          ∧ adultContent written
            = adultContent (default defaultPreferences (asyncStorage w))
          ∧ sortMethod written
            = sortMethod (default defaultPreferences (asyncStorage w))
          ∧ theme written
            = theme (default defaultPreferences (asyncStorage w))))
  ∧ (setItem_fails env = true →
     result (setGenrePreferences env genreIds) w = inr false ∧ w' = w).
Proof.
  intros w'. subst w'. split; [|split].
  - intros [e He]. unfold result, setGenrePreferences, updateUserPreferences,
      try_catch, bind in He.
    rewrite getUserPreferences_run in He.
    unfold setStorageItem, try_catch, AsyncStorage_setItem in He.
    destruct (setItem_fails env); discriminate He.
  - intros Hget Hset. unfold result, final.
    rewrite setGenrePreferences_run by done. simpl.
    split; [done|]. split.
    + rewrite getGenrePreferences_run, readGenres_working by done. done.
    + eexists. split; [reflexivity|]. done.
  - intros Hset. unfold result, final, setGenrePreferences,
      updateUserPreferences, try_catch, bind.
    rewrite getUserPreferences_run.
    unfold setStorageItem, try_catch, AsyncStorage_setItem. by rewrite Hset.
Qed.

Lemma genre_preferences_round_trip_witness :
  result (getGenrePreferences Fixture.online)
         (final (setGenrePreferences Fixture.online [18; 35; 18])
                (Fixture.started [28; 12]))
  = inr [18; 35; 18].
Proof.
  destruct (genre_preferences_round_trip Fixture.online
              (Fixture.started [28; 12]) [18; 35; 18]) as (_ & Hok & _).
  destruct (Hok eq_refl eq_refl) as (_ & Hread & _). exact Hread.
Defined.

(** X2.  With a working storage, [removeGenrePreference g] succeeds and
    stores the old list without any occurrence of [g], the remaining genres
    in their old order; a list that does not contain [g] is stored
    unchanged. *)
Theorem removeGenrePreference_removes (env : Env) (w : World) (genreId : Z) :
  getItem_fails env = false →
  setItem_fails env = false →
  let P := storedGenres w in
  let P' := storedGenres (final (removeGenrePreference env genreId) w) in
  result (removeGenrePreference env genreId) w = inr true
  ∧ (genreId ∉ P')
  ∧ (∀ g, g ≠ genreId → (g ∈ P' ↔ g ∈ P))
  ∧ sublist P' P
  ∧ (genreId ∉ P → P' = P).
Proof.
  intros Hget Hset P P'. subst P'. unfold result, final.
  rewrite removeGenrePreference_run by done. cbn [fst snd].
  rewrite storedGenres_written. fold P.
  split; [done|]. split; [|split; [|split]].
  - rewrite filter_other_elem_of. tauto.
  - intros g Hg. rewrite filter_other_elem_of. tauto.
  - apply filter_sublist.
  - apply filter_other_absent.
Qed.

Lemma removeGenrePreference_removes_witness :
  (12 ∉ storedGenres (final (removeGenrePreference Fixture.online 12)
                            (Fixture.started [28; 12; 16; 12])))
  ∧ storedGenres (final (removeGenrePreference Fixture.online 12)
                        (Fixture.started [28; 12; 16; 12]))
    = [28; 16].
Proof.
  destruct (removeGenrePreference_removes Fixture.online
              (Fixture.started [28; 12; 16; 12]) 12 eq_refl eq_refl)
    as (_ & Hgone & _).
  split; [exact Hgone | vm_compute; reflexivity].
Defined.

(** X3.  With a working storage, adding a genre twice stores the same list
    as adding it once, and removing a genre that was just added to a list
    without it gives back the list as it was. *)
Theorem add_is_idempotent_and_undone_by_remove (env : Env) (w : World) (genreId : Z) :
  getItem_fails env = false →
  setItem_fails env = false →
  let added := final (addGenrePreference env genreId) w in
  final (addGenrePreference env genreId) added = added
  ∧ (genreId ∉ storedGenres w →
     storedGenres (final (removeGenrePreference env genreId) added)
     = storedGenres w).
Proof.
  intros Hget Hset added. subst added. unfold final.
  rewrite (addGenrePreference_run env genreId w) by done. cbn [fst].
  destruct (JS.includes (storedGenres w) genreId) eqn:Hin.
  - split.
    + rewrite addGenrePreference_run by done. by rewrite Hin.
    + intros Hnot. apply includes_elem_of in Hin. done.
  - split.
    + rewrite addGenrePreference_run by done. rewrite storedGenres_written.
      assert (JS.includes (storedGenres w ++ [genreId]) genreId = true) as ->; [|done].
      apply includes_elem_of, elem_of_app. right. by left.
    + intros Hnot. rewrite removeGenrePreference_run by done. cbn [fst].
      rewrite !storedGenres_written.
      rewrite List.filter_app, filter_other_absent by done. simpl.
      rewrite Z.eqb_refl. simpl. by rewrite app_nil_r.
Qed.

Lemma add_is_idempotent_and_undone_by_remove_witness :
  storedGenres
    (final (removeGenrePreference Fixture.online 16)
           (final (addGenrePreference Fixture.online 16) (Fixture.started [28; 12])))
  = [28; 12].
Proof.
  destruct (add_is_idempotent_and_undone_by_remove Fixture.online
              (Fixture.started [28; 12]) 16 eq_refl eq_refl) as [_ Hundo].
  apply Hundo. intros Hin. apply includes_elem_of in Hin. discriminate Hin.
Defined.

(** X4.  [isGenrePreferred] never throws and answers [true] exactly for the
    genres that are read from the store; with a working storage it answers
    [true] after the genre was added and [false] after it was removed. *)
Theorem isGenrePreferred_follows_the_store (env : Env) (w : World) (genreId : Z) :
  (∃ b, result (isGenrePreferred env genreId) w = inr b
        ∧ (b = true ↔ genreId ∈ readGenres env w))
  ∧ (getItem_fails env = false → setItem_fails env = false →
     result (isGenrePreferred env genreId)
            (final (addGenrePreference env genreId) w) = inr true
     ∧ result (isGenrePreferred env genreId)
              (final (removeGenrePreference env genreId) w) = inr false).
Proof.
  assert (∀ w0, result (isGenrePreferred env genreId) w0
                = inr (JS.includes (readGenres env w0) genreId)) as Hrun.
  { intros w0. unfold result, isGenrePreferred, try_catch, bind.
    by rewrite getGenrePreferences_run. }
  split.
  - eexists. split; [apply Hrun|]. apply includes_elem_of.
  - intros Hget Hset. rewrite !Hrun, !readGenres_working by done.
    unfold final. rewrite addGenrePreference_run, removeGenrePreference_run by done.
    cbn [fst]. split; f_equal.
    + destruct (JS.includes (storedGenres w) genreId) eqn:Hin; [done|].
      rewrite storedGenres_written.
      apply includes_elem_of, elem_of_app. right. by left.
    + rewrite storedGenres_written.
      destruct (JS.includes _ genreId) eqn:Hin; [|done].
      apply includes_elem_of, filter_other_elem_of in Hin. tauto.
Qed.

Lemma isGenrePreferred_follows_the_store_witness :
  result (isGenrePreferred Fixture.online 16)
         (final (addGenrePreference Fixture.online 16) (Fixture.started [28; 12]))
  = inr true.
Proof.
  destruct (isGenrePreferred_follows_the_store Fixture.online
              (Fixture.started [28; 12]) 16) as [_ Hafter].
  destruct (Hafter eq_refl eq_refl) as [Hadd _]. exact Hadd.
Defined.

(** ** The genre table and what is derived from it *)

Lemma getAllGenres_uniqueBy (genresData : GenresData) :
  getAllGenres genresData
  = uniqueBy genre_id (genres_movies genresData ++ genres_tv genresData).
Proof. reflexivity. Qed.

Lemma find_append {A} (f : A → bool) (l k : list A) :
  find f (l ++ k) = match find f l with Some x => Some x | None => find f k end.
Proof.
  induction l as [|x l IH]; simpl; [done|]. by destruct (f x).
Qed.

(** X5.  [getAllGenres] lists every genre identifier of the movie table and
    of the series table exactly once: it holds the first entry of every
    identifier in the movie table followed by the series table, in the
    order in which these first entries stand there.  So for an identifier
    present in both tables the entry of the movie table is the one kept,
    and it stands among the movie genres. *)
Theorem getAllGenres_unique_first_wins (genresData : GenresData) :
  let combined := genres_movies genresData ++ genres_tv genresData in
  firstOccurrences genre_id combined (getAllGenres genresData)
  ∧ NoDup (map genre_id (getAllGenres genresData))
  ∧ (∀ g, g ∈ combined →
          ∃ kept, kept ∈ getAllGenres genresData ∧ genre_id kept = genre_id g)
  ∧ (∀ kept, kept ∈ getAllGenres genresData →
             find (fun g => genre_id g =? genre_id kept) combined = Some kept)
  ∧ sublist (getAllGenres genresData) combined
  ∧ (∀ g, g ∈ genres_movies genresData →
          ∃ kept, kept ∈ getAllGenres genresData
                  ∧ kept ∈ genres_movies genresData
                  ∧ genre_id kept = genre_id g)
  ∧ (∀ i j kept kept',
       getAllGenres genresData !! i = Some kept →
       getAllGenres genresData !! j = Some kept' →
       kept ∈ genres_movies genresData →
       genre_id kept' ∉ map genre_id (genres_movies genresData) →
       (i < j)%nat).
Proof.
  intros combined.
  assert (firstOccurrences genre_id combined (getAllGenres genresData)) as Hfirst
    by apply uniqueBy_firstOccurrences.
  assert (∀ i j kept kept',
            getAllGenres genresData !! i = Some kept →
            getAllGenres genresData !! j = Some kept' →
            kept ∈ genres_movies genresData →
            genre_id kept' ∉ map genre_id (genres_movies genresData) →
            (i < j)%nat) as Htables.
  { intros i j kept kept' Hi Hj Hmovie Hseries.
    destruct Hfirst as (Hnodup & _ & Hat & Horder).
    destruct (decide (i < j)%nat) as [|Hge]; [done|]. exfalso.
    assert (i ≠ j) as Hne.
    { intros ->. rewrite Hi in Hj. injection Hj as <-.
      apply Hseries, list_elem_of_fmap. by exists kept. }
    destruct (Horder j i kept' kept Hj Hi ltac:(lia))
      as (k' & k & Hk' & Hk & Hlt).
    destruct (Hat j kept' Hj) as (k0 & Hk0 & Hat').
    rewrite Hk' in Hk0. injection Hk0 as <-.
    apply list_elem_of_lookup_1 in Hmovie as [n Hn].
    unfold JS.findIndex in Hk. unfold combined in Hk, Hat'.
    rewrite findIndex_from_app in Hk.
    assert (k < length (genres_movies genresData))%nat as Hshort.
    { destruct (JS.findIndex_from (same genre_id kept) (genres_movies genresData) 0)
        as [k1|] eqn:E.
      - injection Hk as <-. apply findIndex_from_range in E. lia.
      - apply findIndex_from_None in E.
        assert (existsb (same genre_id kept) (genres_movies genresData) = true)
          as Hex; [|congruence].
        apply existsb_exists. exists kept.
        apply list_elem_of_lookup_2, list_elem_of_In in Hn. split; [done|].
        unfold same. apply Z.eqb_refl. }
    rewrite lookup_app_l in Hat' by lia.
    apply Hseries, list_elem_of_fmap. exists kept'.
    split; [done | by apply list_elem_of_lookup_2 in Hat']. }
  split; [exact Hfirst|].
  rewrite getAllGenres_uniqueBy, uniqueBy_keepNew in Htables |- *.
  fold combined in Htables |- *.
  assert (∀ g, g ∈ combined →
               ∃ kept, kept ∈ keepNew genre_id [] combined
                       ∧ genre_id kept = genre_id g) as Hall.
  { intros g Hg. destruct (keepNew_complete genre_id [] _ g Hg) as [Hnil|?]; [|done].
    by apply elem_of_nil in Hnil. }
  split; [apply keepNew_NoDup|]. split; [exact Hall|].
  split; [intros kept Hk; by apply keepNew_first in Hk|].
  split; [apply keepNew_sublist|]. split.
  - intros g Hg.
    destruct (Hall g) as (kept & Hkept & Hid);
      [unfold combined; apply elem_of_app; by left|].
    exists kept. split; [done|]. split; [|done].
    pose proof (keepNew_first genre_id [] combined kept Hkept) as Hfind.
    unfold combined in Hfind. rewrite find_append in Hfind.
    destruct (find (same genre_id kept) (genres_movies genresData)) as [k|] eqn:E.
    + injection Hfind as <-. apply find_some in E as [Hin _].
      by apply list_elem_of_In.
    + exfalso. apply list_elem_of_In in Hg.
      apply (find_none _ _ E) in Hg. unfold same in Hg.
      apply Z.eqb_neq in Hg. congruence.
  - exact Htables.
Qed.

(** In the table of the examples, "Animation" is in both tables: the entry
    of the movie table is kept, before the series genre "Drama". *)
Lemma getAllGenres_unique_first_wins_witness :
  map genre_id (getAllGenres Fixture.table) = [28; 12; 16; 18]
  ∧ NoDup (map genre_id (getAllGenres Fixture.table)).
Proof.
  destruct (getAllGenres_unique_first_wins Fixture.table) as (_ & Hnodup & _).
  split; [vm_compute; reflexivity | exact Hnodup].
Defined.

Lemma getRecommendedGenres_run (genresData : GenresData) (env : Env)
    (excludeSelected : bool) (w : World) :
  getRecommendedGenres genresData env excludeSelected w
  = (w, inr (if excludeSelected
             then List.filter
                    (fun genre => negb (JS.includes (readGenres env w) (genre_id genre)))
                    (getAllGenres genresData)
             else getAllGenres genresData)).
Proof.
  unfold getRecommendedGenres, try_catch, bind.
  rewrite getGenrePreferences_run. by destruct excludeSelected.
Qed.

(** X6.  [getRecommendedGenres] never throws.  Asked not to exclude, it
    returns the whole genre table; otherwise it returns, in table order,
    exactly the genres of the table that are not among the preferences
    read from the store -- the same list that [getGenreCompletionStatus]
    reports as missing. *)
Theorem recommended_genres_are_the_missing_ones
    (genresData : GenresData) (env : Env) (w : World) :
  result (getRecommendedGenres genresData env false) w
  = inr (getAllGenres genresData)
  ∧ ∃ recommended status,
      result (getRecommendedGenres genresData env true) w = inr recommended
      ∧ (∀ g, g ∈ recommended
              ↔ g ∈ getAllGenres genresData ∧ genre_id g ∉ readGenres env w)
      ∧ sublist recommended (getAllGenres genresData)
      ∧ result (getGenreCompletionStatus genresData env) w = inr status
      ∧ missingGenres status = recommended.
Proof.
  unfold result. rewrite !getRecommendedGenres_run. split; [done|].
  do 2 eexists. split; [reflexivity|]. split; [|split; [apply filter_sublist|]].
  - intros g. rewrite list_elem_of_In, filter_In, negb_true_iff,
      <- list_elem_of_In, <- not_true_iff_false, includes_elem_of. done.
  - unfold getGenreCompletionStatus, try_catch, bind.
    rewrite getGenrePreferences_run. split; reflexivity.
Qed.

(** ** Validation *)

Lemma distinct_length_from (l seen : list Z) :
  let distinctFrom :=
    fold_left (fun seen x => if JS.includes seen x then seen else seen ++ [x]) l seen in
  (length distinctFrom ≤ length seen + length l)%nat
  ∧ (length distinctFrom = (length seen + length l)%nat
     ↔ NoDup l ∧ ∀ x, x ∈ l → x ∉ seen).
Proof.
  revert seen. induction l as [|x l IH]; intros seen; simpl.
  - split; [lia|]. split; [|lia]. intros _. split; [constructor|].
    intros x Hx. by apply elem_of_nil in Hx.
  - destruct (JS.includes seen x) eqn:Hin.
    + destruct (IH seen) as [Hle _]. simpl in Hle. split; [lia|]. split; [lia|].
      intros [_ Hfresh]. exfalso. apply (Hfresh x); [by left|].
      by apply includes_elem_of.
    + assert (x ∉ seen) as Hx by (intros H%includes_elem_of; congruence).
      destruct (IH (seen ++ [x])) as [Hle Heq]. simpl in Hle, Heq.
      rewrite length_app in Hle, Heq. simpl in Hle, Heq.
      split; [lia|].
      replace (length seen + S (length l))%nat
        with (length seen + 1 + length l)%nat by lia.
      rewrite Heq. clear Heq Hle.
      rewrite NoDup_cons. split.
      * intros [Hnd Hfresh]. split; [split; [|done]|].
        -- intros Hxl. apply (Hfresh x Hxl), elem_of_app. right. by left.
        -- intros y [->|Hy]%elem_of_cons; [done|].
           intros Hys. apply (Hfresh y Hy), elem_of_app. by left.
      * intros [[Hxl Hnd] Hfresh]. split; [done|].
        intros y Hy [Hys|Hyx%list_elem_of_singleton]%elem_of_app.
        -- apply (Hfresh y); [by right | done].
        -- congruence.
Qed.

Lemma distinct_length (l : list Z) :
  length (distinct l) = length l ↔ NoDup l.
Proof.
  destruct (distinct_length_from l []) as [_ Heq]. simpl in Heq.
  unfold distinct. rewrite Heq. split; [tauto|]. intros Hnd. split; [done|].
  intros x _ Hx. by apply elem_of_nil in Hx.
Qed.

(** X7.  [validateGenrePreferences] never throws.  Its verdict is valid
    exactly when no error is reported, which is exactly when every genre
    read from the store is in the genre table; it warns about duplicates
    exactly when a genre occurs twice, about missing preferences exactly
    when the list is empty, and about too many exactly when there are more
    than 15. *)
Theorem validation_verdict (genresData : GenresData) (env : Env) (w : World) :
  let P := readGenres env w in
  ∃ v,
    result (validateGenrePreferences genresData env) w = inr v
    ∧ (isValid v = true ↔ errors v = [])
    ∧ (isValid v = true
       ↔ ∀ g, g ∈ P → g ∈ map genre_id (getAllGenres genresData))
    ∧ ("Duplicate genre preferences found" ∈ warnings v ↔ ¬ NoDup P)
    ∧ ("No genre preferences set - personalization will be limited" ∈ warnings v
       ↔ P = [])
    ∧ ("Very large number of genre preferences - may reduce specificity of recommendations"
         ∈ warnings v
       ↔ (15 < length P)%nat).
Proof.
  intros P. unfold result, validateGenrePreferences, try_catch, bind.
  rewrite getGenrePreferences_run. fold P. unfold ret.
  eexists. split; [reflexivity|]. cbn [isValid errors warnings].
  set (invalid := List.filter _ P).
  assert (invalid = [] ↔ ∀ g, g ∈ P → g ∈ map genre_id (getAllGenres genresData))
    as Hinvalid.
  { unfold invalid. split.
    - intros Hnil g Hg.
      destruct (JS.includes (map genre_id (getAllGenres genresData)) g) eqn:E;
        [by apply includes_elem_of|].
      assert (g ∈ ([] : list Z)) as Habs; [|by apply elem_of_nil in Habs].
      rewrite <- Hnil. apply list_elem_of_In, filter_In.
      split; [by apply list_elem_of_In | by rewrite E].
    - intros Hall. destruct (List.filter _ P) as [|g rest] eqn:E; [done|].
      assert (In g (g :: rest)) as Hg by (by left).
      rewrite <- E in Hg. apply filter_In in Hg as [Hg Hbad].
      apply list_elem_of_In, Hall, includes_elem_of in Hg.
      rewrite Hg in Hbad. discriminate Hbad. }
  split; [|split].
  - destruct invalid; simpl; split; done.
  - rewrite <- Hinvalid. destruct invalid; simpl; split; done.
  - pose proof (distinct_length P) as Hdistinct.
    destruct (Nat.eqb (length (distinct P)) (length P)) eqn:Edup;
      [apply Nat.eqb_eq in Edup | apply Nat.eqb_neq in Edup];
      destruct (Nat.eqb (length P) 0) eqn:Eempty;
      [apply Nat.eqb_eq in Eempty | apply Nat.eqb_neq in Eempty
       | apply Nat.eqb_eq in Eempty | apply Nat.eqb_neq in Eempty];
      destruct (Nat.ltb 15 (length P)) eqn:Elarge;
      [apply Nat.ltb_lt in Elarge | apply Nat.ltb_ge in Elarge
       | apply Nat.ltb_lt in Elarge | apply Nat.ltb_ge in Elarge
       | apply Nat.ltb_lt in Elarge | apply Nat.ltb_ge in Elarge
       | apply Nat.ltb_lt in Elarge | apply Nat.ltb_ge in Elarge];
      cbn [negb app];
      rewrite ?elem_of_cons, ?elem_of_nil;
      assert (P = [] ↔ length P = 0%nat) as HP by (destruct P; simpl; split; done);
      repeat split; intros; try tauto; try lia;
      repeat match goal with
        | H : _ ∨ _ |- _ => destruct H
        | H : False |- _ => destruct H
        | H : @eq string _ _ |- _ => discriminate H
        end;
      try tauto; try lia.
Qed.

Lemma validation_verdict_witness :
  ∃ v,
    result (validateGenrePreferences Fixture.table Fixture.online)
           (Fixture.started [28; 99; 28]) = inr v
    ∧ isValid v = false
    ∧ errors v = ["Invalid genre IDs found: 99"]
    ∧ warnings v = ["Duplicate genre preferences found"].
Proof.
  destruct (validation_verdict Fixture.table Fixture.online
              (Fixture.started [28; 99; 28])) as (v & Hrun & _).
  exists v. split; [exact Hrun|].
  vm_compute in Hrun. injection Hrun as <-. repeat split.
Defined.

(** ** Statistics, filtering and sorting by preference *)

Lemma filter_lengths_inclusion_exclusion {A} (f g : A → bool) (l : list A) :
  (length (List.filter f l) + length (List.filter g l)
   = length (List.filter (fun x => f x && g x)%bool l)
     + length (List.filter (fun x => f x || g x)%bool l))%nat.
Proof.
  induction l as [|x l IH]; simpl; [done|].
  destruct (f x), (g x); simpl; lia.
Qed.

Lemma filter_length_mono {A} (f g : A → bool) (l : list A) :
  (∀ x, f x = true → g x = true) →
  (length (List.filter f l) ≤ length (List.filter g l))%nat.
Proof.
  intros Hfg. induction l as [|x l IH]; simpl; [done|].
  destruct (f x) eqn:E.
  - rewrite (Hfg x E). simpl. lia.
  - destruct (g x); simpl; lia.
Qed.

Lemma definedNames_from (names : list (option string)) (name : string) :
  name ∈ definedNames names → Some name ∈ names.
Proof.
  induction names as [|[s|] names IH]; simpl.
  - by intros ?%elem_of_nil.
  - destruct (JS.truthy s).
    + intros [->|H]%elem_of_cons; [by left | right; by apply IH].
    + intros H. right. by apply IH.
  - intros H. right. by apply IH.
Qed.

Lemma definedNames_length (names : list (option string)) :
  (length (definedNames names) ≤ length names)%nat.
Proof.
  induction names as [|[s|] names IH]; simpl; [lia| |lia].
  destruct (JS.truthy s); simpl; lia.
Qed.

(** X8.  [getGenrePreferenceStats] never throws.  It counts every genre
    read from the store; the genres counted as common are counted both as
    movie genres and as series genres, so the movie count plus the series
    count minus the common count is the number of stored genres known to
    one of the two tables, and never exceeds the total; every reported name
    is the name of a genre of the table whose identifier is stored. *)
Theorem preference_stats_counts (genresData : GenresData) (env : Env) (w : World) :
  let P := readGenres env w in
  let movieIds := map genre_id (genres_movies genresData) in
  let tvIds := map genre_id (genres_tv genresData) in
  ∃ stats,
    result (getGenrePreferenceStats genresData env) w = inr stats
    ∧ totalSelected stats = length P
    ∧ (stats_commonGenres stats ≤ stats_movieGenres stats)%nat
    ∧ (stats_commonGenres stats ≤ stats_tvGenres stats)%nat
    ∧ (stats_movieGenres stats + stats_tvGenres stats
       = stats_commonGenres stats
         + length (List.filter
                     (fun id => JS.includes movieIds id || JS.includes tvIds id)%bool P))%nat
    ∧ (stats_movieGenres stats + stats_tvGenres stats
       ≤ stats_commonGenres stats + totalSelected stats)%nat
    ∧ (length (preferredGenreNames stats) ≤ totalSelected stats)%nat
    ∧ (∀ name, name ∈ preferredGenreNames stats →
         ∃ g, g ∈ getAllGenres genresData ∧ genre_name g = name ∧ genre_id g ∈ P).
Proof.
  intros P movieIds tvIds.
  unfold result, getGenrePreferenceStats, try_catch, bind.
  rewrite getGenrePreferences_run. fold P. unfold ret, getMovieGenres, getTVGenres.
  fold movieIds tvIds.
  eexists. split; [reflexivity|].
  cbn [totalSelected stats_movieGenres stats_tvGenres stats_commonGenres
       preferredGenreNames].
  pose proof (filter_lengths_inclusion_exclusion
                (fun id => JS.includes movieIds id)
                (fun id => JS.includes tvIds id) P) as Hie.
  pose proof (List.filter_length_le
                (fun id => JS.includes movieIds id || JS.includes tvIds id)%bool P).
  split; [done|]. split; [|split; [|split; [|split; [|split]]]].
  - apply filter_length_mono. by intros id [? _]%andb_prop.
  - apply filter_length_mono. by intros id [_ ?]%andb_prop.
  - exact Hie.
  - lia.
  - etransitivity; [apply definedNames_length|]. by rewrite length_map.
  - intros name Hname. apply definedNames_from in Hname.
    apply list_elem_of_fmap in Hname as (gid & Hfound & Hgid).
    destruct (find (fun g => genre_id g =? gid) (getAllGenres genresData))
      as [g|] eqn:E; [|discriminate Hfound].
    injection Hfound as ->. apply find_some in E as [Hin Heq].
    apply Z.eqb_eq in Heq. exists g.
    split; [by apply list_elem_of_In|]. split; [done|]. by rewrite Heq.
Qed.

Section Accuracy.
Import Double DoubleFacts.

(** The weighted sum [a * 0.7 + b * 0.3] of two numbers between 0 and 1,
    each rounded first. *)
Lemma weighted_sum_close (a b : Q) :
  (0 <= a <= 1)%Q → (0 <= b <= 1)%Q →
  (a * (7 # 10) + b * (3 # 10) - 7 * eps
   <= add (mul (round a) (number (7 # 10))) (mul (round b) (number (3 # 10)))
   <= a * (7 # 10) + b * (3 # 10) + 7 * eps)%Q.
Proof.
  intros Ha Hb. unfold add, mul. rewrite number_07, number_03.
  pose proof (round_error a ltac:(lra) ltac:(lra)) as Ha'.
  pose proof (round_error b ltac:(lra) ltac:(lra)) as Hb'.
  pose proof (round_nonneg a ltac:(lra)) as Ha0.
  pose proof (round_nonneg b ltac:(lra)) as Hb0.
  revert Ha' Hb' Ha0 Hb0. generalize (round a), (round b).
  intros a' b' Ha' Hb' Ha0 Hb0. unfold eps in *.
  assert (0 <= a' * (6305039478318694 # 9007199254740992) < 2)%Q as Hp1 by lra.
  assert (0 <= b' * (5404319552844595 # 18014398509481984) < 2)%Q as Hp2 by lra.
  pose proof (round_error _ (proj1 Hp1) (proj2 Hp1)) as Ht1.
  pose proof (round_error _ (proj1 Hp2) (proj2 Hp2)) as Ht2.
  pose proof (round_nonneg _ (proj1 Hp1)) as Ht10.
  pose proof (round_nonneg _ (proj1 Hp2)) as Ht20.
  revert Ht1 Ht2 Ht10 Ht20.
  generalize (round (a' * (6305039478318694 # 9007199254740992))),
    (round (b' * (5404319552844595 # 18014398509481984))).
  intros t1 t2 Ht1 Ht2 Ht10 Ht20. unfold eps in *.
  assert (0 <= t1 + t2 < 2)%Q as Hp by lra.
  pose proof (round_error _ (proj1 Hp) (proj2 Hp)) as Hs.
  revert Hs. generalize (round (t1 + t2)). intros s Hs. unfold eps in *. lra.
Qed.

(** The computed match score differs from the exact one by at most
    [closeness]. *)
Lemma computedScoreOf_close (P G : list Z) :
  NoDup G →
  (scoreOf P G - closeness <= computedScoreOf P G <= scoreOf P G + closeness)%Q.
Proof.
  intros HG. unfold scoreOf, computedScoreOf.
  destruct P as [|p P']; [cbn; unfold closeness; lra|].
  destruct G as [|g G']; [cbn; unfold closeness; lra|].
  cbn [length Nat.eqb orb]. cbv zeta.
  set (matching := List.filter _ (g :: G')).
  destruct (ratio_bounds (len matching) (len (p :: P'))) as [? ?];
    [apply len_nonneg | apply len_le, matching_le_preferences; done
     | by apply len_pos |].
  destruct (ratio_bounds (len matching) (len (g :: G'))) as [? ?];
    [apply len_nonneg | apply len_le, matching_le_content | by apply len_pos |].
  pose proof (weighted_sum_close (len matching / len (p :: P'))
                (len matching / len (g :: G')) ltac:(done) ltac:(done)) as Hclose.
  unfold Double.div. unfold closeness, eps in *. lra.
Qed.

(** One preferred genre out of seven, in an item with three genres: the
    exact score is 0.2, the computed one is the Number just below the
    Number [0.2], so the default threshold rejects the item. *)
Example score_at_the_threshold :
  let P := [1; 2; 3; 4; 5; 6; 7] in
  let G := [1; 99; 98] in
  (scoreOf P G == 2 # 10)%Q
  ∧ (computedScoreOf P G < defaultMinScore)%Q
  ∧ computedScoreOf P G = 7205759403792793 # 36028797018963968.
Proof. vm_compute. repeat split; congruence. Qed.

Lemma defaultMinScore_below_03 : (defaultMinScore <= number (3 # 10))%Q.
Proof. vm_compute. discriminate. Qed.

Lemma filter_all_preferred (P G : list Z) :
  (∀ g, g ∈ G → g ∈ P) → List.filter (fun id => JS.includes P id) G = G.
Proof.
  intros Hall. induction G as [|g G IH]; [done|]. simpl.
  assert (JS.includes P g = true) as ->.
  { apply includes_elem_of, Hall. by left. }
  f_equal. apply IH. intros x Hx. apply Hall. by right.
Qed.

Lemma computedScoreOf_all_preferred (P G : list Z) :
  P ≠ [] → G ≠ [] → (∀ g, g ∈ G → g ∈ P) →
  (number (3 # 10) <= computedScoreOf P G)%Q.
Proof.
  intros HP HG Hall. unfold computedScoreOf.
  destruct P as [|p P']; [done|]. destruct G as [|g G']; [done|].
  cbn [length Nat.eqb orb]. cbv zeta.
  rewrite filter_all_preferred by done.
  pose proof (len_pos (g :: G') HG) as Hlen.
  pose proof (len_pos (p :: P') HP) as HlenP.
  assert (len (g :: G') / len (g :: G') == 1)%Q as Hone by (field; lra).
  assert (0 <= len (g :: G') / len (p :: P'))%Q as Hratio.
  { apply Qle_shift_div_l; [done|]. lra. }
  pose proof number_03_nonneg as H03.
  unfold Double.div, Double.mul, Double.add.
  assert (round (len (g :: G') / len (g :: G')) == 1)%Q as Hr1.
  { apply Qeq_trans with (round 1); [apply round_Qeq; lra | apply round_1]. }
  assert (round (round (len (g :: G') / len (g :: G')) * number (3 # 10))
          == number (3 # 10))%Q as Ht2.
  { apply Qeq_trans with (round (number (3 # 10))); [|apply number_03_fixed].
    apply round_Qeq.
    - revert Hr1. generalize (round (len (g :: G') / len (g :: G'))).
      revert H03. generalize (number (3 # 10)). intros; nra.
    - revert Hr1. generalize (round (len (g :: G') / len (g :: G'))).
      generalize (number (3 # 10)). intros c r Hr. rewrite Hr. ring. }
  pose proof (round_nonneg _ Hratio) as Ha.
  assert (0 <= round (len (g :: G') / len (p :: P')) * number (7 # 10))%Q as Hx.
  { pose proof (round_nonneg (7 # 10) ltac:(lra)) as H07. unfold number.
    revert Ha H07. generalize (round (len (g :: G') / len (p :: P'))), (round (7 # 10)).
    intros; nra. }
  pose proof (round_nonneg _ Hx) as Ht1.
  revert Ht1 Ht2.
  generalize (round (round (len (g :: G') / len (p :: P')) * number (7 # 10))).
  generalize (round (round (len (g :: G') / len (g :: G')) * number (3 # 10))).
  intros t2 t1 Ht1 Ht2.
  assert (0 <= t2)%Q as Ht20 by lra.
  pose proof (round_mono t2 (t1 + t2) Ht20 ltac:(lra)) as Hmono.
  assert (round t2 == number (3 # 10))%Q as Hfix.
  { apply Qeq_trans with (round (number (3 # 10))); [|apply number_03_fixed].
    by apply round_Qeq. }
  lra.
Qed.

End Accuracy.

Lemma computed_getGenreMatchScore_run (env : Env) (G : list Z) (w : World) :
  Computed.getGenreMatchScore env G w
  = (w, inr (computedScoreOf (readGenres env w) G)).
Proof.
  unfold Computed.getGenreMatchScore, try_catch, bind.
  rewrite getGenrePreferences_run. unfold computedScoreOf.
  by destruct (Nat.eqb (length (readGenres env w)) 0 || Nat.eqb (length G) 0)%bool.
Qed.

Lemma matchScoreAt_computed (env : Env) (w : World) (item : ContentItem) :
  matchScoreAt env w item = computedScoreOf (readGenres env w) (genre_ids item).
Proof. unfold matchScoreAt, result. by rewrite computed_getGenreMatchScore_run. Qed.

Lemma filterByScore_run (env : Env) (minScore : Q) (content acc : list ContentItem)
    (w : World) :
  filterByScore env minScore content acc w
  = (w, inr (acc ++ List.filter
                      (fun item => Qle_bool minScore (matchScoreAt env w item))
                      content)).
Proof.
  revert acc. induction content as [|item content IH]; intros acc; simpl.
  - by rewrite app_nil_r.
  - unfold bind. rewrite matchScoreAt_computed.
    rewrite computed_getGenreMatchScore_run.
    destruct (Qle_bool minScore (computedScoreOf (readGenres env w) (genre_ids item))).
    + rewrite IH. by rewrite <- app_assoc.
    + by rewrite IH.
Qed.

(** An item without a preferred genre gets the score 0. *)
Lemma computedScoreOf_none_preferred (P G : list Z) :
  (∀ g, g ∈ G → g ∉ P) → computedScoreOf P G = 0%Q.
Proof.
  intros Hnone. unfold computedScoreOf.
  destruct (Nat.eqb (length P) 0 || Nat.eqb (length G) 0)%bool; [done|].
  assert (List.filter (fun id => JS.includes P id) G = []) as ->.
  { destruct (List.filter _ G) as [|x l] eqn:E; [done|].
    assert (In x (x :: l)) as Hx by (by left).
    rewrite <- E in Hx. apply filter_In in Hx as [Hx Hin].
    apply includes_elem_of in Hin. apply list_elem_of_In in Hx.
    by destruct (Hnone x Hx). }
  cbv zeta. unfold Double.add, Double.mul, Double.div.
  assert (∀ d, Double.round (len (@nil Z) / d) = 0%Q) as Hdiv.
  { intros d. apply DoubleFacts.round_zero. unfold len. simpl. unfold Qdiv. ring. }
  rewrite !Hdiv.
  assert (∀ c, Double.round (0 * c) = 0%Q) as Hmul.
  { intros c. apply DoubleFacts.round_zero. ring. }
  rewrite !Hmul. by apply DoubleFacts.round_zero.
Qed.

(** X9.  [filterContentByGenrePreferences] never throws.  Without
    preferences every item is returned.  With preferences it returns, in
    their order, exactly the items of [content] for which the score that
    [getGenreMatchScore] computes -- in binary64 arithmetic -- is at least
    [minScore].  An item none of whose genres is preferred has the score 0,
    so with a positive threshold every item kept has a preferred genre.
    An item with genres all of which are preferred is kept whenever
    [minScore] is at most the Number [0.3], as the default [0.2] is.  For
    an item without a repeated genre the computed score is within [2^-50]
    of the exact score [|M|/|P| * 0.7 + |M|/|G| * 0.3]. *)
Theorem filter_by_preferences_keeps (env : Env) (w : World)
    (content : list ContentItem) (minScore : Q) :
  let P := readGenres env w in
  ∃ kept,
    result (filterContentByGenrePreferences env content minScore) w = inr kept
    ∧ sublist kept content
    ∧ (P = [] → kept = content)
    ∧ (P ≠ [] →
       kept = List.filter
                (fun item => Qle_bool minScore (matchScoreAt env w item)) content
       ∧ (∀ item, item ∈ kept
                  ↔ item ∈ content ∧ (minScore <= matchScoreAt env w item)%Q)
       ∧ (∀ item, (∀ g, g ∈ genre_ids item → g ∉ P) →
                  matchScoreAt env w item = 0%Q)
       ∧ ((0 < minScore)%Q →
          ∀ item, item ∈ kept → ∃ g, g ∈ genre_ids item ∧ g ∈ P)
       ∧ ((minScore <= Double.number (3 # 10))%Q →
          ∀ item, item ∈ content → genre_ids item ≠ [] →
                  (∀ g, g ∈ genre_ids item → g ∈ P) → item ∈ kept))
    ∧ (defaultMinScore <= Double.number (3 # 10))%Q
    ∧ (∀ item, NoDup (genre_ids item) →
         (scoreOf P (genre_ids item) - closeness
          <= matchScoreAt env w item
          <= scoreOf P (genre_ids item) + closeness)%Q).
Proof.
  intros P.
  assert (∀ item, NoDup (genre_ids item) →
            (scoreOf P (genre_ids item) - closeness
             <= matchScoreAt env w item
             <= scoreOf P (genre_ids item) + closeness)%Q) as Hclose.
  { intros item Hnodup. rewrite matchScoreAt_computed.
    by apply computedScoreOf_close. }
  cut (∃ kept,
    result (filterContentByGenrePreferences env content minScore) w = inr kept
    ∧ sublist kept content
    ∧ (P = [] → kept = content)
    ∧ (P ≠ [] →
       kept = List.filter
                (fun item => Qle_bool minScore (matchScoreAt env w item)) content
       ∧ (∀ item, item ∈ kept
                  ↔ item ∈ content ∧ (minScore <= matchScoreAt env w item)%Q)
       ∧ (∀ item, (∀ g, g ∈ genre_ids item → g ∉ P) →
                  matchScoreAt env w item = 0%Q)
       ∧ ((0 < minScore)%Q →
          ∀ item, item ∈ kept → ∃ g, g ∈ genre_ids item ∧ g ∈ P)
       ∧ ((minScore <= Double.number (3 # 10))%Q →
          ∀ item, item ∈ content → genre_ids item ≠ [] →
                  (∀ g, g ∈ genre_ids item → g ∈ P) → item ∈ kept))).
  { intros (kept & H1 & H2 & H3 & H4). exists kept.
    split; [exact H1|]. split; [exact H2|]. split; [exact H3|]. split; [exact H4|].
    split; [apply defaultMinScore_below_03 | exact Hclose]. }
  clear Hclose.
  unfold result, filterContentByGenrePreferences, try_catch, bind.
  rewrite getGenrePreferences_run. fold P.
  destruct P as [|p P'] eqn:HP; cbn [length Nat.eqb].
  - exists content. repeat split; done.
  - rewrite filterByScore_run. cbn [snd app]. eexists. split; [reflexivity|].
    split; [apply filter_sublist|]. split; [done|]. intros _.
    assert (∀ item,
              item ∈ List.filter
                       (fun item => Qle_bool minScore (matchScoreAt env w item))
                       content
              ↔ item ∈ content ∧ (minScore <= matchScoreAt env w item)%Q) as Hkept.
    { intros item. by rewrite list_elem_of_In, filter_In, <- list_elem_of_In,
        Qle_bool_iff. }
    split; [done|]. split; [exact Hkept|]. split; [|split].
    + intros item Hnone. rewrite matchScoreAt_computed. fold P. rewrite HP.
      by apply computedScoreOf_none_preferred.
    + intros Hpos item Hitem. apply Hkept in Hitem as [_ Hscore].
      rewrite matchScoreAt_computed in Hscore. fold P in Hscore. rewrite HP in Hscore.
      destruct (List.filter (fun id => JS.includes (p :: P') id) (genre_ids item))
        as [|g l] eqn:E.
      * exfalso.
        assert (computedScoreOf (p :: P') (genre_ids item) = 0%Q) as Hzero;
          [|rewrite Hzero in Hscore; lra].
        apply computedScoreOf_none_preferred. intros g Hg Hin.
        assert (In g []) as Habs; [|done].
        rewrite <- E. apply filter_In. split; [by apply list_elem_of_In|].
        by apply includes_elem_of.
      * exists g. assert (In g (g :: l)) as Hg by (by left).
        rewrite <- E in Hg. apply filter_In in Hg as [Hg Hin].
        split; [by apply list_elem_of_In | by apply includes_elem_of].
    + intros Hmin item Hitem Hgenres Hall. apply Hkept. split; [done|].
      rewrite matchScoreAt_computed. fold P. rewrite HP.
      pose proof (computedScoreOf_all_preferred (p :: P') (genre_ids item)
                    ltac:(done) Hgenres Hall) as Hscore.
      lra.
Qed.

Lemma filter_by_preferences_keeps_witness :
  result (filterContentByGenrePreferences Fixture.online
            [IsMovie Fixture.amelie; IsMovie Fixture.heat; IsTVShow Fixture.arcane]
            defaultMinScore)
         (Fixture.started [28; 80; 18])
  = inr [IsMovie Fixture.heat; IsTVShow Fixture.arcane].
Proof.
  destruct (filter_by_preferences_keeps Fixture.online (Fixture.started [28; 80; 18])
              [IsMovie Fixture.amelie; IsMovie Fixture.heat; IsTVShow Fixture.arcane]
              defaultMinScore) as (kept & Hrun & _).
  rewrite Hrun. vm_compute in Hrun. injection Hrun as <-. reflexivity.
Defined.

Lemma insertDesc_scored {A} (k : A → Q) (x : A) (l : list A) :
  JS.insertDesc snd (x, k x) (map (fun y => (y, k y)) l)
  = map (fun y => (y, k y)) (JS.insertDesc k x l).
Proof.
  induction l as [|y l IH]; simpl; [done|].
  unfold JS.before. simpl. destruct (Qle_bool (k y) (k x)); simpl; [done|].
  by rewrite IH.
Qed.

(** Sorting the pairs of items and scores and dropping the scores is
    sorting the items by their score. *)
Lemma sortDesc_scored {A} (k : A → Q) (l : list A) :
  map fst (JS.sortDesc snd (map (fun x => (x, k x)) l)) = JS.sortDesc k l.
Proof.
  assert (JS.sortDesc snd (map (fun x => (x, k x)) l)
          = map (fun x => (x, k x)) (JS.sortDesc k l)) as ->.
  { induction l as [|x l IH]; simpl; [done|].
    rewrite IH. apply insertDesc_scored. }
  rewrite map_map. simpl. apply map_id.
Qed.

Lemma withScores_run (env : Env) (content : list ContentItem) (w : World) :
  withScores env content w
  = (w, inr (map (fun item => (item, matchScoreAt env w item)) content)).
Proof.
  induction content as [|item content IH]; simpl; [done|].
  unfold bind. rewrite computed_getGenreMatchScore_run, IH.
  by rewrite matchScoreAt_computed.
Qed.

(** X10.  [sortContentByGenrePreferences] never throws; it returns the
    items of [content], each as often as it occurs there, in descending
    order of the score that [getGenreMatchScore] computes for them in
    binary64 arithmetic; items with the same score keep the order they
    have in [content]. *)
Theorem sort_by_preferences_sorted (env : Env) (w : World) (content : list ContentItem) :
  ∃ sorted,
    result (sortContentByGenrePreferences env content) w = inr sorted
    ∧ sorted ≡ₚ content
    ∧ sortedDesc (matchScoreAt env w) sorted
    ∧ keepsTies (matchScoreAt env w) content sorted.
Proof.
  unfold result, sortContentByGenrePreferences, try_catch, bind.
  rewrite withScores_run. unfold ret. cbn [snd]. rewrite sortDesc_scored.
  eexists. split; [reflexivity|].
  split; [apply sortDesc_Permutation|].
  split; [apply sortDesc_sorted | apply sortDesc_keepsTies].
Qed.

(** Two items whose exact scores are both 0.375: the computed scores
    differ, and the sort puts the larger one first. *)
Example sort_by_preferences_rounds_the_scores :
  let P := [1; 2; 3; 4; 5; 6; 7; 8] in
  let a := IsMovie (Fixture.mk_movie 1 "A" 7 1 [1; 2; 3; 91; 92; 93; 94; 95]) in
  let b := IsMovie (Fixture.mk_movie 2 "B" 7 1 [1; 2; 99]) in
  (scoreOf P (genre_ids a) == scoreOf P (genre_ids b))%Q
  ∧ (computedScoreOf P (genre_ids a) < computedScoreOf P (genre_ids b))%Q
  ∧ result (sortContentByGenrePreferences Fixture.online [a; b]) (Fixture.started P)
    = inr [b; a].
Proof. vm_compute. repeat split; congruence. Qed.

(** ** Resetting the preferences *)

(** X11.  With a working write, [resetUserPreferences] stores and returns
    the default preferences; afterwards no genre is preferred and
    [getSimpleRecommendations] builds the general categories.  When the
    write fails it throws a [StorageError] and the state is unchanged. *)
Theorem reset_returns_to_general_mode (env : Env) (w : World) :
  let w' := final (resetUserPreferences env) w in
  (setItem_fails env = false →
   result (resetUserPreferences env) w = inr defaultPreferences
   ∧ asyncStorage w' = Some defaultPreferences
   ∧ result (getGenrePreferences env) w' = inr []
   ∧ result (hasUserPreferences env) w' = inr false
   ∧ result (getSimpleRecommendations env) w'
     = result (getFallbackCategories env) w')
  ∧ (setItem_fails env = true →
     result (resetUserPreferences env) w
     = inl (StorageError "Failed to reset user preferences" "RESET_PREFERENCES")
     ∧ w' = w).
Proof.
  intros w'. subst w'.
  unfold result, final, resetUserPreferences, setStorageItem, try_catch, bind,
    AsyncStorage_setItem, modify, throw, ret.
  split; intros Hset; rewrite Hset; cbn [fst snd]; [|done].
  set (w' := with_asyncStorage (Some defaultPreferences) w).
  assert (readGenres env w' = []) as Hread.
  { unfold readGenres. by destruct (getItem_fails env). }
  split; [done|]. split; [done|].
  rewrite getGenrePreferences_run, hasUserPreferences_run, Hread.
  split; [done|]. split; [done|].
  apply getSimpleRecommendations_general. rewrite Hread. simpl. lia.
Qed.

Lemma reset_returns_to_general_mode_witness :
  result (hasUserPreferences Fixture.online)
         (final (resetUserPreferences Fixture.online) (Fixture.started [28; 12; 16]))
  = inr false.
Proof.
  destruct (reset_returns_to_general_mode Fixture.online
              (Fixture.started [28; 12; 16])) as [Hok _].
  destruct (Hok eq_refl) as (_ & _ & _ & Hmode & _). exact Hmode.
Defined.

(** X12.  The mode of the recommendation engine follows the completion
    status: [hasUserPreferences] answers what [getGenreCompletionStatus]
    reports as complete; when incomplete, [getSimpleRecommendations] returns
    what [getFallbackCategories] returns, and when complete it returns what
    [getPersonalizedCategories] returns for the genres read from the
    store. *)
Theorem mode_follows_completion_status (genresData : GenresData) (env : Env)
    (w : World) :
  ∃ status,
    result (getGenreCompletionStatus genresData env) w = inr status
    ∧ result (hasUserPreferences env) w = inr (isComplete status)
    ∧ (isComplete status = false →
       result (getSimpleRecommendations env) w
       = result (getFallbackCategories env) w)
    ∧ (isComplete status = true →
       result (getSimpleRecommendations env) w
       = result (getPersonalizedCategories env (readGenres env w)) w).
Proof.
  unfold result at 1 2. unfold getGenreCompletionStatus, try_catch, bind.
  rewrite getGenrePreferences_run, hasUserPreferences_run. unfold ret.
  eexists. split; [reflexivity|]. cbn [isComplete snd]. split; [done|]. split.
  - intros Hno%Nat.leb_gt. by apply getSimpleRecommendations_general.
  - intros Hyes%Nat.leb_le. by apply getSimpleRecommendations_personalized.
Qed.

Lemma mode_follows_completion_status_witness :
  result (getSimpleRecommendations Fixture.online) (Fixture.started [28; 12])
  = result (getFallbackCategories Fixture.online) (Fixture.started [28; 12]).
Proof.
  destruct (mode_follows_completion_status Fixture.table Fixture.online
              (Fixture.started [28; 12])) as (status & Hrun & _ & Hgeneral & _).
  apply Hgeneral. vm_compute in Hrun. by injection Hrun as <-.
Defined.

(** * Further properties of the recommendation engine *)

Lemma sortedDesc_rekey {A} (k k' : A → Q) (l : list A) :
  (∀ a b, (k b <= k a)%Q → (k' b <= k' a)%Q) →
  sortedDesc k l → sortedDesc k' l.
Proof.
  intros Hmono. unfold sortedDesc. induction 1 as [|x l Hs IH Hx]; constructor;
    [done|]. eapply Forall_impl; [exact Hx|]. intros y. apply Hmono.
Qed.


Lemma scoreContent_unfold (item : ContentItem) (userGenres : list Z) :
  userGenres ≠ [] →
  scoreContent item userGenres
  = (len (List.filter (fun genreId => JS.includes userGenres genreId) (genre_ids item))
       / len userGenres * (7 # 10)
     + vote_average item / 10 * (3 # 10))%Q.
Proof.
  intros HP. unfold scoreContent.
  destruct userGenres as [|p P]; [done|]. cbn [length Nat.eqb].
  cbv zeta. unfold len. do 4 f_equal. simpl length. lia.
Qed.



Section RankingAccuracy.
Import Double DoubleFacts.

(** The computed [scoreContent] differs from the exact one by at most
    [closeness]. *)
Lemma computed_scoreContent_close (item : ContentItem) (userGenres : list Z) :
  (0 <= vote_average item <= 10)%Q → NoDup (genre_ids item) →
  (scoreContent item userGenres - closeness
   <= Computed.scoreContent item userGenres
   <= scoreContent item userGenres + closeness)%Q.
Proof.
  intros Hrating Hnodup.
  pose proof (round_error_16 (vote_average item) ltac:(lra) ltac:(lra)) as Hv.
  pose proof (round_nonneg (vote_average item) ltac:(lra)) as Hv0.
  pose proof (round_mono (vote_average item) 10 ltac:(lra) ltac:(lra)) as Hv10.
  rewrite round_10 in Hv10.
  destruct userGenres as [|p P] eqn:HP.
  - unfold scoreContent, Computed.scoreContent, Double.div, Double.number.
    cbn [length Nat.eqb]. revert Hv Hv0 Hv10.
    generalize (round (vote_average item)). intros v' Hv Hv0 Hv10.
    change (v' / 10)%Q with (v' * (1 # 10))%Q.
    change (vote_average item / 10)%Q with (vote_average item * (1 # 10))%Q.
    unfold eps in *.
    assert (0 <= v' * (1 # 10) < 2)%Q as Hr by lra.
    pose proof (round_error _ (proj1 Hr) (proj2 Hr)) as Hr'.
    revert Hr'. generalize (round (v' * (1 # 10))). intros r Hr'.
    unfold closeness, eps in *. lra.
  - rewrite <- HP. assert (userGenres ≠ []) as Hne by (by rewrite HP).
    rewrite scoreContent_unfold by done.
    unfold Computed.scoreContent.
    assert (Nat.eqb (length userGenres) 0 = false) as -> by (by rewrite HP).
    assert (inject_Z (Z.max (Z.of_nat (length userGenres)) 1) = len userGenres) as ->.
    { unfold len. f_equal. rewrite HP. simpl length. lia. }
    cbv zeta. set (matching := List.filter _ (genre_ids item)).
    destruct (ratio_bounds (len matching) (len userGenres)) as [? ?];
      [apply len_nonneg | apply len_le, matching_le_preferences; done
       | by apply len_pos |].
    unfold Double.div, Double.number.
    revert Hv Hv0 Hv10. generalize (round (vote_average item)).
    intros v' Hv Hv0 Hv10.
    change (v' / 10)%Q with (v' * (1 # 10))%Q.
    change (vote_average item / 10)%Q with (vote_average item * (1 # 10))%Q.
    assert (0 <= v' * (1 # 10) <= 1)%Q as Hb by lra.
    pose proof (weighted_sum_close (len matching / len userGenres) (v' * (1 # 10))
                  ltac:(done) Hb) as Hclose.
    unfold Double.number in Hclose. revert Hclose.
    generalize (add (mul (round (len matching / len userGenres)) (round (7 # 10)))
                    (mul (round (v' * (1 # 10))) (round (3 # 10)))).
    intros c Hclose. unfold closeness, eps in *. lra.
Qed.

End RankingAccuracy.

Lemma getPersonalizedContent_run (content : list ContentItem)
    (userGenres : list Z) (limit : nat) :
  getPersonalizedContent content userGenres limit
  = (JS.slice0 limit (JS.sortDesc (rankingKey userGenres) content),
     if Nat.eqb (length userGenres) 0
     then JS.sortDesc (rankingKey userGenres) content else content).
Proof.
  unfold getPersonalizedContent, rankingKey.
  destruct (Nat.eqb (length userGenres) 0); [done|]. by rewrite sortDesc_scored.
Qed.

(** X14.  [getPersonalizedContent] returns the first [limit] items of
    [content] put in descending order of the ranking key -- the rating when
    no genres are given, otherwise the [scoreContent] the engine computes
    in binary64 arithmetic -- items with the same key staying in the order
    of [content].  So at most [limit] items are returned, and an item is
    left out only when [limit] items were returned and none of them has a
    smaller key.  The argument array keeps its items; with genres it is
    not reordered, without genres it is left sorted by rating.  For an
    item rated between 0 and 10 without a repeated genre the computed
    score is within [2^-50] of the exact [scoreContent]. *)
Theorem personalized_content_is_the_top (content : list ContentItem)
    (userGenres : list Z) (limit : nat) :
  let selected := fst (getPersonalizedContent content userGenres limit) in
  let left := snd (getPersonalizedContent content userGenres limit) in
  topOf (rankingKey userGenres) limit content selected
  ∧ length selected = Nat.min limit (length content)
  ∧ (∀ item, item ∈ content → item ∉ selected →
       length selected = limit
       ∧ ∀ kept, kept ∈ selected →
                 (rankingKey userGenres item <= rankingKey userGenres kept)%Q)
  ∧ left ≡ₚ content
  ∧ (userGenres ≠ [] → left = content)
  ∧ (userGenres = [] →
     sortedDesc vote_average left ∧ selected = JS.slice0 limit left)
  ∧ (userGenres ≠ [] →
     ∀ item, (0 <= vote_average item <= 10)%Q → NoDup (genre_ids item) →
             (scoreContent item userGenres - closeness
              <= rankingKey userGenres item
              <= scoreContent item userGenres + closeness)%Q).
Proof.
  intros selected left. subst selected left.
  rewrite getPersonalizedContent_run. cbn [fst snd].
  pose proof (slice0_sortDesc_topOf (rankingKey userGenres) limit content) as Htop.
  split; [exact Htop|]. split; [apply Htop|].
  split; [apply (topOf_spec _ _ _ _ Htop)|]. split; [|split; [|split]].
  - destruct (Nat.eqb (length userGenres) 0); [|done]. apply sortDesc_Permutation.
  - intros Hne. by destruct userGenres.
  - intros ->. cbn [length Nat.eqb]. split; [|done].
    apply (sortDesc_sorted vote_average).
  - intros Hne item Hrating Hnodup. unfold rankingKey.
    assert (Nat.eqb (length userGenres) 0 = false) as -> by (by destruct userGenres).
    by apply computed_scoreContent_close.
Qed.

Lemma personalized_content_is_the_top_witness :
  snd (getPersonalizedContent
         [IsMovie Fixture.amelie; IsMovie Fixture.heat] [28; 12; 16] 1)
  = [IsMovie Fixture.amelie; IsMovie Fixture.heat]
  ∧ fst (getPersonalizedContent
           [IsMovie Fixture.amelie; IsMovie Fixture.heat] [28; 12; 16] 1)
    = [IsMovie Fixture.heat].
Proof.
  destruct (personalized_content_is_the_top
              [IsMovie Fixture.amelie; IsMovie Fixture.heat] [28; 12; 16] 1)
    as (_ & _ & _ & _ & Hkeeps & _).
  split; [apply Hkeeps; discriminate | vm_compute; reflexivity].
Defined.

(** Two items whose exact scores are both 0.243: the computed scores
    differ, and the one with the larger computed score is selected. *)
Example personalized_content_rounds_the_scores :
  let P := [1; 2; 3; 4; 5; 6; 7; 8; 9; 10] in
  let a := IsMovie (Fixture.mk_movie 1 "A" (81 # 10) 1 [99]) in
  let b := IsMovie (Fixture.mk_movie 2 "B" (11 # 10) 1 [1; 2; 3]) in
  (scoreContent a P == scoreContent b P)%Q
  ∧ (Computed.scoreContent a P < Computed.scoreContent b P)%Q
  ∧ fst (getPersonalizedContent [a; b] P 1) = [b].
Proof. vm_compute. repeat split; congruence. Qed.

(** X15.  Whenever at least three genres are read from the store,
    [getSimpleRecommendations] returns "For You", "Trending Now" and at
    most two further categories.  "For You" holds the first 20 items of
    the pool in descending order of the [scoreContent] the engine computes
    in binary64 arithmetic; "Trending Now" holds the first 20 items of the
    pool in descending order of popularity; every further category belongs
    to one of the first two stored genres and holds the best rated items
    of that genre. *)
Theorem personalized_mode_categories (env : Env) (w : World) :
  (3 ≤ length (readGenres env w))%nat →
  let userGenres := readGenres env w in
  let pool := pooledContent env userGenres w in
  ∃ forYou trending best,
    result (getSimpleRecommendations env) w = inr (forYou :: trending :: best)
    ∧ title forYou = "For You"
    ∧ topOf (fun item => Computed.scoreContent item userGenres) 20 pool (data forYou)
    ∧ (length (data forYou) ≤ 20)%nat
    ∧ sortedDesc (fun item => Computed.scoreContent item userGenres) (data forYou)
    ∧ (∀ item, item ∈ data forYou → item ∈ pool)
    ∧ title trending = "Trending Now"
    ∧ topOf popularity 20 pool (data trending)
    ∧ (length (data trending) ≤ 20)%nat
    ∧ sortedDesc popularity (data trending)
    ∧ (∀ item, item ∈ data trending → item ∈ pool)
    ∧ (length best ≤ 2)%nat
    ∧ (∀ c, c ∈ best →
         ∃ genreId,
           genreId ∈ JS.slice0 2 userGenres
           ∧ cat_id c = ("genre-" ++ JS.toString genreId)%string
           ∧ bestOfGenre genreId pool (data c)).
Proof.
  intros Hlen userGenres pool.
  rewrite getSimpleRecommendations_personalized by done.
  rewrite getPersonalizedCategories_run. fold userGenres pool.
  fold userGenres in Hlen. clearbody pool. clearbody userGenres.
  rewrite getPersonalizedContent_run.
  assert (rankingKey userGenres
          = fun item => Computed.scoreContent item userGenres) as ->.
  { unfold rankingKey. destruct userGenres; [simpl in Hlen; lia | done]. }
  assert (Nat.eqb (length userGenres) 0 = false) as ->
    by (destruct userGenres; [simpl in Hlen; lia | done]).
  cbn [fst snd].
  set (allContent := JS.sortDesc popularity pool).
  assert (allContent ≡ₚ pool) as Hp by apply sortDesc_Permutation.
  destruct userGenres as [|g1 [|g2 rest]];
    [simpl in Hlen; lia | simpl in Hlen; lia |].
  change (JS.slice0 2 (g1 :: g2 :: rest)) with [g1; g2]. cbn [fold_left].
  rewrite !pushGenreCategory_run, !(hasGenre_Permutation _ _ _ Hp).
  rewrite <- !app_assoc. cbn [app].
  do 3 eexists. split; [reflexivity|]. cbn [title data cat_id].
  split; [done|].
  pose proof (slice0_sortDesc_topOf
                (fun item => Computed.scoreContent item (g1 :: g2 :: rest))
                20 pool) as Hfor.
  pose proof (slice0_sortDesc_topOf popularity 20 pool) as Htrend.
  fold allContent in Htrend.
  destruct (topOf_spec _ _ _ _ Hfor) as (? & ? & ? & _).
  destruct (topOf_spec _ _ _ _ Htrend) as (? & ? & ? & _).
  do 4 (split; [done|]). split; [done|]. do 4 (split; [done|]).
  destruct (hasGenre g1 pool) eqn:Hg1; destruct (hasGenre g2 pool) eqn:Hg2;
    cbn [app length]; (split; [lia|]); intros c Hc;
    repeat match goal with
      | H : _ ∈ _ :: _ |- _ => apply elem_of_cons in H as [->|H]
      | H : _ ∈ [] |- _ => by apply elem_of_nil in H
      end;
    cbn [cat_id data];
    first [ exists g1; split; [by left|]; split; [done|];
            by apply genreContent_best
          | exists g2; split; [right; by left|]; split; [done|];
            by apply genreContent_best ].
Qed.

Lemma personalized_mode_categories_witness :
  ∃ categories,
    result (getSimpleRecommendations Fixture.online)
           (Fixture.started [35; 18; 27; 28]) = inr categories
    ∧ map title categories = ["For You"; "Trending Now"; "Best Comedy"; "Best Drama"].
Proof.
  assert (3 ≤ length (readGenres Fixture.online
                        (Fixture.started [35; 18; 27; 28]%Z)))%nat as Hlen
    by (vm_compute; lia).
  destruct (personalized_mode_categories Fixture.online
              (Fixture.started [35; 18; 27; 28]) Hlen)
    as (forYou & trending & best & Hrun & _).
  exists (forYou :: trending :: best). split; [exact Hrun|].
  vm_compute in Hrun. injection Hrun as <- <- <-. reflexivity.
Defined.

(** ** The cache entries over time *)

(** X16.  After a round that found at least one movie, a call for the same
    genres made before the freshness window of five minutes has passed
    since the round started returns the stored pool and changes nothing:
    no request is sent, whatever the network would answer.  The same holds
    for series. *)
Theorem fresh_pool_is_served_without_requests
    (env env' : Env) (userGenres : list Z) (w : World) (dt : Z) :
  latency env + dt < CACHE_DURATION →
  (∀ pages,
     servesMovies userGenres w = false →
     settle (movie_results env) (moviePromises userGenres) = inr pages →
     uniqueMovies (concat pages) ≠ [] →
     let w1 := later dt (final (getMoviesFromAPI env userGenres) w) in
     getMoviesFromAPI env' userGenres w1 = (w1, inr (uniqueMovies (concat pages))))
  ∧ (∀ pages,
       servesTVShows userGenres w = false →
       settle (tv_results env) (tvPromises userGenres) = inr pages →
       uniqueTVShows (concat pages) ≠ [] →
       let w1 := later dt (final (getTVShowsFromAPI env userGenres) w) in
       getTVShowsFromAPI env' userGenres w1
       = (w1, inr (uniqueTVShows (concat pages)))).
Proof.
  intros Hfresh. split; intros pages Hmiss Hsettle Hfound w1; subst w1; unfold final.
  - rewrite (getMoviesFromAPI_miss env) by done. rewrite Hsettle. cbn [fst].
    rewrite getMoviesFromAPI_hit.
    + by rewrite deref_later, deref_stored.
    + unfold servesMovies. rewrite deref_later, deref_stored. cbn.
      rewrite clock_stored. apply andb_true_intro. split.
      * destruct (uniqueMovies (concat pages)); [done|]. done.
      * apply Z.ltb_lt. lia.
  - rewrite (getTVShowsFromAPI_miss env) by done. rewrite Hsettle. cbn [fst].
    rewrite getTVShowsFromAPI_hit.
    + by rewrite deref_later, deref_stored.
    + unfold servesTVShows. rewrite deref_later, deref_stored. cbn.
      rewrite clock_stored. apply andb_true_intro. split.
      * destruct (uniqueTVShows (concat pages)); [done|]. done.
      * apply Z.ltb_lt. lia.
Qed.

Lemma fresh_pool_is_served_without_requests_witness :
  let w1 := later 299000 (final (getMoviesFromAPI Fixture.online [28; 12; 16])
                                (Fixture.started [28; 12; 16])) in
  getMoviesFromAPI Fixture.offline [28; 12; 16] w1
  = (w1, inr [Fixture.mad_max; Fixture.up; Fixture.heat]).
Proof.
  assert (latency Fixture.online + 299000 < CACHE_DURATION) as Hfresh
    by (vm_compute; reflexivity).
  destruct (fresh_pool_is_served_without_requests Fixture.online Fixture.offline
              [28; 12; 16] (Fixture.started [28; 12; 16]) 299000 Hfresh)
    as [Hmovies _].
  apply (Hmovies [[Fixture.mad_max; Fixture.up]; [Fixture.heat];
                  [Fixture.up; Fixture.heat]; [Fixture.up; Fixture.heat]]).
  - reflexivity.
  - reflexivity.
  - discriminate.
Defined.

(** X17.  An entry that holds no movies is never served: the call sends
    the four requests of a round, however recent the entry is.  So after a
    round that succeeded but found nothing, every further call sends the
    requests again.  The same holds for series. *)
Theorem empty_entry_is_always_refetched (env : Env) (userGenres : list Z) (w : World) :
  (movies (deref (getCache userGenres) w) = [] →
   network (final (getMoviesFromAPI env userGenres) w)
   = network w ++ moviePromises userGenres)
  ∧ (tvShows (deref (getCache userGenres) w) = [] →
     network (final (getTVShowsFromAPI env userGenres) w)
     = network w ++ tvPromises userGenres)
  ∧ (∀ env0 w0 pages dt,
       servesMovies userGenres w0 = false →
       settle (movie_results env0) (moviePromises userGenres) = inr pages →
       uniqueMovies (concat pages) = [] →
       w = later dt (final (getMoviesFromAPI env0 userGenres) w0) →
       network (final (getMoviesFromAPI env userGenres) w)
       = network w ++ moviePromises userGenres).
Proof.
  assert (movies (deref (getCache userGenres) w) = [] →
          network (final (getMoviesFromAPI env userGenres) w)
          = network w ++ moviePromises userGenres) as Hmovies.
  { intros Hempty. unfold final.
    rewrite getMoviesFromAPI_miss by (unfold servesMovies; by rewrite Hempty).
    destruct (settle _ _); cbn [fst]; [done|].
    unfold stored. by destruct (getCache userGenres). }
  split; [exact Hmovies|]. split.
  - intros Hempty. unfold final.
    rewrite getTVShowsFromAPI_miss by (unfold servesTVShows; by rewrite Hempty).
    destruct (settle _ _); cbn [fst]; [done|].
    unfold stored. by destruct (getCache userGenres).
  - intros env0 w0 pages dt Hmiss Hsettle Hnone ->. apply Hmovies.
    unfold final. rewrite getMoviesFromAPI_miss by done. rewrite Hsettle.
    cbn [fst]. by rewrite deref_later, deref_stored.
Qed.

Lemma empty_entry_is_always_refetched_witness :
  network (final (getMoviesFromAPI Fixture.online [])
                 (final (getMoviesFromAPI Fixture.offline []) (Fixture.started [])))
  = moviePromises [] ++ moviePromises [].
Proof.
  destruct (empty_entry_is_always_refetched Fixture.online []
              (final (getMoviesFromAPI Fixture.offline []) (Fixture.started [])))
    as [Hmovies _].
  rewrite Hmovies; reflexivity.
Defined.

(** X18.  A pool function touches only its own part of the state: the
    storage, the other cache entry and the other list of its own entry are
    as before; requests are only ever added to the log. *)
Theorem pool_functions_leave_the_rest (env : Env) (userGenres : list Z) (w : World) :
  let cache := getCache userGenres in
  let wm := final (getMoviesFromAPI env userGenres) w in
  let wt := final (getTVShowsFromAPI env userGenres) w in
  (asyncStorage wm = asyncStorage w
   ∧ otherEntry cache wm = otherEntry cache w
   ∧ tvShows (deref cache wm) = tvShows (deref cache w)
   ∧ network w `prefix_of` network wm)
  ∧ (asyncStorage wt = asyncStorage w
     ∧ otherEntry cache wt = otherEntry cache w
     ∧ movies (deref cache wt) = movies (deref cache w)
     ∧ network w `prefix_of` network wt).
Proof.
  intros cache wm wt. subst wm wt cache. unfold final. split.
  - destruct (servesMovies userGenres w) eqn:E.
    + rewrite getMoviesFromAPI_hit by done. done.
    + rewrite getMoviesFromAPI_miss by done.
      destruct (settle _ _); cbn [fst]; unfold stored;
        destruct (getCache userGenres); cbn;
        repeat split; try done; by apply prefix_app_r.
  - destruct (servesTVShows userGenres w) eqn:E.
    + rewrite getTVShowsFromAPI_hit by done. done.
    + rewrite getTVShowsFromAPI_miss by done.
      destruct (settle _ _); cbn [fst]; unfold stored;
        destruct (getCache userGenres); cbn;
        repeat split; try done; by apply prefix_app_r.
Qed.

(** X19.  The two lists of an entry share one timestamp: when a round for
    series is stored, the movies held in the same entry count as fresh for
    the next five minutes, however long ago they were fetched (and the
    other way round). *)
Theorem a_round_renews_the_whole_entry
    (env env' : Env) (userGenres : list Z) (w : World) (dt : Z) :
  latency env + dt < CACHE_DURATION →
  (∀ pages,
     servesTVShows userGenres w = false →
     settle (tv_results env) (tvPromises userGenres) = inr pages →
     movies (deref (getCache userGenres) w) ≠ [] →
     let w1 := later dt (final (getTVShowsFromAPI env userGenres) w) in
     getMoviesFromAPI env' userGenres w1
     = (w1, inr (movies (deref (getCache userGenres) w))))
  ∧ (∀ pages,
       servesMovies userGenres w = false →
       settle (movie_results env) (moviePromises userGenres) = inr pages →
       tvShows (deref (getCache userGenres) w) ≠ [] →
       let w1 := later dt (final (getMoviesFromAPI env userGenres) w) in
       getTVShowsFromAPI env' userGenres w1
       = (w1, inr (tvShows (deref (getCache userGenres) w)))).
Proof.
  intros Hfresh. split; intros pages Hmiss Hsettle Hheld w1; subst w1; unfold final.
  - rewrite (getTVShowsFromAPI_miss env) by done. rewrite Hsettle. cbn [fst].
    rewrite getMoviesFromAPI_hit.
    + by rewrite deref_later, deref_stored.
    + unfold servesMovies. rewrite deref_later, deref_stored. cbn.
      rewrite clock_stored. apply andb_true_intro. split.
      * destruct (movies (deref (getCache userGenres) w)); [done|]. done.
      * apply Z.ltb_lt. lia.
  - rewrite (getMoviesFromAPI_miss env) by done. rewrite Hsettle. cbn [fst].
    rewrite getTVShowsFromAPI_hit.
    + by rewrite deref_later, deref_stored.
    + unfold servesTVShows. rewrite deref_later, deref_stored. cbn.
      rewrite clock_stored. apply andb_true_intro. split.
      * destruct (tvShows (deref (getCache userGenres) w)); [done|]. done.
      * apply Z.ltb_lt. lia.
Qed.

Lemma a_round_renews_the_whole_entry_witness :
  let w := {| generalCache :=
                {| movies := [Fixture.heat]; tvShows := [];
                   lastUpdate := 0; userGenres := [] |};
              personalizedCache := emptyCache;
              asyncStorage := None; clock := 86400000; network := [] |} in
  let w1 := later 1000 (final (getTVShowsFromAPI Fixture.online []) w) in
  getMoviesFromAPI Fixture.offline [] w1 = (w1, inr [Fixture.heat]).
Proof.
  intros w w1.
  assert (latency Fixture.online + 1000 < CACHE_DURATION) as Hfresh
    by (vm_compute; reflexivity).
  destruct (a_round_renews_the_whole_entry Fixture.online Fixture.offline
              [] w 1000 Hfresh) as [Hmovies _].
  apply (Hmovies [[Fixture.twin]; [Fixture.twin]; [Fixture.arcane]; [Fixture.twin]]).
  - reflexivity.
  - reflexivity.
  - discriminate.
Defined.

Lemma getMoviesFromAPI_returns_held (env : Env) (userGenres : list Z) (w : World) :
  result (getMoviesFromAPI env userGenres) w
  = inr (movies (deref (getCache userGenres)
                       (final (getMoviesFromAPI env userGenres) w))).
Proof.
  unfold result, final. destruct (servesMovies userGenres w) eqn:E.
  - by rewrite getMoviesFromAPI_hit.
  - rewrite getMoviesFromAPI_miss by done.
    destruct (settle _ _); cbn [fst snd].
    + by destruct (getCache userGenres).
    + by rewrite deref_stored.
Qed.

Lemma getTVShowsFromAPI_returns_held (env : Env) (userGenres : list Z) (w : World) :
  result (getTVShowsFromAPI env userGenres) w
  = inr (tvShows (deref (getCache userGenres)
                        (final (getTVShowsFromAPI env userGenres) w))).
Proof.
  unfold result, final. destruct (servesTVShows userGenres w) eqn:E.
  - by rewrite getTVShowsFromAPI_hit.
  - rewrite getTVShowsFromAPI_miss by done.
    destruct (settle _ _); cbn [fst snd].
    + by destruct (getCache userGenres).
    + by rewrite deref_stored.
Qed.

Lemma getTVShowsFromAPI_keeps_movies (env : Env) (userGenres : list Z) (w : World) :
  movies (deref (getCache userGenres) (final (getTVShowsFromAPI env userGenres) w))
  = movies (deref (getCache userGenres) w).
Proof.
  unfold final. destruct (servesTVShows userGenres w) eqn:E.
  - by rewrite getTVShowsFromAPI_hit.
  - rewrite getTVShowsFromAPI_miss by done.
    destruct (settle _ _); cbn [fst].
    + by destruct (getCache userGenres).
    + by rewrite deref_stored.
Qed.

(** X20.  What a pool function returns is the list its cache entry holds
    when it returns, on every path (cache hit, stored round, failed
    round). *)
Theorem pool_result_is_what_the_entry_holds
    (env : Env) (userGenres : list Z) (w : World) :
  result (getMoviesFromAPI env userGenres) w
  = inr (movies (deref (getCache userGenres)
                       (final (getMoviesFromAPI env userGenres) w)))
  ∧ result (getTVShowsFromAPI env userGenres) w
    = inr (tvShows (deref (getCache userGenres)
                          (final (getTVShowsFromAPI env userGenres) w))).
Proof.
  split; [apply getMoviesFromAPI_returns_held | apply getTVShowsFromAPI_returns_held].
Qed.

(** X21.  [getFallbackCategories] sorts the cached pools in place: after
    the call the general entry holds the same movies and the same series as
    after the two pool calls, each as often as before, now in descending
    order of rating; nothing else differs from the state the two pool calls
    leave. *)
Theorem fallback_reorders_the_cached_pools (env : Env) (w : World) :
  let pooled :=
    final (getTVShowsFromAPI env []) (final (getMoviesFromAPI env []) w) in
  let w' := final (getFallbackCategories env) w in
  movies (generalCache w') ≡ₚ movies (generalCache pooled)
  ∧ sortedDesc movie_vote_average (movies (generalCache w'))
  ∧ tvShows (generalCache w') ≡ₚ tvShows (generalCache pooled)
  ∧ sortedDesc tv_vote_average (tvShows (generalCache w'))
  ∧ lastUpdate (generalCache w') = lastUpdate (generalCache pooled)
  ∧ userGenres (generalCache w') = userGenres (generalCache pooled)
  ∧ personalizedCache w' = personalizedCache pooled
  ∧ asyncStorage w' = asyncStorage pooled
  ∧ clock w' = clock pooled
  ∧ network w' = network pooled.
Proof.
  intros pooled w'.
  pose proof (getMoviesFromAPI_returns_held env [] w) as Hm.
  pose proof (getTVShowsFromAPI_returns_held env []
                (final (getMoviesFromAPI env []) w)) as Ht.
  pose proof (getTVShowsFromAPI_keeps_movies env []
                (final (getMoviesFromAPI env []) w)) as Hkeep.
  fold pooled in Ht, Hkeep. change (deref (getCache []) pooled)
    with (generalCache pooled) in Ht, Hkeep.
  change (deref (getCache []) (final (getMoviesFromAPI env []) w))
    with (generalCache (final (getMoviesFromAPI env []) w)) in Hm, Hkeep.
  rewrite <- Hkeep in Hm. clear Hkeep.
  subst w' pooled. unfold result, final in *.
  unfold getFallbackCategories, bind.
  destruct (getMoviesFromAPI env [] w) as [w1 [e|allMovies]];
    cbn [fst snd] in *; [discriminate Hm|].
  destruct (getTVShowsFromAPI env [] w1) as [w2 [e|allTVShows]];
    cbn [fst snd] in *; [discriminate Ht|].
  injection Hm as ->. injection Ht as ->.
  unfold update, modify, ret. cbn.
  split; [by rewrite !sortDesc_Permutation|]. split; [apply sortDesc_sorted|].
  split; [by rewrite !sortDesc_Permutation|]. split; [apply sortDesc_sorted|].
  done.
Qed.

(** ** Comparing genre lists *)

(** X22.  On genre lists without repetitions [genresMatch] holds exactly
    when the two lists contain the same genres, in any order; hence it does
    not depend on the order of its arguments. *)
Theorem genresMatch_is_equality_up_to_order (userGenres cachedGenres : list Z) :
  NoDup userGenres → NoDup cachedGenres →
  (genresMatch userGenres cachedGenres = true ↔ userGenres ≡ₚ cachedGenres)
  ∧ genresMatch userGenres cachedGenres = genresMatch cachedGenres userGenres.
Proof.
  intros Hu Hc.
  assert (∀ l k : list Z, NoDup l → NoDup k →
            (genresMatch l k = true ↔ l ≡ₚ k)) as Hiff.
  { intros l k Hl Hk. rewrite genresMatch_spec. split.
    - intros [Hlen Hsub]. apply submseteq_length_Permutation; [|lia].
      by apply NoDup_submseteq.
    - intros Hp. split; [by apply Permutation_length|].
      intros g. by rewrite Hp. }
  split; [by apply Hiff|].
  apply eq_true_iff_eq. rewrite !Hiff by done. split; intros H; by symmetry.
Qed.

Lemma genresMatch_is_equality_up_to_order_witness :
  genresMatch [28; 12; 16] [16; 28; 12] = genresMatch [16; 28; 12] [28; 12; 16].
Proof.
  assert (NoDup [28; 12; 16]) as H1 by compute_done.
  assert (NoDup [16; 28; 12]) as H2 by compute_done.
  destruct (genresMatch_is_equality_up_to_order [28; 12; 16] [16; 28; 12] H1 H2)
    as [_ Hsym]. exact Hsym.
Defined.

(** ** Refreshing *)

(** X23.  [refreshSimpleRecommendations] never throws.  It empties both
    cache entries and then fetches the pools of the current mode, so that
    afterwards the entry of the other mode is empty and the entry of the
    current mode holds exactly what the two rounds found -- nothing when a
    round failed; nothing cached before the refresh survives.  The storage
    is not touched and exactly the eight requests of the two rounds are
    sent. *)
Theorem refresh_drops_what_was_cached (env : Env) (w : World) :
  let P := readGenres env w in
  let userGenres := if Nat.leb 3 (length P) then P else [] in
  let w' := final (refreshSimpleRecommendations env) w in
  ¬ throws (refreshSimpleRecommendations env) w
  ∧ otherEntry (getCache userGenres) w' = emptyCache
  ∧ movies (deref (getCache userGenres) w')
    = match settle (movie_results env) (moviePromises userGenres) with
      | inr pages => uniqueMovies (concat pages)
      | inl _ => []
      end
  ∧ tvShows (deref (getCache userGenres) w')
    = match settle (tv_results env) (tvPromises userGenres) with
      | inr pages => uniqueTVShows (concat pages)
      | inl _ => []
      end
  ∧ asyncStorage w' = asyncStorage w
  ∧ network w' = network w ++ moviePromises userGenres ++ tvPromises userGenres.
Proof.
  intros P userGenres w'.
  set (cleared := {| generalCache := emptyCache; personalizedCache := emptyCache;
                     asyncStorage := asyncStorage w; clock := clock w;
                     network := network w |}).
  assert (readGenres env cleared = P) as Hread by done.
  assert (refreshSimpleRecommendations env w
          = match getMoviesFromAPI env userGenres cleared with
            | (w1, _) =>
                match getTVShowsFromAPI env userGenres w1 with
                | (w2, _) => (w2, inr tt)
                end
            end) as Hrun.
  { unfold refreshSimpleRecommendations, bind at 1 2 3 4 5 6 7 8.
    unfold update, modify. cbn beta iota.
    change (assign personalized _ _) with cleared.
    unfold try_catch, bind. rewrite hasUserPreferences_run, Hread.
    subst userGenres. destruct (Nat.leb 3 (length P)).
    - rewrite getGenrePreferences_run, Hread.
      destruct (getMoviesFromAPI_total env P cleared) as (w1 & ms & ->).
      by destruct (getTVShowsFromAPI_total env P w1) as (w2 & ts & ->).
    - destruct (getMoviesFromAPI_total env [] cleared) as (w1 & ms & ->).
      by destruct (getTVShowsFromAPI_total env [] w1) as (w2 & ts & ->). }
  assert (deref (getCache userGenres) cleared = emptyCache) as Hempty
    by (by destruct (getCache userGenres)).
  subst w'. unfold throws, result, final. rewrite Hrun.
  rewrite getMoviesFromAPI_miss
    by (unfold servesMovies; by rewrite Hempty).
  destruct (settle (movie_results env) (moviePromises userGenres)) as [e|pages].
  - set (w1 := sent _ _ cleared).
    rewrite getTVShowsFromAPI_miss
      by (unfold servesTVShows; subst w1;
          by destruct (getCache userGenres)).
    destruct (settle (tv_results env) (tvPromises userGenres)) as [e'|pages'];
      cbn [fst snd].
    + split; [by intros [? ?]|]. subst w1.
      destruct (getCache userGenres); cbn; by rewrite <- app_assoc.
    + split; [by intros [? ?]|]. subst w1. unfold stored.
      destruct (getCache userGenres); cbn; by rewrite <- app_assoc.
  - set (w1 := stored _ _ _ _ cleared).
    rewrite getTVShowsFromAPI_miss
      by (unfold servesTVShows; subst w1; rewrite deref_stored, Hempty; done).
    destruct (settle (tv_results env) (tvPromises userGenres)) as [e'|pages'];
      cbn [fst snd].
    + split; [by intros [? ?]|]. subst w1. unfold stored.
      destruct (getCache userGenres); cbn; by rewrite <- app_assoc.
    + split; [by intros [? ?]|]. subst w1. unfold stored.
      destruct (getCache userGenres); cbn; by rewrite <- app_assoc.
Qed.

(** * Further properties of the search screen *)

Section MapLookup.
Context {V : Type}.
Implicit Types (m : JSMap.t V) (k : string) (v : V).

Lemma get_set_same m k v : JSMap.get (JSMap.set m k v) k = Some v.
Proof.
  unfold JSMap.get. induction m as [|e m IH]; simpl.
  - by rewrite String.eqb_refl.
  - destruct (String.eqb (fst e) k) eqn:E; simpl.
    + by rewrite String.eqb_refl.
    + by rewrite E.
Qed.

Lemma get_set_other m k k' v :
  k' ≠ k → JSMap.get (JSMap.set m k v) k' = JSMap.get m k'.
Proof.
  intros Hne. unfold JSMap.get.
  assert (String.eqb k k' = false) as Hkk
    by (apply String.eqb_neq; congruence).
  induction m as [|e m IH]; simpl.
  - by rewrite Hkk.
  - destruct (String.eqb (fst e) k) eqn:E; simpl.
    + apply String.eqb_eq in E. by rewrite E, Hkk.
    + destruct (String.eqb (fst e) k'); [done | exact IH].
Qed.

Lemma get_tail m k' :
  JSMap.first_key m ≠ Some k' → JSMap.get (tail m) k' = JSMap.get m k'.
Proof.
  destruct m as [|e m]; simpl; [done|]. intros Hfirst. unfold JSMap.get. simpl.
  destruct (String.eqb (fst e) k') eqn:E; [|done].
  apply String.eqb_eq in E. congruence.
Qed.

Lemma has_get m k : JSMap.has m k = true ↔ is_Some (JSMap.get m k).
Proof.
  unfold JSMap.has, JSMap.get. induction m as [|e m IH]; simpl.
  - split; [discriminate | by intros [? ?]].
  - destruct (String.eqb (fst e) k); simpl; [split; eauto | exact IH].
Qed.
End MapLookup.

Module SearchMore.
Import Search SearchFacts.

(** X24.  In a cache as the search screen builds it, results stored under
    a non-empty key are found under that key right afterwards.  When the
    key was already present or the cache had fewer than 10 entries, every
    other key still has the results it had.  When a new key arrives at a
    cache of 10 entries, the oldest key is dropped -- it had results before
    and has none afterwards -- and every key other than these two still
    has the results it had.  The cache grows by one entry for a new key
    below 10 entries and keeps its size otherwise. *)
Theorem stored_results_are_found (k : string) (results : list SearchItem)
    (prev : JSMap.t (list SearchItem)) :
  wellFormed prev →
  JS.truthy k = true →
  let cache := storeResults k results prev in
  JSMap.get cache k = Some results
  ∧ (JSMap.has prev k = true ∨ (JSMap.size prev < 10)%nat →
     ∀ k', k' ≠ k → JSMap.get cache k' = JSMap.get prev k')
  ∧ (JSMap.has prev k = false → JSMap.size prev = 10%nat →
     ∃ oldest,
       JSMap.first_key prev = Some oldest
       ∧ is_Some (JSMap.get prev oldest)
       ∧ JSMap.get cache oldest = None
       ∧ ∀ k', k' ≠ k → k' ≠ oldest → JSMap.get cache k' = JSMap.get prev k')
  ∧ JSMap.size cache
    = (if JSMap.has prev k then JSMap.size prev
       else Nat.min 10 (JSMap.size prev + 1)).
Proof.
  intros Hwf Hk cache. subst cache. rewrite storeResults_cases by done.
  destruct Hwf as (Hnodup & _ & Hsize).
  destruct (JSMap.has prev k) eqn:Hhas.
  - split; [apply get_set_same|]. split; [|split; [done|]].
    + intros _ k' Hne. by apply get_set_other.
    + unfold JSMap.size. rewrite <- !(length_map fst).
      fold (JSMap.keys (JSMap.set prev k results)). fold (JSMap.keys prev).
      by rewrite set_keys_present.
  - destruct (Nat.ltb (JSMap.size prev) 10) eqn:E.
    + apply Nat.ltb_lt in E. rewrite <- set_new by done.
      split; [apply get_set_same|]. split; [|split; [lia|]].
      * intros _ k' Hne. by apply get_set_other.
      * rewrite set_new by done. unfold JSMap.size in *. rewrite length_app.
        cbn [length]. lia.
    + apply Nat.ltb_ge in E.
      assert (JSMap.has (tail prev) k = false) as Htail.
      { destruct prev as [|e prev]; [done|]. simpl in *.
        by apply orb_false_elim in Hhas as [_ ?]. }
      rewrite <- set_new by done.
      split; [apply get_set_same|]. split; [|split].
      * intros [?|?]; [done | lia].
      * intros _ _. destruct prev as [|oldest prev]; [simpl in E; lia|].
        exists (fst oldest). simpl in Hnodup.
        apply NoDup_cons in Hnodup as [Hfresh _].
        assert (fst oldest ≠ k) as Hold.
        { intros Heq. simpl in Hhas. rewrite Heq, String.eqb_refl in Hhas.
          discriminate Hhas. }
        split; [done|]. split.
        { unfold JSMap.get. simpl. rewrite String.eqb_refl. by eexists. }
        split.
        { rewrite get_set_other by done. simpl.
          destruct (JSMap.get prev (fst oldest)) eqn:Hget; [|done].
          exfalso. apply Hfresh, has_keys, has_get. by rewrite Hget. }
        intros k' Hne Hne'. rewrite get_set_other by done.
        apply get_tail. simpl. congruence.
      * rewrite set_new by done. unfold JSMap.size in *. rewrite length_app.
        cbn [length]. destruct prev as [|e prev]; [simpl in E; lia|].
        cbn [tail length] in *. lia.
Qed.

Lemma stored_results_are_found_witness :
  JSMap.get (storeResults (cacheKey "Heat" [28]) [IsMovie Fixture.heat] JSMap.empty)
            "heat_28"
  = Some [IsMovie Fixture.heat].
Proof.
  assert (wellFormed (JSMap.empty : JSMap.t (list SearchItem))) as Hwf
    by (repeat split; [constructor | constructor | simpl; lia]).
  destruct (stored_results_are_found (cacheKey "Heat" [28]) [IsMovie Fixture.heat]
              JSMap.empty Hwf eq_refl) as [Hfound _].
  exact Hfound.
Defined.

Lemma string_leb_cons (c1 c2 : ascii) (s1 s2 : string) :
  String.leb (String c1 s1) (String c2 s2)
  = match N.compare (N_of_ascii c1) (N_of_ascii c2) with
    | Lt => true
    | Eq => String.leb s1 s2
    | Gt => false
    end.
Proof.
  unfold String.leb. simpl. unfold Ascii.compare.
  by destruct (N.compare (N_of_ascii c1) (N_of_ascii c2)).
Qed.

Lemma string_leb_trans (s1 s2 s3 : string) :
  String.leb s1 s2 = true → String.leb s2 s3 = true → String.leb s1 s3 = true.
Proof.
  revert s2 s3. induction s1 as [|c1 s1 IH]; intros [|c2 s2] [|c3 s3]; try done.
  rewrite !string_leb_cons.
  destruct (N.compare_spec (N_of_ascii c1) (N_of_ascii c2));
    destruct (N.compare_spec (N_of_ascii c2) (N_of_ascii c3));
    destruct (N.compare_spec (N_of_ascii c1) (N_of_ascii c3));
    try done; try lia.
  apply IH.
Qed.

Lemma insert_str_Permutation (s : string) (l : list string) :
  insert_str s l ≡ₚ s :: l.
Proof.
  induction l as [|s' l IH]; simpl; [done|].
  destruct (String.leb s s'); [done|]. rewrite IH. apply perm_swap.
Qed.

Lemma insert_str_sorted (s : string) (l : list string) :
  StronglySorted leb_str l → StronglySorted leb_str (insert_str s l).
Proof.
  induction l as [|s' l IH]; simpl; intros Hs.
  - repeat constructor.
  - apply StronglySorted_inv in Hs as [Hl Hs'].
    destruct (String.leb s s') eqn:E.
    + constructor; [by constructor|]. constructor; [done|].
      eapply Forall_impl; [exact Hs'|]. intros x Hx.
      by apply string_leb_trans with s'.
    + constructor; [by apply IH|].
      rewrite insert_str_Permutation. constructor; [|done].
      destruct (String.leb_total s s') as [H|H]; [congruence | done].
Qed.

Lemma sort_strings_unique (l k : list string) :
  l ≡ₚ k → foldr insert_str [] l = foldr insert_str [] k.
Proof.
  intros Hp.
  assert (∀ l, StronglySorted leb_str (foldr insert_str [] l)) as Hsorted.
  { intros l0. induction l0; simpl; [constructor | by apply insert_str_sorted]. }
  assert (∀ l, foldr insert_str [] l ≡ₚ l) as Hperm.
  { intros l0. induction l0 as [|x l0 IH]; simpl; [done|].
    by rewrite insert_str_Permutation, IH. }
  assert (AntiSymm (=) leb_str) as Hanti
    by (intros a b; apply String.leb_antisym).
  apply (StronglySorted_unique leb_str); [apply Hsorted..|].
  by rewrite !Hperm.
Qed.

Lemma lower_ascii_idempotent (c : ascii) :
  JS.lower_ascii (JS.lower_ascii c) = JS.lower_ascii c.
Proof. destruct c as [[] [] [] [] [] [] [] []]; reflexivity. Qed.

Lemma toLowerCase_idempotent (s : string) :
  JS.toLowerCase (JS.toLowerCase s) = JS.toLowerCase s.
Proof.
  induction s as [|c s IH]; simpl; [done|].
  by rewrite lower_ascii_idempotent, IH.
Qed.

(** X25.  The cache key of a search depends neither on the order in which
    the genre filters were selected nor on the case of the ASCII letters of
    the query. *)
Theorem cacheKey_ignores_order_and_case (query : string) (filters filters' : list Z) :
  filters ≡ₚ filters' →
  cacheKey query filters = cacheKey query filters'
  ∧ cacheKey (JS.toLowerCase query) filters = cacheKey query filters.
Proof.
  intros Hp. unfold cacheKey, sort_default. split.
  - do 3 f_equal. apply sort_strings_unique. by rewrite Hp.
  - by rewrite toLowerCase_idempotent.
Qed.

Lemma cacheKey_ignores_order_and_case_witness :
  cacheKey "Batman" [28; 12; 16] = cacheKey "Batman" [16; 28; 12].
Proof.
  assert ([28; 12; 16] ≡ₚ [16; 28; 12]) as Hp.
  { apply NoDup_Permutation; [compute_done | compute_done |].
    intros x. rewrite !elem_of_cons, !elem_of_nil. tauto. }
  destruct (cacheKey_ignores_order_and_case "Batman" _ _ Hp) as [Horder _].
  exact Horder.
Defined.

End SearchMore.

Module ShownFacts.
Import SearchResults.

Lemma rank_sortDesc (userPreferences : list Z) (results : list Search.SearchItem) :
  rank userPreferences results = JS.sortDesc (searchKey userPreferences) results.
Proof.
  unfold rank, searchKey. destruct (Nat.ltb 0 (length userPreferences)); [|done].
  by rewrite sortDesc_scored.
Qed.

Lemma filterByGenres_filter (filters : list Z) (results : list Search.SearchItem) :
  filterByGenres filters results = List.filter (passesFilters filters) results.
Proof.
  unfold filterByGenres, passesFilters.
  destruct filters as [|f filters]; cbn [length Nat.ltb Nat.leb Nat.eqb orb]; [|done].
  symmetry. apply forallb_filter_id, forallb_forall. done.
Qed.

Lemma passesFilters_spec (filters : list Z) (item : ContentItem) :
  passesFilters filters item = true
  ↔ filters = [] ∨ ∃ g, g ∈ genre_ids item ∧ g ∈ filters.
Proof.
  unfold passesFilters. rewrite orb_true_iff, Nat.eqb_eq, existsb_exists. split.
  - intros [Hnil|(g & Hg & Hf)]; [left; by destruct filters|].
    right. exists g. split; [by apply list_elem_of_In | by apply includes_elem_of].
  - intros [->|(g & Hg & Hf)]; [by left|].
    right. exists g. split; [by apply list_elem_of_In | by apply includes_elem_of].
Qed.

Lemma collect_shownFor (raw : list MultiResult) :
  Forall2 shownFor (take 20 (List.filter isTitle raw)) (collect raw).
Proof.
  unfold collect, JS.slice0. rewrite <- fmap_take.
  assert (List.filter
            (fun item => match multi_media_type item with
                         | multi_movie | multi_tv => true
                         | multi_person => false
                         end) raw
          = List.filter isTitle raw) as ->.
  { apply filter_ext. intros entry. unfold isTitle.
    by destruct (multi_media_type entry). }
  assert (Forall (fun entry => isTitle entry = true) (take 20 (List.filter isTitle raw)))
    as Htitles.
  { apply Forall_take, Forall_forall. intros entry Hentry.
    by apply list_elem_of_In, filter_In in Hentry as [_ ?]. }
  revert Htitles. generalize (take 20 (List.filter isTitle raw)).
  intros entries. induction 1 as [|entry entries Hentry _ IH]; [constructor|].
  cbn [fmap list_fmap]. constructor; [|exact IH].
  unfold shownFor, isTitle in *.
  by destruct (multi_media_type entry).
Qed.

(** X26.  The results the search screen shows for a response.  The
    candidates are made of the first 20 entries of the response that are
    movies or series, one item per entry in the order of the response,
    never of a person entry.  The results are the candidates that pass the
    genre filters (all of them when no filter is selected), each as often
    as it is a candidate, in descending order of their key -- the
    [scoreContent] the engine computes in binary64 arithmetic when the user
    has preferences, the computed 0.3 * popularity + 0.7 * rating
    otherwise -- with candidates of the same key in the order of the
    response. *)
Theorem shown_results (raw : list MultiResult) (filters preferences : list Z) :
  let results := shown raw filters preferences in
  let candidates := collect raw in
  let passing := List.filter (passesFilters filters) candidates in
  Forall2 shownFor (take 20 (List.filter isTitle raw)) candidates
  ∧ (length candidates ≤ 20)%nat
  ∧ results ≡ₚ passing
  ∧ sortedDesc (searchKey preferences) results
  ∧ keepsTies (searchKey preferences) passing results
  ∧ (length results ≤ 20)%nat
  ∧ (∀ item, item ∈ results
             ↔ item ∈ candidates
               ∧ (filters = [] ∨ ∃ g, g ∈ genre_ids item ∧ g ∈ filters))
  ∧ (filters = [] → results ≡ₚ candidates)
  ∧ (preferences ≠ [] →
     sortedDesc (fun item => Computed.scoreContent item preferences) results)
  ∧ (preferences = [] → sortedDesc generalScore results).
Proof.
  intros results candidates passing. subst results passing candidates.
  unfold shown. rewrite rank_sortDesc, filterByGenres_filter.
  assert (length (collect raw) ≤ 20)%nat as Hcap by apply slice0_length.
  split; [apply collect_shownFor|]. split; [done|].
  split; [apply sortDesc_Permutation|]. split; [apply sortDesc_sorted|].
  split; [apply sortDesc_keepsTies|]. split; [|split; [|split; [|split]]].
  - rewrite sortDesc_length.
    etransitivity; [apply List.filter_length_le | done].
  - intros item.
    by rewrite sortDesc_Permutation, list_elem_of_In, filter_In,
      <- list_elem_of_In, passesFilters_spec.
  - intros ->. rewrite sortDesc_Permutation.
    assert (List.filter (passesFilters []) (collect raw) = collect raw) as ->; [|done].
    apply forallb_filter_id, forallb_forall. done.
  - intros Hne. pose proof (sortDesc_sorted (searchKey preferences)
                              (List.filter (passesFilters filters) (collect raw))) as Hs.
    unfold searchKey in Hs |- *. by destruct preferences.
  - intros ->. apply (sortDesc_sorted (searchKey [])).
Qed.

Lemma shown_results_witness :
  let person := {| multi_media_type := multi_person; multi_id := 500;
                   multi_title := EmptyString; multi_name := "Tom Cruise";
                   multi_vote_average := 0; multi_genre_ids := [];
                   multi_popularity := 99 |} in
  let film := {| multi_media_type := multi_movie; multi_id := 949;
                 multi_title := "Heat"; multi_name := EmptyString;
                 multi_vote_average := 79 # 10; multi_genre_ids := [28; 80];
                 multi_popularity := 40 |} in
  let series := {| multi_media_type := multi_tv; multi_id := 94605;
                   multi_title := EmptyString; multi_name := "Arcane";
                   multi_vote_average := 87 # 10; multi_genre_ids := [16; 18];
                   multi_popularity := 80 |} in
  sortedDesc generalScore (shown [person; film; series] [] [])
  ∧ map item_id (shown [person; film; series] [] []) = [94605; 949].
Proof.
  intros person film series.
  destruct (shown_results [person; film; series] [] [])
    as (_ & _ & _ & _ & _ & _ & _ & _ & _ & Hs).
  split; [apply Hs; reflexivity | vm_compute; reflexivity].
Defined.

End ShownFacts.

(** * Properties of the search history and of the favorites *)

Module DeviceFacts.
Import Device.

Ltac run_device :=
  unfold value, after, attempt, mbind, D_bind, mret, D_ret, raise;
  cbn beta iota.

Lemma getSearchHistory_run (amb : Ambient) (s : Store) :
  getItem_rejects amb = false →
  getSearchHistory amb s = (s, inr (heldHistory s)).
Proof.
  intros Hget. unfold getSearchHistory, getStoredHistory. run_device.
  by rewrite Hget.
Qed.

Lemma getFavorites_run (amb : Ambient) (s : Store) :
  getItem_rejects amb = false →
  getFavorites amb s = (s, inr (heldFavorites s)).
Proof.
  intros Hget. unfold getFavorites, getStoredFavorites. run_device.
  by rewrite Hget.
Qed.

(** *** What [trim] removes *)

Section TrimFacts.
Local Open Scope string_scope.

Lemma append_cons (a : ascii) (s t : string) : String a s ++ t = String a (s ++ t).
Proof. reflexivity. Qed.

Lemma append_empty_l (s : string) : EmptyString ++ s = s.
Proof. reflexivity. Qed.

Lemma append_empty_r (s : string) : s ++ EmptyString = s.
Proof. induction s as [|a s IH]; [done|]. by rewrite append_cons, IH. Qed.

Lemma append_associative (s t u : string) : (s ++ t) ++ u = s ++ t ++ u.
Proof. induction s as [|a s IH]; [done|]. by rewrite !append_cons, IH. Qed.

Lemma isWhiteSpace_inv (ws : string) :
  isWhiteSpace ws = true →
  (∃ a, ws = String a EmptyString ∧ isSpace a = true)
  ∨ (∃ a b, ws = String a (String b EmptyString) ∧ isSpace2 a b = true)
  ∨ (∃ a b c, ws = String a (String b (String c EmptyString)) ∧ isSpace3 a b c = true).
Proof.
  destruct ws as [|a [|b [|c [|d ws]]]]; simpl; try done; intros H.
  - left. by exists a.
  - right. left. by exists a, b.
  - right. right. by exists a, b, c.
Qed.

Lemma blank_app (s t : string) : blank s → blank t → blank (s ++ t).
Proof.
  induction 1 as [|ws s Hws Hs IH]; intros Ht; simpl; [done|].
  rewrite append_associative. constructor; [done | by apply IH].
Qed.

Lemma trimStart_spec (n : nat) (s : string) :
  (String.length s ≤ n)%nat →
  ∃ before, blank before ∧ s = before ++ trimStart s
            ∧ ¬ startsWithSpace (trimStart s).
Proof.
  assert (∀ t, (∀ a, t = String a EmptyString → isSpace a = false)
               → (∀ a b rest, t = String a (String b rest) →
                    isSpace a = false ∧ (isSpace2 a b = false))
               → (∀ a b c rest, t = String a (String b (String c rest)) →
                    isSpace3 a b c = false)
               → ¬ startsWithSpace t) as Hnone.
  { intros t H1 H2 H3 (ws & rest & Hws & Heq).
    apply isWhiteSpace_inv in Hws
      as [(x & -> & Hx) | [(x & y & -> & Hx) | (x & y & z & -> & Hx)]];
      rewrite ?append_cons, ?append_empty_l in Heq; subst t.
    - destruct rest as [|b rest]; [by rewrite (H1 x) in Hx|].
      destruct (H2 x b rest eq_refl). congruence.
    - destruct (H2 x y rest eq_refl). congruence.
    - by rewrite (H3 x y z rest) in Hx. }
  revert s. induction n as [|n IH]; intros s Hlen.
  { destruct s; [|simpl in Hlen; lia]. exists EmptyString. repeat split; [constructor|].
    apply Hnone; intros; discriminate. }
  destruct s as [|a s1].
  { exists EmptyString. repeat split; [constructor|]. apply Hnone; intros; discriminate. }
  simpl in Hlen. simpl. destruct (isSpace a) eqn:Ea.
  { destruct (IH s1 ltac:(lia)) as (before & Hb & Heq & Hno).
    exists (String a EmptyString ++ before). split; [by constructor|].
    split; [rewrite ?append_cons, append_empty_l; by rewrite <- Heq | done]. }
  destruct s1 as [|b s2].
  { exists EmptyString. split; [constructor|]. split; [done|].
    apply Hnone; intros; simplify_eq; done. }
  simpl in Hlen. destruct (isSpace2 a b) eqn:Eb.
  { destruct (IH s2 ltac:(lia)) as (before & Hb & Heq & Hno).
    exists (String a (String b EmptyString) ++ before). split; [by constructor|].
    split; [rewrite ?append_cons, append_empty_l; by rewrite <- Heq | done]. }
  destruct s2 as [|c s3].
  { exists EmptyString. split; [constructor|]. split; [done|].
    apply Hnone; intros; simplify_eq; done. }
  simpl in Hlen. destruct (isSpace3 a b c) eqn:Ec.
  { destruct (IH s3 ltac:(lia)) as (before & Hb & Heq & Hno).
    exists (String a (String b (String c EmptyString)) ++ before). split; [by constructor|].
    split; [rewrite ?append_cons, append_empty_l; by rewrite <- Heq | done]. }
  exists EmptyString. split; [constructor|]. split; [done|].
  apply Hnone; intros; simplify_eq; done.
Qed.

Lemma trimEnd_spec (s : string) :
  ∃ after, blank after ∧ s = trimEnd s ++ after ∧ ¬ endsWithSpace (trimEnd s).
Proof.
  assert (¬ endsWithSpace EmptyString) as Hempty.
  { intros (rest & ws & Hws & Hs). destruct rest; [|discriminate Hs].
    rewrite append_empty_l in Hs. by subst ws. }
  induction s as [|a s (after & Ha & Heq & Hno)].
  { exists EmptyString. split; [constructor|]. split; [done|]. exact Hempty. }
  change (trimEnd (String a s))
    with (if isWhiteSpace (String a (trimEnd s)) then EmptyString else String a (trimEnd s)).
  destruct (isWhiteSpace (String a (trimEnd s))) eqn:E.
  - exists (String a (trimEnd s) ++ after). split; [by constructor|].
    split; [|exact Hempty].
    by rewrite append_empty_l, append_cons, <- Heq.
  - exists after. split; [done|]. split; [by rewrite append_cons, <- Heq|].
    intros (rest & ws & Hws & Hs). destruct rest as [|x rest].
    + rewrite append_empty_l in Hs. subst ws. congruence.
    + rewrite append_cons in Hs. injection Hs as -> Hs. apply Hno.
      by exists rest, ws.
Qed.

Lemma trim_trimmed (s : string) : trimmed s (trim s).
Proof.
  unfold trim.
  destruct (trimStart_spec (String.length s) s ltac:(done))
    as (before & Hb & Hs & Hstart).
  destruct (trimEnd_spec (trimStart s)) as (after & Ha & Ht & Hend).
  split; [|split; [|done]].
  - exists before, after. split; [done|]. split; [done|]. by rewrite <- Ht.
  - intros (ws & rest & Hws & Heq). apply Hstart.
    exists ws, (rest ++ after). split; [done|].
    rewrite Ht at 1. rewrite Heq. apply append_associative.
Qed.

Lemma isSpace2_first (a b : ascii) : isSpace2 a b = true → isSpace a = false.
Proof.
  unfold isSpace2, isSpace. intros H.
  apply andb_true_iff in H as [Ha _]. apply N.eqb_eq in Ha. by rewrite Ha.
Qed.

Lemma isSpace3_first (a b c : ascii) :
  isSpace3 a b c = true → isSpace a = false ∧ isSpace2 a b = false.
Proof.
  unfold isSpace3, isSpace2, isSpace. intros H.
  destruct (byte a =? 225)%N eqn:E1; [apply N.eqb_eq in E1; by rewrite E1|].
  destruct (byte a =? 226)%N eqn:E2; [apply N.eqb_eq in E2; by rewrite E2|].
  destruct (byte a =? 227)%N eqn:E3; [apply N.eqb_eq in E3; by rewrite E3|].
  destruct (byte a =? 239)%N eqn:E4; [apply N.eqb_eq in E4; by rewrite E4|].
  discriminate H.
Qed.

Lemma trimStart_space (ws s : string) :
  isWhiteSpace ws = true → trimStart (ws ++ s) = trimStart s.
Proof.
  intros Hws. apply isWhiteSpace_inv in Hws
    as [(x & -> & Hx) | [(x & y & -> & Hx) | (x & y & z & -> & Hx)]];
    rewrite ?append_cons, append_empty_l.
  - simpl. by rewrite Hx.
  - simpl. by rewrite (isSpace2_first x y Hx), Hx.
  - destruct (isSpace3_first x y z Hx) as [H1 H2].
    simpl. by rewrite H1, H2, Hx.
Qed.

Lemma trimStart_blank (s : string) : blank s → trimStart s = EmptyString.
Proof. induction 1; [done|]. by rewrite trimStart_space. Qed.

Lemma trim_blank (s : string) : trim s = EmptyString ↔ blank s.
Proof.
  split.
  - intros Hs. destruct (trim_trimmed s) as [(before & after & Hb & Ha & Heq) _].
    rewrite Hs, append_empty_l in Heq. rewrite Heq. by apply blank_app.
  - intros Hs. unfold trim. by rewrite trimStart_blank.
Qed.

End TrimFacts.

Example trim_removes_unicode_white_space :
  trim (DeviceFixture.nbsp ++ " " ++ DeviceFixture.byteOrderMark ++ "he at"
        ++ DeviceFixture.lineSeparator ++ " " ++ DeviceFixture.nbsp)%string
  = "he at"%string
  ∧ trim (DeviceFixture.nbsp ++ DeviceFixture.lineSeparator)%string = EmptyString.
Proof. vm_compute. done. Qed.

Lemma addToSearchHistory_run (amb : Ambient) (query : string) (s : Store) :
  reliable amb →
  addToSearchHistory amb query s
  = if JS.truthy (trim query) then
      let updated :=
        JS.slice0 10
          (trim query
             :: List.filter (fun item => negb (String.eqb item (trim query)))
                            (heldHistory s)) in
      ({| favorites := favorites s; searchHistory := Some updated |}, inr updated)
    else (s, inr (heldHistory s)).
Proof.
  intros (Hget & Hset & _). unfold addToSearchHistory. run_device.
  destruct (JS.truthy (trim query)); cbn [negb].
  - rewrite getSearchHistory_run by done.
    unfold setStoredHistory. run_device. by rewrite Hset.
  - by rewrite getSearchHistory_run.
Qed.

Lemma filter_other_string (q x : string) (l : list string) :
  x ∈ List.filter (fun item => negb (String.eqb item q)) l ↔ x ∈ l ∧ x ≠ q.
Proof.
  rewrite !list_elem_of_In, filter_In, negb_true_iff, String.eqb_neq. done.
Qed.

Lemma truthy_nonempty (s : string) : JS.truthy s = true ↔ s ≠ EmptyString.
Proof. destruct s; simpl; split; done. Qed.

(** X27.  With a working storage, [addToSearchHistory] ignores a query
    that is blank after trimming -- [trim] removes every white space and
    line terminator code point of ECMAScript from both ends.  Otherwise the
    new history is the trimmed query followed by the older entries other
    than this query, in their order, cut after 10 entries: it begins with
    the trimmed query, continues with the first nine of the other older
    entries, never has more than 10 entries whatever was stored, contains
    the query once, has no repetition if the old one had none, and loses
    an older entry only by being full, the entries lost being the oldest
    ones.  The trimmed query is the query without the white space code
    points at its two ends, and it is empty exactly when the query
    consists of white space only. *)
Theorem search_history_most_recent_first (amb : Ambient) (s : Store) (query : string) :
  reliable amb →
  let old := heldHistory s in
  let s' := after (addToSearchHistory amb query) s in
  let new := heldHistory s' in
  let others := List.filter (fun item => negb (String.eqb item (trim query))) old in
  value (addToSearchHistory amb query) s = inr new
  ∧ favorites s' = favorites s
  ∧ (trim query = EmptyString → s' = s)
  ∧ (trim query ≠ EmptyString →
     new = take 10 (trim query :: others)
     ∧ head new = Some (trim query)
     ∧ tail new = take 9 others
     ∧ (∀ x, x ∈ others ↔ x ∈ old ∧ x ≠ trim query)
     ∧ sublist others old
     ∧ (length new ≤ 10)%nat
     ∧ length new = Nat.min 10 (S (length others))
     ∧ (trim query ∉ tail new)
     ∧ sublist (tail new) old
     ∧ (NoDup old → NoDup new)
     ∧ (∀ x, x ∈ old → x ∉ new → length new = 10%nat)
     ∧ (∀ i x, others !! i = Some x → (i < 9)%nat → new !! S i = Some x)
     ∧ (NoDup old → ∀ i x, others !! i = Some x → (9 ≤ i)%nat → x ∉ new))
  ∧ trimmed query (trim query)
  ∧ (trim query = EmptyString ↔ blank query).
Proof.
  intros Hok old s' new others.
  cut (value (addToSearchHistory amb query) s = inr new
       ∧ favorites s' = favorites s
       ∧ (trim query = EmptyString → s' = s)
       ∧ (trim query ≠ EmptyString →
          new = take 10 (trim query :: others)
          ∧ head new = Some (trim query)
          ∧ tail new = take 9 others
          ∧ (∀ x, x ∈ others ↔ x ∈ old ∧ x ≠ trim query)
          ∧ sublist others old
          ∧ (length new ≤ 10)%nat
          ∧ length new = Nat.min 10 (S (length others))
          ∧ (trim query ∉ tail new)
          ∧ sublist (tail new) old
          ∧ (NoDup old → NoDup new)
          ∧ (∀ x, x ∈ old → x ∉ new → length new = 10%nat)
          ∧ (∀ i x, others !! i = Some x → (i < 9)%nat → new !! S i = Some x)
          ∧ (NoDup old → ∀ i x, others !! i = Some x → (9 ≤ i)%nat → x ∉ new))).
  { intros (H1 & H2 & H3 & H4).
    split; [exact H1|]. split; [exact H2|]. split; [exact H3|]. split; [exact H4|].
    split; [apply trim_trimmed | apply trim_blank]. }
  subst new s'. unfold value, after.
  rewrite addToSearchHistory_run by done. fold old. fold others.
  destruct (JS.truthy (trim query)) eqn:E; cbn [fst snd].
  - apply truthy_nonempty in E.
    split; [done|]. split; [done|]. split; [done|]. intros _.
    unfold heldHistory. cbn [searchHistory default]. unfold JS.slice0.
    change (take 10 (trim query :: others)) with (trim query :: take 9 others).
    unfold id. cbn [head tail].
    assert (∀ x, x ∈ take 9 others → x ∈ old ∧ x ≠ trim query) as Htaken.
    { intros x Hx. apply filter_other_string.
      apply elem_of_take in Hx as (i & Hi & _).
      by apply list_elem_of_lookup_2 in Hi. }
    split; [done|]. split; [done|]. split; [done|].
    split; [intros x; apply filter_other_string|].
    split; [apply filter_sublist|].
    split; [cbn [length]; rewrite length_take; lia|].
    split; [cbn [length]; rewrite length_take; lia|].
    split; [intros Hin; by apply Htaken in Hin as [_ ?]|].
    split; [etransitivity; [apply sublist_take | apply filter_sublist]|].
    split; [|split; [|split]].
    + intros Hnd. constructor.
      * intros Hin. by apply Htaken in Hin as [_ ?].
      * apply (sublist_NoDup _ others); [|apply sublist_take].
        by apply NoDup_List_filter.
    + intros x Hx Hout. simpl. rewrite length_take.
      assert (9 < length others)%nat; [|lia].
      destruct (decide (9 < length others)%nat); [done|]. exfalso.
      rewrite take_ge in Hout by lia. apply Hout.
      destruct (decide (x = trim query)) as [->|Hne]; [by left|].
      right. by apply filter_other_string.
    + intros i x Hi Hlt.
      change ((trim query :: take 9 others) !! S i) with (take 9 others !! i).
      by rewrite lookup_take_lt.
    + intros Hnd i x Hi Hge Hin.
      assert (NoDup others) as Hothers by (by apply NoDup_List_filter).
      inversion Hin as [|? ? ? Hin']; subst.
      * apply list_elem_of_lookup_2, filter_other_string in Hi. by destruct Hi.
      * apply elem_of_take in Hin' as (j & Hj & Hlt).
        pose proof (NoDup_lookup _ _ _ _ Hothers Hi Hj). lia.
  - assert (trim query = EmptyString) as Hblank.
    { destruct (trim query); [done | discriminate E]. }
    repeat split; done.
Qed.

Lemma search_history_most_recent_first_witness :
  head (heldHistory
          (after (addToSearchHistory DeviceFixture.working "  heat ")
                 (after (addToSearchHistory DeviceFixture.working "alien")
                        (after (addToSearchHistory DeviceFixture.working "heat")
                               DeviceFixture.fresh))))
  = Some "heat".
Proof.
  assert (reliable DeviceFixture.working) as Hok by (repeat split).
  destruct (search_history_most_recent_first DeviceFixture.working
              (after (addToSearchHistory DeviceFixture.working "alien")
                     (after (addToSearchHistory DeviceFixture.working "heat")
                            DeviceFixture.fresh))
              "  heat " Hok) as (_ & _ & _ & Hrecent & _).
  destruct Hrecent as (_ & Hhead & _); [vm_compute; discriminate|]. exact Hhead.
Defined.

(** X28.  With a working storage, [removeFromSearchHistory] stores the
    history without the given entry, the others in their order, and
    [clearSearchHistory] removes the key, after which the history reads as
    empty; neither touches the favorites.  When [AsyncStorage.removeItem]
    fails, [clearSearchHistory] throws a [StorageError] and the store is
    unchanged. *)
Theorem search_history_remove_and_clear (amb : Ambient) (s : Store) (query : string) :
  (reliable amb →
   let removed := after (removeFromSearchHistory amb query) s in
   let cleared := after (clearSearchHistory amb) s in
   value (removeFromSearchHistory amb query) s = inr (heldHistory removed)
   ∧ (query ∉ heldHistory removed)
   ∧ (∀ x, x ≠ query → (x ∈ heldHistory removed ↔ x ∈ heldHistory s))
   ∧ sublist (heldHistory removed) (heldHistory s)
   ∧ favorites removed = favorites s
   ∧ value (clearSearchHistory amb) s = inr tt
   ∧ value (getSearchHistory amb) cleared = inr []
   ∧ favorites cleared = favorites s)
  ∧ (removeItem_rejects amb = true →
     value (clearSearchHistory amb) s
     = inl (StorageError "Failed to clear search history" "CLEAR_SEARCH_HISTORY")
     ∧ after (clearSearchHistory amb) s = s).
Proof.
  split.
  - intros (Hget & Hset & Hremove) removed cleared. subst removed cleared.
    unfold removeFromSearchHistory, clearSearchHistory, removeStoredHistory.
    run_device. rewrite !getSearchHistory_run by done.
    unfold setStoredHistory. run_device. rewrite Hset, Hremove. cbn.
    split; [done|]. split; [|split; [|split]].
    + rewrite filter_other_string. tauto.
    + intros x Hx. rewrite filter_other_string. tauto.
    + apply filter_sublist.
    + done.
  - intros Hremove.
    unfold clearSearchHistory, removeStoredHistory. run_device.
    by rewrite Hremove.
Qed.

Lemma search_history_remove_and_clear_witness :
  value (getSearchHistory DeviceFixture.working)
        (after (clearSearchHistory DeviceFixture.working)
               (after (addToSearchHistory DeviceFixture.working "heat")
                      DeviceFixture.fresh))
  = inr [].
Proof.
  assert (reliable DeviceFixture.working) as Hok by (repeat split).
  destruct (search_history_remove_and_clear DeviceFixture.working
              (after (addToSearchHistory DeviceFixture.working "heat")
                     DeviceFixture.fresh) "heat") as [Hworking _].
  destruct (Hworking Hok) as (_ & _ & _ & _ & _ & _ & Hempty & _). exact Hempty.
Defined.

(** *** Favorites *)

Lemma sameFavorite_identity (id : Z) (type : MediaType) (fav : FavoriteItem) :
  sameFavorite id type fav = true ↔ favoriteIdentity fav = (id, type).
Proof.
  unfold sameFavorite, favoriteIdentity.
  destruct (fav_type fav), type;
    rewrite ?andb_true_r, ?andb_false_r, ?Z.eqb_eq;
    split; intros H; congruence.
Qed.

Lemma existsb_sameFavorite (id : Z) (type : MediaType) (l : list FavoriteItem) :
  existsb (sameFavorite id type) l = true ↔ (id, type) ∈ map favoriteIdentity l.
Proof.
  rewrite existsb_exists, list_elem_of_fmap. split.
  - intros (fav & Hin & Hsame). exists fav.
    split; [symmetry; by apply sameFavorite_identity | by apply list_elem_of_In].
  - intros (fav & Heq & Hin). exists fav.
    split; [by apply list_elem_of_In | by apply sameFavorite_identity].
Qed.

Lemma findIndex_is_Some {A} (p : A → bool) (l : list A) :
  bool_decide (is_Some (JS.findIndex p l)) = existsb p l.
Proof.
  unfold JS.findIndex. destruct (JS.findIndex_from p l 0) as [i|] eqn:E.
  - rewrite bool_decide_eq_true_2 by eauto.
    destruct (existsb p l) eqn:Ex; [done|].
    apply (findIndex_from_None p l 0) in Ex. congruence.
  - rewrite bool_decide_eq_false_2 by (by intros [? ?]).
    symmetry. by apply (findIndex_from_None p l 0).
Qed.

Lemma addToFavorites_run (amb : Ambient) (item : FavoriteItem) (s : Store) :
  reliable amb →
  addToFavorites amb item s
  = if existsb (sameFavorite (fav_id item) (fav_type item)) (heldFavorites s)
    then (s, inr (heldFavorites s))
    else ({| favorites := Some (heldFavorites s ++ [stamped amb item]);
             searchHistory := searchHistory s |},
          inr (heldFavorites s ++ [stamped amb item])).
Proof.
  intros (Hget & Hset & _). unfold addToFavorites. run_device.
  rewrite getFavorites_run by done. rewrite findIndex_is_Some.
  destruct (existsb _ (heldFavorites s)); [done|].
  unfold setStoredFavorites. run_device. by rewrite Hset.
Qed.

Lemma isFavorite_run (amb : Ambient) (id : Z) (type : MediaType) (s : Store) :
  getItem_rejects amb = false →
  value (isFavorite amb id type) s
  = inr (existsb (sameFavorite id type) (heldFavorites s)).
Proof.
  intros Hget. unfold isFavorite. run_device. by rewrite getFavorites_run.
Qed.

(** X29.  With a working storage, [addToFavorites] leaves the store as it
    is when an item with the same identifier and media type is already a
    favorite, and otherwise appends the item, stamped with the current
    time; afterwards the item is a favorite; no identifier and media type
    occurs twice if none did before; adding the same item again changes
    nothing. *)
Theorem addToFavorites_keeps_identities_unique
    (amb : Ambient) (s : Store) (item : FavoriteItem) :
  reliable amb →
  let old := heldFavorites s in
  let s' := after (addToFavorites amb item) s in
  let new := heldFavorites s' in
  value (addToFavorites amb item) s = inr new
  ∧ (favoriteIdentity item ∈ map favoriteIdentity old → s' = s)
  ∧ (favoriteIdentity item ∉ map favoriteIdentity old →
     new = old ++ [stamped amb item])
  ∧ value (isFavorite amb (fav_id item) (fav_type item)) s' = inr true
  ∧ (NoDup (map favoriteIdentity old) → NoDup (map favoriteIdentity new))
  ∧ after (addToFavorites amb item) s' = s'
  ∧ searchHistory s' = searchHistory s.
Proof.
  intros Hok old s' new. subst new s'.
  pose proof Hok as (Hget & _).
  unfold value at 1. unfold after. rewrite (addToFavorites_run amb item s) by done.
  fold old.
  destruct (existsb (sameFavorite (fav_id item) (fav_type item)) old) eqn:E;
    cbn [fst snd].
  - pose proof E as Hin. apply existsb_sameFavorite in Hin.
    split; [done|]. split; [done|]. split; [done|].
    split; [rewrite isFavorite_run by done; fold old; by rewrite E|].
    split; [done|]. split; [|done].
    rewrite addToFavorites_run by done. fold old. by rewrite E.
  - assert (favoriteIdentity item ∉ map favoriteIdentity old) as Hnot.
    { intros Hin. apply existsb_sameFavorite in Hin. congruence. }
    set (s' := {| favorites := Some (old ++ [stamped amb item]);
                  searchHistory := searchHistory s |}).
    assert (heldFavorites s' = old ++ [stamped amb item]) as Hheld by done.
    assert (existsb (sameFavorite (fav_id item) (fav_type item)) (heldFavorites s')
            = true) as Hnow.
    { rewrite Hheld. apply existsb_sameFavorite.
      rewrite map_app, elem_of_app. right. by left. }
    split; [done|]. split; [done|]. split; [done|].
    split; [rewrite isFavorite_run by done; by rewrite Hnow|].
    split.
    + intros Hnd. rewrite Hheld, map_app. apply NoDup_app.
      split; [done|]. split; [|apply NoDup_singleton].
      intros x Hx ->%list_elem_of_singleton. done.
    + split; [|done]. rewrite addToFavorites_run by done. by rewrite Hnow.
Qed.

Lemma addToFavorites_keeps_identities_unique_witness :
  map favoriteIdentity
    (heldFavorites
       (after (addToFavorites DeviceFixture.working
                 (DeviceFixture.favorite 949 tv "Nine Four Nine"))
              (after (addToFavorites DeviceFixture.working
                        (DeviceFixture.favorite 949 movie "Heat"))
                     DeviceFixture.fresh)))
  = [(949, movie); (949, tv)].
Proof.
  assert (reliable DeviceFixture.working) as Hok by (repeat split).
  destruct (addToFavorites_keeps_identities_unique DeviceFixture.working
              (after (addToFavorites DeviceFixture.working
                        (DeviceFixture.favorite 949 movie "Heat"))
                     DeviceFixture.fresh)
              (DeviceFixture.favorite 949 tv "Nine Four Nine") Hok)
    as (_ & _ & Happend & _).
  rewrite Happend; [reflexivity|].
  vm_compute. intros Hin. apply list_elem_of_singleton in Hin. discriminate Hin.
Defined.

Lemma filter_from_all_later {A} (i j : nat) (l : list A) :
  (i < j)%nat →
  JS.filter_from (fun _ index => negb (Nat.eqb index i)) l j = l.
Proof.
  revert j. induction l as [|x l IH]; intros j Hij; simpl; [done|].
  assert (Nat.eqb j i = false) as -> by (apply Nat.eqb_neq; lia).
  simpl. by rewrite IH by lia.
Qed.

Lemma filter_from_dropFirst {A} (p : A → bool) (l : list A) (i j : nat) :
  JS.findIndex_from p l j = Some i →
  JS.filter_from (fun _ index => negb (Nat.eqb index i)) l j = dropFirst p l.
Proof.
  revert j. induction l as [|x l IH]; intros j; simpl; [done|].
  destruct (p x).
  - intros [= <-]. rewrite Nat.eqb_refl. simpl. apply filter_from_all_later. lia.
  - intros Hi. pose proof (findIndex_from_range _ _ _ _ Hi) as Hrange.
    assert (Nat.eqb j i = false) as -> by (apply Nat.eqb_neq; lia).
    simpl. by rewrite IH.
Qed.

Lemma dropFirst_unique (id : Z) (type : MediaType) (l : list FavoriteItem) :
  NoDup (map favoriteIdentity l) →
  dropFirst (sameFavorite id type) l
  = List.filter (fun fav => negb (sameFavorite id type fav)) l.
Proof.
  induction l as [|x l IH]; simpl; [done|].
  intros [Hx Hnd]%NoDup_cons.
  destruct (sameFavorite id type x) eqn:E; simpl.
  - apply sameFavorite_identity in E.
    symmetry. apply forallb_filter_id, forallb_forall. intros y Hy.
    apply negb_true_iff.
    destruct (sameFavorite id type y) eqn:Ey; [|done].
    apply sameFavorite_identity in Ey. exfalso. apply Hx.
    rewrite E, <- Ey. apply list_elem_of_fmap. exists y.
    split; [done | by apply list_elem_of_In].
  - by rewrite IH.
Qed.

Lemma toggleFavorite_run (amb : Ambient) (item : FavoriteItem) (s : Store) :
  reliable amb →
  let updated :=
    if existsb (sameFavorite (fav_id item) (fav_type item)) (heldFavorites s)
    then dropFirst (sameFavorite (fav_id item) (fav_type item)) (heldFavorites s)
    else heldFavorites s ++ [stamped amb item] in
  toggleFavorite amb item s
  = ({| favorites := Some updated; searchHistory := searchHistory s |},
     inr updated).
Proof.
  intros (Hget & Hset & _) updated. subst updated.
  unfold toggleFavorite. run_device. rewrite getFavorites_run by done.
  unfold setStoredFavorites. run_device. rewrite Hset.
  unfold JS.findIndex, JS.filteri.
  destruct (JS.findIndex_from _ (heldFavorites s) 0) as [i|] eqn:E.
  - rewrite (filter_from_dropFirst _ _ _ _ E).
    assert (existsb (sameFavorite (fav_id item) (fav_type item)) (heldFavorites s)
            = true) as ->; [|done].
    destruct (existsb _ (heldFavorites s)) eqn:Ex; [done|].
    apply (findIndex_from_None _ _ 0) in Ex. congruence.
  - apply findIndex_from_None in E. by rewrite E.
Qed.

(** X30.  With a working storage and favorites in which no identifier and
    media type occurs twice, [toggleFavorite] flips whether the item is a
    favorite and touches no other favorite: an absent item is appended,
    stamped with the current time, and toggling once more gives back the
    list as it was; a present item is removed and the others keep their
    order. *)
Theorem toggleFavorite_flips (amb : Ambient) (s : Store) (item : FavoriteItem) :
  reliable amb →
  NoDup (map favoriteIdentity (heldFavorites s)) →
  let old := heldFavorites s in
  let s' := after (toggleFavorite amb item) s in
  let new := heldFavorites s' in
  let was := existsb (sameFavorite (fav_id item) (fav_type item)) old in
  value (toggleFavorite amb item) s = inr new
  ∧ value (isFavorite amb (fav_id item) (fav_type item)) s' = inr (negb was)
  ∧ NoDup (map favoriteIdentity new)
  ∧ (∀ fav, favoriteIdentity fav ≠ favoriteIdentity item →
            (fav ∈ new ↔ fav ∈ old))
  ∧ (was = false →
     new = old ++ [stamped amb item]
     ∧ heldFavorites (after (toggleFavorite amb item) s') = old)
  ∧ (was = true → sublist new old ∧ length new = pred (length old)).
Proof.
  intros Hok Hnd old s' new was. subst new s'.
  pose proof Hok as (Hget & _).
  pose proof (toggleFavorite_run amb item s Hok) as Hrun. cbn zeta in Hrun.
  fold old was in Hrun.
  assert (after (toggleFavorite amb item) s = fst (toggleFavorite amb item s))
    as Hafter by done.
  assert (value (toggleFavorite amb item) s = snd (toggleFavorite amb item s))
    as Hvalue by done.
  rewrite Hafter, Hvalue, Hrun. clear Hafter Hvalue Hrun. cbn [fst snd].
  destruct was eqn:Ewas; subst was.
  - rewrite dropFirst_unique by done.
    set (kept := List.filter _ old).
    assert (heldFavorites {| favorites := Some kept;
                             searchHistory := searchHistory s |} = kept)
      as Hheld by done.
    rewrite isFavorite_run, !Hheld by done.
    assert (∀ fav, fav ∈ kept
                   ↔ fav ∈ old ∧ favoriteIdentity fav ≠ favoriteIdentity item)
      as Hkept.
    { intros fav. unfold kept.
      rewrite list_elem_of_In, filter_In, <- list_elem_of_In, negb_true_iff,
        <- not_true_iff_false, sameFavorite_identity. done. }
    split; [done|]. split; [|split; [|split; [|split]]].
    + f_equal. apply not_true_iff_false. intros Hin.
      apply existsb_sameFavorite, list_elem_of_fmap in Hin as (fav & Hid & Hfav).
      apply Hkept in Hfav as [_ Hne]. by apply Hne.
    + apply (sublist_NoDup _ (map favoriteIdentity old)); [done|].
      apply (fmap_sublist favoriteIdentity), filter_sublist.
    + intros fav Hne. rewrite Hkept. tauto.
    + discriminate.
    + intros _. split; [apply filter_sublist|].
      unfold kept. rewrite <- dropFirst_unique by done.
      clear Hkept Hheld kept. revert Ewas. clear.
      induction old as [|x old IH]; simpl; [discriminate|].
      destruct (sameFavorite (fav_id item) (fav_type item) x); simpl; [done|].
      intros Hex. rewrite IH by done. destruct old; [discriminate Hex | done].
  - set (s' := {| favorites := Some (old ++ [stamped amb item]);
                  searchHistory := searchHistory s |}).
    assert (heldFavorites s' = old ++ [stamped amb item]) as Hheld by done.
    assert (favoriteIdentity item ∉ map favoriteIdentity old) as Hnot.
    { intros Hin. apply existsb_sameFavorite in Hin. congruence. }
    assert (existsb (sameFavorite (fav_id item) (fav_type item))
                    (old ++ [stamped amb item]) = true) as Hnow.
    { apply existsb_sameFavorite. rewrite map_app, elem_of_app. right. by left. }
    rewrite isFavorite_run, !Hheld, Hnow by done.
    split; [done|]. split; [done|]. split; [|split; [|split]].
    + rewrite map_app. apply NoDup_app. split; [done|].
      split; [|apply NoDup_singleton].
      intros x Hx ->%list_elem_of_singleton. done.
    + intros fav Hne. rewrite elem_of_app, list_elem_of_singleton. split; [|tauto].
      intros [? | ->]; [done|]. by destruct Hne.
    + intros _. split; [done|].
      assert (after (toggleFavorite amb item) s' = fst (toggleFavorite amb item s'))
        as -> by done.
      rewrite (toggleFavorite_run amb item s') by done. cbn zeta.
      rewrite Hheld, Hnow. cbn.
      clear -Ewas. induction old as [|x old IH]; simpl.
      * unfold sameFavorite. simpl. rewrite Z.eqb_refl.
        by destruct (fav_type item).
      * simpl in Ewas. apply orb_false_elim in Ewas as [Hx Hrest].
        rewrite Hx. by rewrite IH.
    + discriminate.
Qed.

Lemma toggleFavorite_flips_witness :
  heldFavorites
    (after (toggleFavorite DeviceFixture.working
              (DeviceFixture.favorite 949 movie "Heat"))
           (after (toggleFavorite DeviceFixture.working
                     (DeviceFixture.favorite 949 movie "Heat"))
                  DeviceFixture.fresh))
  = [].
Proof.
  assert (reliable DeviceFixture.working) as Hok by (repeat split).
  assert (NoDup (map favoriteIdentity (heldFavorites DeviceFixture.fresh))) as Hnd
    by constructor.
  destruct (toggleFavorite_flips DeviceFixture.working DeviceFixture.fresh
              (DeviceFixture.favorite 949 movie "Heat") Hok Hnd)
    as (_ & _ & _ & _ & Habsent & _).
  destruct (Habsent eq_refl) as [_ Hback]. exact Hback.
Defined.

End DeviceFacts.
